(** * PFER: the project packer / reconstructor text codec

    A shallow embedding of the codec of the repository: the two parsers
    ([_parse_text_to_tree] of [main.py], [_parse_content] of
    [file_processor.py]), the serializer ([_regenerate_combined_text]),
    the two reconstructors, the two exclusion matchers and the two
    directory walks, together with the properties the specification
    states about them.

    Python strings are sequences of code points; they are embedded as
    lists of [ascii] characters, so that the list library applies: the
    embedding covers the texts whose code points are below 256, with
    the classes of characters ([\s], [\w], [str.strip], [str.lower])
    that Python has for them.  String literals are read through a
    coercion.  The operating system is the POSIX one. *)

From Stdlib Require Import Ascii String List Bool Arith NArith Lia Permutation.
Import ListNotations.
Open Scope string_scope.
Open Scope list_scope.

Set Implicit Arguments.

(* ================================================================== *)
(** ** Python strings *)
(* ================================================================== *)

Module PyStr.

Definition str := list ascii.

Definition of_string : string -> list ascii := list_ascii_of_string.
Coercion of_string : string >-> list.

Definition LF : ascii := ascii_of_nat 10.
Definition CR : ascii := ascii_of_nat 13.
Definition nl : str := [LF].

(** [str.isspace] on one character, for the code points below 256: the
    ASCII controls 9-13 and 28-31, the space, NEL (133) and the
    no-break space (160).  The same table is behind [\s] of [re] and
    behind [str.strip()]. *)
Definition isspace (c : ascii) : bool :=
  let n := N_of_ascii c in
  (((9 <=? n) && (n <=? 13)) || ((28 <=? n) && (n <=? 32))
   || (n =? 133) || (n =? 160))%N.

(** [\w] of [re] on a [str] pattern: alphanumeric or underscore.  Below
    256 the alphanumerics are the ASCII letters and digits, the Latin-1
    letters, the superscript digits and the vulgar fractions. *)
Definition isword (c : ascii) : bool :=
  let n := N_of_ascii c in
  (((48 <=? n) && (n <=? 57)) || ((65 <=? n) && (n <=? 90))
   || ((97 <=? n) && (n <=? 122)) || (n =? 95)
   || (n =? 170) || (n =? 178) || (n =? 179) || (n =? 181)
   || (n =? 185) || (n =? 186) || ((188 <=? n) && (n <=? 190))
   || ((192 <=? n) && (n <=? 214)) || ((216 <=? n) && (n <=? 246))
   || ((248 <=? n) && (n <=? 255)))%N.

Fixpoint str_eqb (a b : str) : bool :=
  match a, b with
  | [], [] => true
  | x :: a', y :: b' => Ascii.eqb x y && str_eqb a' b'
  | _, _ => false
  end.

(** [c in chars] *)
Definition char_in (chars : str) (c : ascii) : bool :=
  existsb (Ascii.eqb c) chars.

Fixpoint take_while (p : ascii -> bool) (s : str) : str :=
  match s with
  | c :: r => if p c then c :: take_while p r else []
  | [] => []
  end.

Fixpoint drop_while (p : ascii -> bool) (s : str) : str :=
  match s with
  | c :: r => if p c then drop_while p r else s
  | [] => []
  end.

(** [s.lstrip(chars)], [s.rstrip(chars)], [s.strip(chars)] with the set
    of characters given as a predicate. *)
Definition lstrip_by (p : ascii -> bool) (s : str) : str := drop_while p s.
Definition rstrip_by (p : ascii -> bool) (s : str) : str :=
  rev (drop_while p (rev s)).
Definition strip_by (p : ascii -> bool) (s : str) : str :=
  rstrip_by p (lstrip_by p s).

(** [s.strip()] *)
Definition strip (s : str) : str := strip_by isspace s.

(** [s.startswith(p)], [s.endswith(p)] *)
Fixpoint startswith (s p : str) {struct p} : bool :=
  match p, s with
  | [], _ => true
  | x :: p', y :: s' => Ascii.eqb x y && startswith s' p'
  | _ :: _, [] => false
  end.

Definition endswith (s p : str) : bool := startswith (rev s) (rev p).

(** Splitting at every character that satisfies [p]: [s.split(sep)] for
    a separator of one character, and [re.split] for a pattern that is
    a class of characters. *)
Fixpoint split_by (p : ascii -> bool) (s : str) : list str :=
  match s with
  | [] => [[]]
  | c :: r =>
      if p c then [] :: split_by p r
      else match split_by p r with
           | w :: ws => (c :: w) :: ws
           | [] => [[c]]
           end
  end.

Definition split (sep : ascii) (s : str) : list str :=
  split_by (Ascii.eqb sep) s.

(** [s.split(sep, 1)]: the text before the first separator, and the
    text after it when there is one. *)
Fixpoint split1 (sep : ascii) (s : str) : str * option str :=
  match s with
  | [] => ([], None)
  | c :: r =>
      if Ascii.eqb c sep then ([], Some r)
      else let (h, t) := split1 sep r in (c :: h, t)
  end.

(** [sep.join(parts)] *)
Fixpoint join (sep : str) (parts : list str) : str :=
  match parts with
  | [] => []
  | [p] => p
  | p :: ps => p ++ sep ++ join sep ps
  end.

(** [s.replace(old, new)] for a non-empty [old] (it is non-empty at
    every call of the sources): occurrences are replaced from the left,
    without overlap.  [skip] counts the characters of a matched
    occurrence still to be passed over. *)
Fixpoint replace_from (old new : str) (skip : nat) (s : str) : str :=
  match s with
  | [] => []
  | c :: r =>
      match skip with
      | S k => replace_from old new k r
      | O => if startswith s old
             then new ++ replace_from old new (length old - 1) r
             else c :: replace_from old new 0 r
      end
  end.

Definition replace (old new s : str) : str := replace_from old new 0 s.

(** [s.lower()] for the code points below 256: the ASCII capitals and
    the Latin-1 capitals (192-222 but the multiplication sign) move up
    by 32. *)
Definition lower_char (c : ascii) : ascii :=
  let n := N_of_ascii c in
  if (((65 <=? n) && (n <=? 90))
      || ((192 <=? n) && (n <=? 222) && negb (n =? 215)))%N
  then ascii_of_N (n + 32) else c.

Definition lower (s : str) : str := map lower_char s.

(** a list of texts given by literals *)
Definition strs (ls : list string) : list str := map of_string ls.

(** the text of a document given line by line *)
Definition unlines (ls : list string) : str := join nl (map of_string ls).

End PyStr.
Import PyStr.

(* ================================================================== *)
(** ** Regular expressions shared by the two programs *)
(* ================================================================== *)

Module Re.

Definition is_empty (s : str) : bool :=
  match s with [] => true | _ :: _ => false end.

Definition is_empty_list {A : Type} (l : list A) : bool :=
  match l with [] => true | _ :: _ => false end.

Definition nonspace (c : ascii) : bool := negb (isspace c).

Definition fence : str := "```".

(** [sub in s] *)
Fixpoint contains (s sub : str) : bool :=
  startswith s sub ||
  match s with
  | _ :: r => contains r sub
  | [] => false
  end.

(** The tail [\n\s*```] of both block patterns, tried at the start of
    [s]; the result is the text after the closing fence.  [\s*] is
    greedy, and giving characters back cannot help: the character that
    follows would be a space, not a backquote. *)
Definition closing_fence (s : str) : option str :=
  match s with
  | c :: r =>
      if Ascii.eqb c LF then
        let r' := drop_while isspace r in
        if startswith r' fence then Some (skipn 3 r') else None
      else None
  | [] => None
  end.

(** The lazy group [.*?] under [re.DOTALL] followed by the closing fence: the
    shortest body after which the closing fence matches, and the text
    after that fence. *)
Fixpoint lazy_body (s : str) : option (str * str) :=
  match closing_fence s with
  | Some rest => Some ([], rest)
  | None =>
      match s with
      | c :: r =>
          match lazy_body r with
          | Some (b, rest) => Some (c :: b, rest)
          | None => None
          end
      | [] => None
      end
  end.

(** One attempt of [CODE_BLOCK_PATTERN] at the start of [s]: groups 1
    and 2 and the text after the match.  The pattern is, piece by piece,
    [```], a group of [\w*] ([main.py], [lang_required = false]) or of
    [\w+] ([constants.py], [lang_required = true]), [\n], a group of the
    lazy [.*?], and [\n\s*```].  The greedy [\w*] cannot give characters back
    usefully, since a word character is not a newline. *)
Definition block_match (lang_required : bool) (s : str)
  : option (str * str * str) :=
  if startswith s fence then
    let s1 := skipn 3 s in
    let lang := take_while isword s1 in
    if lang_required && is_empty lang then None
    else
      match drop_while isword s1 with
      | c :: s3 =>
          if Ascii.eqb c LF then
            match lazy_body s3 with
            | Some (body, rest) => Some (lang, body, rest)
            | None => None
            end
          else None
      | [] => None
      end
  else None.

(** [pattern.finditer(s)]: the matches from left to right, without
    overlap; each is given by its groups 1 and 2.  [skip] counts the
    characters of the last match still to be passed over (a match of
    these patterns is never empty). *)
Fixpoint finditer_from (lang_required : bool) (skip : nat) (s : str)
  : list (str * str) :=
  match s with
  | [] => []
  | _ :: r =>
      match skip with
      | S k => finditer_from lang_required k r
      | O =>
          match block_match lang_required s with
          | Some (lang, body, rest) =>
              (lang, body)
                :: finditer_from lang_required (length s - length rest - 1) r
          | None => finditer_from lang_required 0 r
          end
      end
  end.

Definition finditer (lang_required : bool) (s : str) : list (str * str) :=
  finditer_from lang_required 0 s.

(** [INVALID_PATH_CHARS_PATTERN], the same in [main.py] and in
    [constants.py]: a class of seven characters, the six below and the
    double quote (code 34); [.search(p)] finds one of them in [p]. *)
Definition invalid_path_chars : str := "<>:|?*" ++ [ascii_of_nat 34].

Definition INVALID_PATH_CHARS_PATTERN_search (p : str) : bool :=
  existsb (char_in invalid_path_chars) p.

End Re.
Import Re.

(* ================================================================== *)
(** ** Python dictionaries *)
(* ================================================================== *)

(** A [dict] with string keys keeps its keys in the order of their first
    insertion; assigning to a key that is present replaces the value in
    place. *)
Module Dict.
Section Dict.
Variable V : Type.

Definition dict := list (str * V).

Fixpoint set (k : str) (v : V) (d : dict) : dict :=
  match d with
  | [] => [(k, v)]
  | (k', v') :: r =>
      if str_eqb k' k then (k', v) :: r else (k', v') :: set k v r
  end.

Fixpoint get (k : str) (d : dict) : option V :=
  match d with
  | [] => None
  | (k', v') :: r => if str_eqb k' k then Some v' else get k r
  end.

Definition keys (d : dict) : list str := map fst d.
Definition values (d : dict) : list V := map snd d.
End Dict.
End Dict.

(* ================================================================== *)
(** ** [main.py]: the codec on [FileInfo] records *)
(* ================================================================== *)

Module Main.

(** [FileInfo]; the field [item_ref], a back reference to the tree
    widget, plays no part in the codec. *)
Record FileInfo := mkFileInfo {
  rel_path : str;
  content : str;
  language : str;
  comment_symbol : str
}.

(** [CODE_BLOCK_PATTERN.finditer] with the pattern of [main.py], whose
    language tag may be empty *)
Definition CODE_BLOCK_PATTERN_finditer (s : str) : list (str * str) :=
  finditer false s.

(** The class of [PATH_COMMENT_PATTERN], written [#|//|;] between
    brackets in the source: the four characters hash, bar, slash and
    semicolon. *)
Definition marker_char (c : ascii) : bool := char_in "#|/;" c.

(** The middle of [PATH_COMMENT_PATTERN]: an optional group 1 of one or
    more marker characters, [\s*], and group 2, [\S+].  The greedy tries
    are made in order: the longest run of markers first; when only
    spaces follow the run, [\S+] has nothing to take, and the run is
    shortened by one character, which becomes group 2 (with a run of one
    character group 1 is then absent). *)
Definition marker_and_token (u : str) : option (option str * str) :=
  let r := take_while marker_char u in
  let u4 := drop_while isspace (drop_while marker_char u) in
  match u4 with
  | _ :: _ =>
      Some (match r with [] => None | _ :: _ => Some r end,
            take_while nonspace u4)
  | [] =>
      match rev r with
      | [] => None
      | [c] => Some (None, [c])
      | c :: _ :: _ => Some (Some (removelast r), [c])
      end
  end.

(** [PATH_COMMENT_PATTERN.match(line)]: groups 1 and 2.  The pattern is
    the start of the line, [\s*], an optional [<!--\s*], the middle
    above, and an optional [\s*-->] that never makes a match fail.  The
    opening [<!--] is taken when something follows it; otherwise it is
    itself the token. *)
Definition PATH_COMMENT_PATTERN_match (line : str)
  : option (option str * str) :=
  let t := drop_while isspace line in
  if startswith t "<!--" then
    match drop_while isspace (skipn 4 t) with
    | [] => marker_and_token t
    | u => marker_and_token u
    end
  else marker_and_token t.

(** The body of the loop of [_parse_text_to_tree] for one match of
    [CODE_BLOCK_PATTERN]: the record of the block, when its first line
    is a path comment. *)
Definition parse_block (m : str * str) : option FileInfo :=
  let language := fst m in
  let block_content := strip (snd m) in
  let first_line := fst (split1 LF block_content) in
  match PATH_COMMENT_PATTERN_match first_line with
  | Some (g1, g2) =>
      let comment_symbol := match g1 with Some g => g | None => [] end in
      let rel_path := strip g2 in
      let content :=
        match snd (split1 LF block_content) with
        | Some rest => rest
        | None => []
        end in
      Some (mkFileInfo rel_path content language comment_symbol)
  | None => None
  end.

(** the assignments [path_to_info_map[rel_path] = FileInfo(...)] of the
    loop, in the order of the matches *)
Definition collect (ms : list (str * str)) : Dict.dict FileInfo :=
  fold_left
    (fun d m =>
       match parse_block m with
       | Some fi => Dict.set (rel_path fi) fi d
       | None => d
       end)
    ms [].

(** [_parse_text_to_tree]: [full_content] is the text of the text area,
    [file_data] the list held by the window; the result is the new
    [self.file_data].  On a blank text the method returns before
    touching it. *)
Definition _parse_text_to_tree (full_content : str)
    (file_data : list FileInfo) : list FileInfo :=
  if is_empty (strip full_content) then file_data
  else Dict.values (collect (CODE_BLOCK_PATTERN_finditer full_content)).

(** the parse of a text as a function of the text alone, as the
    interface of the codec has it *)
Definition parse (text : str) : list FileInfo :=
  _parse_text_to_tree text [].

(** The block of one record in [_regenerate_combined_text]. *)
Definition block_of (fi : FileInfo) : str :=
  let comment_line : str :=
    if contains (comment_symbol fi) "<!--" then
      "<!-- " ++ rel_path fi ++ " -->" ++ nl
    else if negb (is_empty (comment_symbol fi)) then
      comment_symbol fi ++ " " ++ rel_path fi ++ nl
    else [] in
  fence ++ language fi ++ nl
    ++ comment_line
    ++ strip (content fi) ++ nl
    ++ fence ++ nl.

(** [_regenerate_combined_text]: the text given to the text area. *)
Definition _regenerate_combined_text (file_data : list FileInfo) : str :=
  join nl (map block_of file_data).

Definition serialize := _regenerate_combined_text.

End Main.

(* ================================================================== *)
(** ** The operating system: [os.path] and the files *)
(* ================================================================== *)

(** The POSIX flavour of [os.path] ([os.sep] is the slash and [os.name]
    is not [nt]), as [posixpath] defines it. *)
Module OsPath.

Definition sep : ascii := "/"%char.
Definition os_name_is_nt : bool := false.

(** [os.path.isabs] *)
Definition isabs (p : str) : bool := startswith p [sep].

(** [os.path.join(a, b)] *)
Definition join2 (a b : str) : str :=
  if startswith b [sep] then b
  else if is_empty a || endswith a [sep] then a ++ b
  else a ++ [sep] ++ b.

(** [os.path.join(a, *parts)] *)
Definition join_all (a : str) (parts : list str) : str :=
  fold_left join2 parts a.

(** the text up to and including the last separator, and the text after
    it: [p[:i]] and [p[i:]] for [i = p.rfind(sep) + 1] *)
Fixpoint rsplit_sep (p : str) : str * str :=
  match p with
  | [] => ([], [])
  | c :: r =>
      let (h, t) := rsplit_sep r in
      if is_empty h && negb (Ascii.eqb c sep) then ([], c :: t)
      else (c :: h, t)
  end.

(** [os.path.basename] *)
Definition basename (p : str) : str := snd (rsplit_sep p).

(** [os.path.dirname] *)
Definition dirname (p : str) : str :=
  let head := fst (rsplit_sep p) in
  if negb (is_empty head) && negb (forallb (Ascii.eqb sep) head)
  then rstrip_by (Ascii.eqb sep) head
  else head.

(** [os.path.splitext] on a name without separator: the extension
    starts at the last dot, unless only dots come before it. *)
Fixpoint rsplit_dot (p : str) : option (str * str) :=
  match p with
  | [] => None
  | c :: r =>
      match rsplit_dot r with
      | Some (h, e) => Some (c :: h, e)
      | None => if Ascii.eqb c "."%char then Some ([], p) else None
      end
  end.

Definition splitext_name (name : str) : str * str :=
  match rsplit_dot name with
  | Some (h, e) =>
      if forallb (Ascii.eqb "."%char) h then (name, []) else (h, e)
  | None => (name, [])
  end.

(** [os.path.splitext]: the extension is looked for in the last
    component only. *)
Definition splitext (p : str) : str * str :=
  let (head, name) := rsplit_sep p in
  let (root, ext) := splitext_name name in
  (head ++ root, ext).

(** The loop of [os.path.normpath] over the components. *)
Definition norm_step (initial_slashes : nat) (new_comps : list str)
    (comp : str) : list str :=
  if is_empty comp || str_eqb comp "." then new_comps
  else if negb (str_eqb comp "..")
          || (Nat.eqb initial_slashes 0 && is_empty_list new_comps)
          || (match rev new_comps with
              | l :: _ => str_eqb l ".."
              | [] => false
              end)
       then new_comps ++ [comp]
       else removelast new_comps.

(** [os.path.normpath] *)
Definition normpath (path : str) : str :=
  if is_empty path then "."
  else
    let initial_slashes :=
      if startswith path "/" then
        if startswith path "//" && negb (startswith path "///") then 2
        else 1
      else 0 in
    let comps := fold_left (norm_step initial_slashes) (split sep path) [] in
    let p := repeat sep initial_slashes ++ PyStr.join [sep] comps in
    if is_empty p then "." else p.

(** [os.path.abspath] in the working directory [cwd] (an absolute
    path). *)
Definition abspath (cwd path : str) : str :=
  if isabs path then normpath path else normpath (join2 cwd path).

End OsPath.

(** The files.  What the programs do to the file system is to create
    directories and to write whole files; both may fail.  A [world]
    says which directories exist or can be created and which files can
    be opened for writing; the files written are kept as a dictionary
    from the path given to [open] to the text written. *)
Module Os.

Inductive exn := OSError | ValueError.

Record world := mkWorld {
  dir_ok : str -> bool;
  file_ok : str -> bool
}.

(** a world where nothing fails *)
Definition permissive : world := mkWorld (fun _ => true) (fun _ => true).

Definition files := Dict.dict str.

Definition NUL : ascii := ascii_of_nat 0.
Definition has_nul (p : str) : bool := existsb (Ascii.eqb NUL) p.

(** [os.makedirs(d, exist_ok=True)], and also [os.makedirs(d)] behind a
    test that [d] does not exist: a path with a null character is a
    [ValueError], the empty path and a directory that cannot be created
    are [OSError]s. *)
Definition makedirs (w : world) (d : str) : option exn :=
  if has_nul d then Some ValueError
  else if is_empty d then Some OSError
  else if dir_ok w d then None
  else Some OSError.

(** [with open(p, 'w', ...) as f: f.write(text)] *)
Definition write_file (w : world) (p text : str) (fs : files)
  : files + exn :=
  if has_nul p then inr ValueError
  else if file_ok w p then inl (Dict.set p text fs)
  else inr OSError.

(** the components of a path once normalised *)
Definition components (p : str) : list str :=
  filter (fun c => negb (is_empty c)) (split OsPath.sep (OsPath.normpath p)).

Fixpoint list_prefix (a b : list str) {struct a} : bool :=
  match a, b with
  | [], _ => true
  | x :: a', y :: b' => str_eqb x y && list_prefix a' b'
  | _ :: _, [] => false
  end.

(** the absolute path [p] lies in the directory [root] *)
Definition within (root p : str) : bool :=
  list_prefix (components root) (components p).

End Os.

(* ================================================================== *)
(** ** [main.py]: reconstruction from the records *)
(* ================================================================== *)

Module MainReconstruct.
Import Main.

Record stats := mkStats {
  created : nat;
  error : nat;
  invalid_path : nat
}.

(** what a call does: it returns its statistics or it raises *)
Inductive outcome :=
| Returned (s : stats)
| Raised (e : Os.exn).

(** The loop of [_task_reconstruction] from index [i] on.
    [is_cancelled i] is the value of the flag of the worker when
    iteration [i] reads it.  Only [IOError] and [OSError] are caught. *)
Fixpoint task_loop (w : Os.world) (is_cancelled : nat -> bool)
    (output_path : str) (i : nat) (file_data : list FileInfo)
    (fs : Os.files) (st : stats) : Os.files * outcome :=
  match file_data with
  | [] => (fs, Returned st)
  | file_info :: rest =>
      if is_cancelled i then (fs, Returned st)
      else if existsb (str_eqb "..") (split "/" (rel_path file_info))
              || INVALID_PATH_CHARS_PATTERN_search (rel_path file_info)
      then task_loop w is_cancelled output_path (S i) rest fs
             (mkStats (created st) (error st) (S (invalid_path st)))
      else
        let full_path := OsPath.join2 output_path (rel_path file_info) in
        let failed :=
          task_loop w is_cancelled output_path (S i) rest fs
            (mkStats (created st) (S (error st)) (invalid_path st)) in
        match Os.makedirs w (OsPath.dirname full_path) with
        | Some Os.OSError => failed
        | Some Os.ValueError => (fs, Raised Os.ValueError)
        | None =>
            match Os.write_file w full_path (content file_info) fs with
            | inl fs' =>
                task_loop w is_cancelled output_path (S i) rest fs'
                  (mkStats (S (created st)) (error st) (invalid_path st))
            | inr Os.OSError => failed
            | inr Os.ValueError => (fs, Raised Os.ValueError)
            end
        end
  end.

Definition _task_reconstruction (w : Os.world) (is_cancelled : nat -> bool)
    (output_path : str) (file_data : list FileInfo) (fs : Os.files)
  : Os.files * outcome :=
  task_loop w is_cancelled output_path 0 file_data fs (mkStats 0 0 0).

(** the flag of a worker that nobody cancels *)
Definition never : nat -> bool := fun _ => false.

End MainReconstruct.

(* ================================================================== *)
(** ** [file_processor.py]: [ProjectReconstructor] *)
(* ================================================================== *)

Module FileProcessor.

(** [constants.CODE_BLOCK_PATTERN.finditer], whose language tag has at
    least one character *)
Definition CODE_BLOCK_PATTERN_finditer (s : str) : list (str * str) :=
  finditer true s.

(** [constants.FIRST_LINE_PATH_COMMENT_PATTERN.match(line)]: group 1.
    The pattern is the start of the line, [\s*], a hash, [\s*] and the
    group [\S+]. *)
Definition FIRST_LINE_PATH_COMMENT_PATTERN_match (line : str) : option str :=
  match drop_while isspace line with
  | c :: r =>
      if Ascii.eqb c "#" then
        match drop_while isspace r with
        | [] => None
        | u => Some (take_while nonspace u)
        end
      else None
  | [] => None
  end.

(** The substitution of [_extract_path_from_comment], which deletes a
    leading run of stars and opening parentheses and a trailing run of
    closing parentheses and stars. *)
Definition sub_decorations (p : str) : str :=
  rstrip_by (char_in ")*") (lstrip_by (char_in "*(") p).

(** [ProjectReconstructor._extract_path_from_comment] *)
Definition _extract_path_from_comment (block_content_with_path : str)
  : option str :=
  if is_empty block_content_with_path then None
  else
    let first_line := strip (fst (split1 LF block_content_with_path)) in
    match FIRST_LINE_PATH_COMMENT_PATTERN_match first_line with
    | Some g =>
        let potential_path := strip g in
        if negb (is_empty potential_path)
           && existsb (char_in potential_path) "/\._-"
        then
          let potential_path :=
            strip_by (Ascii.eqb "`") (sub_decorations potential_path) in
          if negb (is_empty potential_path)
             && negb (startswith potential_path "#")
          then Some potential_path
          else None
        else None
    | None => None
    end.

(** the test [is_potentially_unsafe] of [_parse_content] *)
Definition is_potentially_unsafe (rel_path : str) : bool :=
  OsPath.isabs rel_path
  || (OsPath.os_name_is_nt && startswith rel_path "/")
  || existsb (str_eqb "..") (split OsPath.sep rel_path)
  || existsb (str_eqb "..") (split "/" rel_path).

(** The body of the loop of [_parse_content] for one match: the path
    and the text stored under it, when the block is kept. *)
Definition accept_block (m : str * str) : option (str * str) :=
  let block_content_with_path := strip (snd m) in
  match _extract_path_from_comment block_content_with_path with
  | Some rel_path =>
      if is_empty rel_path then None
      else if INVALID_PATH_CHARS_PATTERN_search rel_path then None
      else if is_potentially_unsafe rel_path then None
      else Some (rel_path, block_content_with_path)
  | None => None
  end.

Definition parse_step (extracted_files : Dict.dict str) (m : str * str)
  : Dict.dict str :=
  match accept_block m with
  | Some (rel_path, block) => Dict.set rel_path block extracted_files
  | None => extracted_files
  end.

(** [ProjectReconstructor._parse_content] *)
Definition _parse_content (full_content : str) : Dict.dict str :=
  fold_left parse_step (CODE_BLOCK_PATTERN_finditer full_content) [].

(** the normalisation of the line ends in [reconstruct_from_content] *)
Definition normalize_newlines (content : str) : str :=
  replace [CR] [LF] (replace [CR; LF] [LF] content).

(** the parse that [reconstruct_from_content] makes of its argument *)
Definition parse (content : str) : Dict.dict str :=
  _parse_content (normalize_newlines content).

(** what a call does: it returns [(success, created_count,
    error_count)] or it raises *)
Inductive outcome :=
| Returned (success : bool) (created_count error_count : nat)
| Raised (e : Os.exn).

(** One iteration of the loop of [reconstruct_from_content] over the
    items of the dictionary.  Every exception is caught and counted. *)
Definition write_one (w : Os.world) (abs_output_root_dir : str)
    (cwd : str) (item : str * str) (acc : Os.files * nat * nat)
  : Os.files * nat * nat :=
  let '(fs, created_count, error_count) := acc in
  let (rel_path, code_content) := item in
  let clean_rel_path := strip_by (char_in "/\") rel_path in
  let path_parts :=
    filter (fun p => negb (is_empty p) && negb (str_eqb p "."))
           (split_by (char_in "/\") clean_rel_path) in
  if is_empty_list path_parts then (fs, created_count, S error_count)
  else
    let full_path := OsPath.join_all abs_output_root_dir path_parts in
    let abs_full_path := OsPath.abspath cwd full_path in
    if negb (startswith abs_full_path abs_output_root_dir)
    then (fs, created_count, S error_count)
    else
      let out_dir := OsPath.dirname full_path in
      match (if is_empty out_dir then None else Os.makedirs w out_dir) with
      | Some _ => (fs, created_count, S error_count)
      | None =>
          match Os.write_file w full_path code_content fs with
          | inl fs' => (fs', S created_count, error_count)
          | inr _ => (fs, created_count, S error_count)
          end
      end.

(** [ProjectReconstructor(output_root_dir).reconstruct_from_content(content)]
    run in the working directory [cwd]. *)
Definition reconstruct_from_content (w : Os.world) (cwd : str)
    (output_root_dir : str) (content : str) (fs : Os.files)
  : Os.files * outcome :=
  match Os.makedirs w output_root_dir with
  | Some Os.OSError => (fs, Returned false 0 0)
  | Some Os.ValueError => (fs, Raised Os.ValueError)
  | None =>
      let norm_content := normalize_newlines content in
      let files_dict := _parse_content norm_content in
      if is_empty_list files_dict then (fs, Returned true 0 0)
      else
        let abs_output_root_dir := OsPath.abspath cwd output_root_dir in
        let '(fs', created_count, error_count) :=
          fold_left
            (fun acc item => write_one w abs_output_root_dir cwd item acc)
            files_dict (fs, 0, 0) in
        (fs', Returned true created_count error_count)
  end.

End FileProcessor.

(* ================================================================== *)
(** ** [fnmatch]: shell patterns *)
(* ================================================================== *)

(** [fnmatch.fnmatch(name, pat)] where [os.path.normcase] changes
    nothing: the pattern is read as a sequence of tokens, and the whole
    name has to match. *)
Module Fnmatch.

(** an item of a bracket expression: the characters from [lo] to [hi] *)
Definition item := (ascii * ascii)%type.

Inductive token :=
| Star                                   (* any text *)
| AnyChar                                (* one character *)
| Class (negated : bool) (items : list item)
| Lit (c : ascii).

Definition in_item (c : ascii) (it : item) : bool :=
  (N_of_ascii (fst it) <=? N_of_ascii c)%N
  && (N_of_ascii c <=? N_of_ascii (snd it))%N.

(** The items of the text of a bracket expression, from the left: a
    character, a dash and a character make a range; a range that runs
    backwards is empty.  A dash that is first or last stands for
    itself. *)
Fixpoint items_from (skip : nat) (s : str) : list item :=
  match s with
  | [] => []
  | c :: r =>
      match skip with
      | S k => items_from k r
      | O =>
          match r with
          | d :: hi :: _ =>
              if Ascii.eqb d "-" then (c, hi) :: items_from 2 r
              else (c, c) :: items_from 0 r
          | _ => (c, c) :: items_from 0 r
          end
      end
  end.

(** The bracket expression that starts after an opening bracket: its
    token and the number of characters it takes, the closing bracket
    included; [None] when no bracket closes it.  An exclamation mark
    negates when it comes first, and a closing bracket that comes first
    (or next to the exclamation mark) stands for itself. *)
Definition bracket (r : str) : option (token * nat) :=
  let negated := startswith r "!" in
  let r1 := if negated then skipn 1 r else r in
  let lead : str := if startswith r1 "]" then "]" else [] in
  let r2 := skipn (length lead) r1 in
  let body := take_while (fun c => negb (Ascii.eqb c "]")) r2 in
  if Nat.eqb (length body) (length r2) then None
  else
    Some (Class negated (items_from 0 (lead ++ body)),
          (if negated then 1 else 0) + length lead + length body + 1).

Fixpoint tokens_from (skip : nat) (pat : str) : list token :=
  match pat with
  | [] => []
  | c :: r =>
      match skip with
      | S k => tokens_from k r
      | O =>
          if Ascii.eqb c "*" then Star :: tokens_from 0 r
          else if Ascii.eqb c "?" then AnyChar :: tokens_from 0 r
          else if Ascii.eqb c "[" then
            match bracket r with
            | Some (t, n) => t :: tokens_from n r
            | None => Lit c :: tokens_from 0 r
            end
          else Lit c :: tokens_from 0 r
      end
  end.

Definition translate (pat : str) : list token := tokens_from 0 pat.

Definition token_accepts (t : token) (c : ascii) : bool :=
  match t with
  | Star => true
  | AnyChar => true
  | Class negated items => xorb negated (existsb (in_item c) items)
  | Lit x => Ascii.eqb x c
  end.

Fixpoint matches (ts : list token) (s : str) {struct ts} : bool :=
  match ts with
  | [] => is_empty s
  | Star :: ts' =>
      (fix star (s : str) : bool :=
         matches ts' s ||
         match s with
         | [] => false
         | _ :: r => star r
         end) s
  | t :: ts' =>
      match s with
      | c :: r => token_accepts t c && matches ts' r
      | [] => false
      end
  end.

Definition fnmatch (name pat : str) : bool := matches (translate pat) name.

End Fnmatch.

(* ================================================================== *)
(** ** Source trees *)
(* ================================================================== *)

(** What [os.walk] finds below the source directory: files and
    directories by name, in the order in which a directory lists them.
    A file carries what reading it gives: its text, or [None] when
    opening or reading it fails. *)
Module Tree.

#[warnings="-register-all"]
Inductive node :=
| File (name : str) (text : option str)
| Dir (name : str) (children : list node).

(** the path of an entry relative to the source directory, with
    slashes: [os.path.relpath(os.path.join(root, name), source)] where
    [prefix] is the relative path of [root], empty for the source
    directory itself *)
Definition rel_join (prefix name : str) : str :=
  if is_empty prefix then name else prefix ++ "/" ++ name.

(** the names listed in [files] and in [dirs] for a directory *)
Definition file_names (children : list node) : list str :=
  flat_map (fun n => match n with File name _ => [name] | Dir _ _ => [] end)
           children.
Definition dir_names (children : list node) : list str :=
  flat_map (fun n => match n with Dir name _ => [name] | File _ _ => [] end)
           children.

End Tree.

(* ================================================================== *)
(** ** [main.py]: exclusion rules and packing *)
(* ================================================================== *)

Module MainPack.
Import Main Tree.

(** [_parse_exclusions] *)
Definition _parse_exclusions (exclude_str : str) : list str :=
  filter (fun line => negb (is_empty line) && negb (startswith line "#"))
         (map strip (split_by (char_in ("," ++ nl)) exclude_str)).

(** The body of the loop of [_is_excluded] for one pattern, on the
    running value [excluded]. *)
Definition rule_step (rel_path : str) (is_dir : bool) (excluded : bool)
    (pattern : str) : bool :=
  let negate := startswith pattern "!" in
  let pattern := if negate then skipn 1 pattern else pattern in
  let is_dir_pattern := endswith pattern "/" in
  let pattern :=
    if is_dir_pattern then rstrip_by (Ascii.eqb "/") pattern else pattern in
  if is_dir_pattern && negb is_dir then excluded
  else
    let matched :=
      if negb (char_in pattern "/")
      then Fnmatch.fnmatch (OsPath.basename rel_path) pattern
      else Fnmatch.fnmatch rel_path pattern in
    if matched then negb negate else excluded.

(** [_is_excluded(path, root, patterns)], given what the method reads
    from the file system: [rel_path], the path relative to [root] with
    slashes, and [is_dir], whether the path is a directory. *)
Definition _is_excluded (rel_path : str) (is_dir : bool)
    (patterns : list str) : bool :=
  fold_left (rule_step rel_path is_dir) patterns false.

(** [_gather_source_files]: the walk of one directory [n] whose
    relative path is [here] (empty for the source directory).  The files of
    the directory come first, then the directories kept in [dirs], each
    walked in turn.  A path is given with what reading the file at that
    path yields. *)
Fixpoint walk_node (patterns : list str) (here : str) (n : node)
  : list (str * option str) :=
  match n with
  | File _ _ => []
  | Dir _ children =>
      flat_map
        (fun c =>
           match c with
           | File f text =>
               if _is_excluded (rel_join here f) false patterns then []
               else [(rel_join here f, text)]
           | Dir _ _ => []
           end) children
      ++ flat_map
           (fun c =>
              match c with
              | Dir d _ =>
                  if _is_excluded (rel_join here d) true patterns then []
                  else walk_node patterns (rel_join here d) c
              | File _ _ => []
              end) children
  end.

(** [_gather_source_files(root_dir, exclude_patterns)] where [tree]
    lists the entries of [root_dir] *)
Definition _gather_source_files (tree : list node) (exclude_patterns : list str)
  : list (str * option str) :=
  walk_node exclude_patterns [] (Dir "." tree).

(** an entry of [config['suffix_map']]: a dictionary that may hold a
    language and a comment symbol *)
Record map_entry := mkEntry {
  entry_language : option str;
  entry_comment : option str
}.

Definition entry_nonempty (e : map_entry) : bool :=
  match entry_language e, entry_comment e with
  | None, None => false
  | _, _ => true
  end.

Definition or_default (o : option str) (d : str) : str :=
  match o with Some v => v | None => d end.

Record stats := mkStats {
  extracted : nat;
  skipped_type : nat;
  error : nat
}.

(** the state of the loop of [_task_extraction]: the records, the
    statistics and the files opened so far *)
Record pack_state := mkPack {
  new_file_data : list FileInfo;
  pack_stats : stats;
  opened : list str
}.

(** The loop of [_task_extraction] from index [i] on. *)
Fixpoint extract_loop (suffix_map : Dict.dict map_entry)
    (selected_suffixes : list str) (is_cancelled : nat -> bool) (i : nat)
    (all_filepaths : list (str * option str)) (st : pack_state)
  : pack_state :=
  match all_filepaths with
  | [] => st
  | (fpath, text) :: rest =>
      if is_cancelled i then st
      else
        let next := extract_loop suffix_map selected_suffixes is_cancelled
                      (S i) rest in
        let stt := pack_stats st in
        let suffix := lower (snd (OsPath.splitext fpath)) in
        if negb (existsb (str_eqb suffix) selected_suffixes) then
          next (mkPack (new_file_data st)
                  (mkStats (extracted stt) (S (skipped_type stt)) (error stt))
                  (opened st))
        else
          match Dict.get suffix suffix_map with
          | Some map_entry =>
              if entry_nonempty map_entry then
                match text with
                | Some content =>
                    next (mkPack
                      (new_file_data st ++
                         [mkFileInfo fpath content
                            (or_default (entry_language map_entry) "text")
                            (or_default (entry_comment map_entry) "#")])
                      (mkStats (S (extracted stt)) (skipped_type stt)
                               (error stt))
                      (opened st ++ [fpath]))
                | None =>
                    next (mkPack (new_file_data st)
                      (mkStats (extracted stt) (skipped_type stt)
                               (S (error stt)))
                      (opened st ++ [fpath]))
                end
              else next st
          | None => next st
          end
  end.

Definition _task_extraction (suffix_map : Dict.dict map_entry)
    (selected_suffixes : list str) (is_cancelled : nat -> bool)
    (all_filepaths : list (str * option str)) : pack_state :=
  extract_loop suffix_map selected_suffixes is_cancelled 0 all_filepaths
    (mkPack [] (mkStats 0 0 0) []).

(** [_run_extraction] up to the result of the worker: the rules are
    parsed, the files gathered, and the task run on them. *)
Definition pack (suffix_map : Dict.dict map_entry)
    (selected_suffixes : list str) (exclude_text : str)
    (is_cancelled : nat -> bool) (tree : list node) : pack_state :=
  _task_extraction suffix_map selected_suffixes is_cancelled
    (_gather_source_files tree (_parse_exclusions exclude_text)).

End MainPack.

(* ================================================================== *)
(** ** [file_processor.py]: exclusion rules and [combine_files] *)
(* ================================================================== *)

Module FileProcessorPack.
Import Tree.

(** The classification of one item in [parse_exclusions]: a suffix to
    exclude (without its dot) or a pattern. *)
Definition classify (item : str) : (list str * list str) :=
  if startswith item "*." then
    let suffix := lower (skipn 2 item) in
    if is_empty suffix then ([], []) else ([], [suffix])
  else if startswith item "." && Nat.ltb 1 (length item)
          && negb (char_in (skipn 1 item) ".") then
    let suffix := lower (skipn 1 item) in
    if is_empty suffix then ([], []) else ([], [suffix])
  else ([item], []).

(** [parse_exclusions]: the patterns and the suffixes.  The two sets of
    the source are given as lists, in the order of the items. *)
Definition parse_exclusions (exclude_str : str) : list str * list str :=
  let items :=
    filter (fun item => negb (is_empty item))
           (map strip (split "," exclude_str)) in
  fold_left
    (fun acc item =>
       let (ps, ss) := classify item in (fst acc ++ ps, snd acc ++ ss))
    items ([], []).

(** The test that [is_excluded] makes of one pattern. *)
Definition pattern_hits (rel_path basename pattern : str) : bool :=
  if endswith pattern "/" then
    let pattern_normalized := replace [OsPath.sep] "/" pattern in
    str_eqb rel_path (strip_by (Ascii.eqb "/") pattern_normalized)
    || startswith rel_path pattern_normalized
    || (str_eqb pattern ".git/" && str_eqb basename ".git")
  else str_eqb pattern basename || str_eqb pattern rel_path.

(** [is_excluded], given [rel_path], the path relative to the source
    directory with slashes, and [basename], the last component of the
    path.  The result tells whether a reason is returned. *)
Definition is_excluded (rel_path basename : str)
    (excluded_patterns excluded_suffixes_no_dot : list str) : bool :=
  let suffix := snd (OsPath.splitext basename) in
  let suffix_no_dot := lstrip_by (Ascii.eqb ".") (lower suffix) in
  existsb (pattern_hits rel_path basename) excluded_patterns
  || existsb (str_eqb suffix_no_dot) excluded_suffixes_no_dot.

(** the results of [combine_files] kept by the model, and the files
    opened *)
Record result := mkResult {
  combined : list str;
  file_count : nat;
  skipped_count : nat;
  error_count : nat;
  merged_files_log : list str;
  skipped_files_log : list str;
  opened : list str
}.

(** The block built for a file that was read. *)
Definition build_block (lang rel_path content : str) : str :=
  let first_line : str :=
    if is_empty content then [] else strip (fst (split1 LF content)) in
  let add_path_comment :=
    match FileProcessor.FIRST_LINE_PATH_COMMENT_PATTERN_match first_line with
    | Some g =>
        let existing_path_in_comment := strip g in
        negb (str_eqb (replace "\" "/" existing_path_in_comment) rel_path)
    | None => true
    end in
  fence ++ lang ++ nl
    ++ (if add_path_comment then "# " ++ rel_path ++ nl else [])
    ++ content
    ++ (if endswith content nl then [] else nl)
    ++ fence ++ nl ++ nl.

Section Walk.
Variable suffix_map : Dict.dict str.
Variable selected_suffixes : list str.
Variables excluded_patterns excluded_suffixes_no_dot : list str.

Definition excl (rel_path basename : str) : bool :=
  is_excluded rel_path basename excluded_patterns excluded_suffixes_no_dot.

(** The loop over [files] for one file of the directory [here]. *)
Definition do_file (here : str) (filename : str) (text : option str)
    (r : result) : result :=
  let rel_path := rel_join here filename in
  let suffix_lower := lower (snd (OsPath.splitext filename)) in
  let skip :=
    excl rel_path filename
    || match Dict.get suffix_lower suffix_map with
       | None => true
       | Some _ => negb (existsb (str_eqb suffix_lower) selected_suffixes)
       end in
  if skip then
    mkResult (combined r) (file_count r) (S (skipped_count r))
      (error_count r) (merged_files_log r)
      (skipped_files_log r ++ [rel_path]) (opened r)
  else
    let lang :=
      match Dict.get suffix_lower suffix_map with
      | Some l => l
      | None => "text"
      end in
    match text with
    | Some content =>
        mkResult (combined r ++ [build_block lang rel_path content])
          (S (file_count r)) (skipped_count r) (error_count r)
          (merged_files_log r ++ [rel_path]) (skipped_files_log r)
          (opened r ++ [rel_path])
    | None =>
        mkResult (combined r) (file_count r) (S (skipped_count r))
          (S (error_count r)) (merged_files_log r)
          (skipped_files_log r ++ [rel_path]) (opened r ++ [rel_path])
    end.

(** The second walk of [combine_files], run without progress
    callback: one directory [n], whose relative path is [here] (empty
    for the source directory, for which [os.path.relpath] gives a
    dot) and whose last component is its name. *)
Fixpoint walk_node (here : str) (n : node) (r : result) : result :=
  match n with
  | File _ _ => r
  | Dir name children =>
      let here_rel : str := if is_empty here then "." else here in
      if excl here_rel name then
        mkResult (combined r) (file_count r)
          (skipped_count r + (1 + length (dir_names children)
                              + length (file_names children)))
          (error_count r) (merged_files_log r)
          (skipped_files_log r ++ [here_rel]) (opened r)
      else
        let r1 :=
          fold_left
            (fun r c =>
               match c with
               | Dir d _ =>
                   if excl (rel_join here d) d then
                     mkResult (combined r) (file_count r)
                       (S (skipped_count r)) (error_count r)
                       (merged_files_log r)
                       (skipped_files_log r ++ [rel_join here d])
                       (opened r)
                   else r
               | File _ _ => r
               end) children r in
        let r2 :=
          fold_left
            (fun r c =>
               match c with
               | File f text => do_file here f text r
               | Dir _ _ => r
               end) children r1 in
        fold_left
          (fun r c =>
             match c with
             | Dir d _ =>
                 if excl (rel_join here d) d then r
                 else walk_node (rel_join here d) c r
             | File _ _ => r
             end) children r2
  end.
End Walk.

(** [combine_files(source_path, suffix_map, selected_suffixes,
    exclude_str)]: [source_name] is the last component of [source_path]
    and [tree] lists the entries of that directory. *)
Definition combine_files (source_name : str) (tree : list node)
    (suffix_map : Dict.dict str) (selected_suffixes : list str)
    (exclude_str : str) : result :=
  let (excluded_patterns, excluded_suffixes_no_dot) :=
    parse_exclusions exclude_str in
  walk_node suffix_map selected_suffixes excluded_patterns
    excluded_suffixes_no_dot [] (Dir source_name tree)
    (mkResult [] 0 0 0 [] [] []).

(** the value of ['combined_text'] *)
Definition combined_text (r : result) : str := concat (combined r).

End FileProcessorPack.

(* ================================================================== *)
(** ** The vocabulary of the properties *)
(* ================================================================== *)

Module Vocabulary.

(** *** Exclusion rules: the two readings that [rule_step] makes of a
    rule *)

Definition rule_negate (pattern : str) : bool := startswith pattern "!".

Definition rule_matches (rel_path : str) (is_dir : bool) (pattern : str)
  : bool :=
  let body := if rule_negate pattern then skipn 1 pattern else pattern in
  let is_dir_pattern := endswith body "/" in
  let glob :=
    if is_dir_pattern then rstrip_by (Ascii.eqb "/") body else body in
  if is_dir_pattern && negb is_dir then false
  else if negb (char_in glob "/")
       then Fnmatch.fnmatch (OsPath.basename rel_path) glob
       else Fnmatch.fnmatch rel_path glob.

(** *** Line ends *)

(** a document whose lines end in a newline, written with the line ends
    of another convention *)
Definition with_crlf (doc : str) : str := replace nl [CR; LF] doc.
Definition with_cr (doc : str) : str := replace nl [CR] doc.

(** *** Blocks and records in the order of the text *)

(** the assignments [d[k] = v] made in turn, from the dictionary [d] *)
Definition assign_all {V : Type} (kvs : list (str * V)) (d : Dict.dict V)
  : Dict.dict V :=
  fold_left (fun d kv => Dict.set (fst kv) (snd kv) d) kvs d.

Definition has_key {V : Type} (k : str) (d : Dict.dict V) : bool :=
  existsb (str_eqb k) (Dict.keys d).

(** the distinct texts of a list, each at the place where it first
    occurs *)
Fixpoint first_occurrences (ks : list str) : list str :=
  match ks with
  | [] => []
  | k :: r => k :: filter (fun x => negb (str_eqb x k)) (first_occurrences r)
  end.

(** the value given last to the key [k] *)
Definition last_value {V : Type} (k : str) (kvs : list (str * V))
  : option V :=
  option_map snd (find (fun kv => str_eqb (fst kv) k) (rev kvs)).

(** the records of the blocks of a text whose first line is a path
    comment, block after block ([main.py]) *)
Definition records_in_order (text : str) : list Main.FileInfo :=
  flat_map (fun m => match Main.parse_block m with
                     | Some fi => [fi]
                     | None => []
                     end)
           (Main.CODE_BLOCK_PATTERN_finditer text).

(** a record under its key *)
Definition keyed (fi : Main.FileInfo) : str * Main.FileInfo :=
  (Main.rel_path fi, fi).

(** the last of the records [recs] whose path is [p] *)
Definition last_with (p : str) (recs : list Main.FileInfo)
  : option Main.FileInfo :=
  find (fun fi => str_eqb (Main.rel_path fi) p) (rev recs).

(** the blocks of a text that [_parse_content] keeps, each with its
    path, block after block ([file_processor.py]) *)
Definition blocks_in_order (text : str) : list (str * str) :=
  flat_map (fun m => match FileProcessor.accept_block m with
                     | Some kv => [kv]
                     | None => []
                     end)
           (FileProcessor.CODE_BLOCK_PATTERN_finditer text).

(** a document with two blocks for the path [a/b.py] *)
Definition two_blocks_document : str :=
  unlines ["```python"; "# a/b.py"; "first = 1"; "```"; "";
           "```python"; "# c.py"; "other = 0"; "```"; "";
           "```python"; "# a/b.py"; "second = 2"; "```"].

(** the document of the end-to-end example *)
Definition example_document : str :=
  unlines ["```python"; "# src/main.py"; "print(1)"; "```"].

(** the record of the end-to-end example, as packing yields it *)
Definition example_record : Main.FileInfo :=
  Main.mkFileInfo "src/main.py" ("print(1)" ++ nl) "python" "#".

(** the source tree of the end-to-end example *)
Definition example_tree : list Tree.node :=
  [Tree.Dir "src" [Tree.File "main.py" (Some ("print(1)" ++ nl))]].

Definition example_suffix_map : Dict.dict MainPack.map_entry :=
  [(of_string ".py",
    MainPack.mkEntry (Some (of_string "python")) (Some (of_string "#")))].

(** *** Path comments when packing *)

(** a line of a text *)
Definition is_line_of (line text : str) : Prop := In line (split LF text).

(** the path that the first line of a file names in a comment, as
    [combine_files] reads it *)
Definition existing_path_in_comment (content : str) : option str :=
  option_map strip
    (FileProcessor.FIRST_LINE_PATH_COMMENT_PATTERN_match
       (if is_empty content then [] else strip (fst (split1 LF content)))).

(** a file whose first line names another path than its own *)
Definition misnamed_file : str :=
  unlines ["# old/path.py"; "x = 1"; ""].

Definition misnamed_tree : list Tree.node :=
  [Tree.Dir "src" [Tree.File "a.py" (Some misnamed_file)]].

(** *** Unsafe paths *)

(** a document whose block names an absolute path *)
Definition absolute_path_document : str :=
  unlines ["```python"; "# /abs/path.py"; "print(1)"; "```"].

(** a document with the three blocks of the path-safety test *)
Definition unsafe_paths_document : str :=
  unlines ["```python"; "# ../escape.py"; "print(1)"; "```"; "";
           "```python"; "# /abs/path.py"; "print(2)"; "```"; "";
           "```python"; "# C:/abs/path.py"; "print(3)"; "```"].

(** *** Trees that differ below an excluded directory *)

(** [same_but_excluded excluded here t t']: the lists of entries [t]
    and [t'] of the directory [here] are the same but for the entries
    of one directory, at any depth, that [excluded] excludes;
    [excluded] is given the relative path and the name of a
    directory. *)
Inductive same_but_excluded (excluded : str -> str -> bool)
  : str -> list Tree.node -> list Tree.node -> Prop :=
| differ_here here pre name cs cs' post :
    excluded (Tree.rel_join here name) name = true ->
    same_but_excluded excluded here
      (pre ++ Tree.Dir name cs :: post) (pre ++ Tree.Dir name cs' :: post)
| differ_below here pre name cs cs' post :
    same_but_excluded excluded (Tree.rel_join here name) cs cs' ->
    same_but_excluded excluded here
      (pre ++ Tree.Dir name cs :: post) (pre ++ Tree.Dir name cs' :: post).

(** the source tree [root/build/x.py] of the pruning test, next to a
    file that is packed *)
Definition pruning_tree : list Tree.node :=
  [Tree.Dir "build" [Tree.File "x.py" (Some ("print(0)" ++ nl))];
   Tree.File "main.py" (Some ("print(1)" ++ nl))].

Definition pruned_tree : list Tree.node :=
  [Tree.Dir "build" [];
   Tree.File "main.py" (Some ("print(1)" ++ nl))].

(** *** Records that the codec carries through *)

(** no newline of the text is followed, after optional white space, by
    a triple backquote: the closing fence of [CODE_BLOCK_PATTERN]
    matches nowhere in the text *)
Fixpoint no_closing (s : str) : bool :=
  match closing_fence s with
  | Some _ => false
  | None =>
      match s with
      | [] => true
      | _ :: r => no_closing r
      end
  end.

(** a comment symbol written before the path: a non-empty run of the
    marker characters of [PATH_COMMENT_PATTERN] *)
Definition line_symbol (sym : str) : bool :=
  negb (is_empty sym) && forallb Main.marker_char sym.

(** a comment symbol for which the path is written between the marks
    of a markup comment; the path read back is the path written when it
    does not start with a marker character *)
Definition markup_symbol (sym path : str) : bool :=
  contains sym "<!--"
  && match path with
     | c :: _ => negb (Main.marker_char c)
     | [] => false
     end.

(** The records whose block is read back: the language is made of word
    characters; the comment symbol is a line symbol or a markup symbol;
    the path is not empty and holds no white space; and in the content,
    once stripped, no line starts (after optional white space) with a
    triple backquote. *)
Definition readable (fi : Main.FileInfo) : bool :=
  forallb isword (Main.language fi)
  && (line_symbol (Main.comment_symbol fi)
      || markup_symbol (Main.comment_symbol fi) (Main.rel_path fi))
  && negb (is_empty (Main.rel_path fi))
  && forallb nonspace (Main.rel_path fi)
  && no_closing (LF :: strip (Main.content fi)).

(** The records whose block is read back with its comment symbol: the
    readable records with a line symbol. *)
Definition codec_safe (fi : Main.FileInfo) : bool :=
  forallb isword (Main.language fi)
  && line_symbol (Main.comment_symbol fi)
  && negb (is_empty (Main.rel_path fi))
  && forallb nonspace (Main.rel_path fi)
  && no_closing (LF :: strip (Main.content fi)).

(** the first line of the block of a record: the comment of its path *)
Definition header (fi : Main.FileInfo) : str :=
  if contains (Main.comment_symbol fi) "<!--"
  then "<!-- " ++ Main.rel_path fi ++ " -->"
  else Main.comment_symbol fi ++ " " ++ Main.rel_path fi.

(** the record as the parse reads it back from its block: the content
    is stripped of the white space around it, and a markup symbol is
    read back as no symbol *)
Definition read_back (fi : Main.FileInfo) : Main.FileInfo :=
  Main.mkFileInfo (Main.rel_path fi) (strip (Main.content fi))
    (Main.language fi)
    (if contains (Main.comment_symbol fi) "<!--" then []
     else Main.comment_symbol fi).

(** the text between the fences of the block of a record, as
    [CODE_BLOCK_PATTERN] finds it *)
Definition payload (fi : Main.FileInfo) : str :=
  header fi
    ++ (if is_empty (strip (Main.content fi)) then []
        else LF :: strip (Main.content fi)).

(** a record with its content stripped of the white space around it *)
Definition stripped (fi : Main.FileInfo) : Main.FileInfo :=
  Main.mkFileInfo (Main.rel_path fi) (strip (Main.content fi))
    (Main.language fi) (Main.comment_symbol fi).

(** the path, the content and the language of a record *)
Definition triple (fi : Main.FileInfo) : str * str * str :=
  (Main.rel_path fi, Main.content fi, Main.language fi).

(** two collections are equivalent: the same paths, contents and
    languages, whatever the order *)
Definition equivalent (a b : list Main.FileInfo) : Prop :=
  Permutation (map triple a) (map triple b).

(** a record of a file without comment syntax, as the default suffix
    map gives for [.json] *)
Definition json_record : Main.FileInfo :=
  Main.mkFileInfo "data.json" "{}" "json" "".

(** a record of a markup file, as the default suffix map gives for
    [.html] *)
Definition html_record : Main.FileInfo :=
  Main.mkFileInfo "web/index.html" ("<p>hello</p>" ++ nl) "html" "<!--".

(** two records that the codec carries through *)
Definition two_records : list Main.FileInfo :=
  [Main.mkFileInfo "src/main.py" ("print(1)" ++ nl) "python" "#";
   Main.mkFileInfo "web/app.js" (nl ++ "let x = 1;" ++ nl ++ nl) "javascript"
     "//"].

(** the same with a record of a markup file *)
Definition three_records : list Main.FileInfo :=
  two_records ++ [html_record].

End Vocabulary.

(* ================================================================== *)
(** ** The vocabulary of the further properties *)
(* ================================================================== *)

Module Further.
Import Vocabulary.

(** a text made of white space only *)
Definition blank (s : str) : bool := forallb isspace s.

(** a rule of [_is_excluded] that is written for directories only: it
    ends with a slash, once its negation mark is taken off *)
Definition dir_only_rule (pattern : str) : bool :=
  endswith (if rule_negate pattern then skipn 1 pattern else pattern) "/".

(** the number of files of a tree, at any depth *)
Fixpoint count_files_node (n : Tree.node) : nat :=
  match n with
  | Tree.File _ _ => 1
  | Tree.Dir _ children =>
      fold_right (fun c acc => count_files_node c + acc) 0 children
  end.

Definition count_files (tree : list Tree.node) : nat :=
  fold_right (fun c acc => count_files_node c + acc) 0 tree.

(** the number of leading slashes that [os.path.normpath] keeps *)
Definition initial_slashes (path : str) : nat :=
  if startswith path "/" then
    if startswith path "//" && negb (startswith path "///") then 2
    else 1
  else 0.

(** the components that the loop of [os.path.normpath] is left with *)
Definition norm_comps (path : str) : list str :=
  fold_left (OsPath.norm_step (initial_slashes path))
            (split OsPath.sep path) [].

(** the records that [_task_reconstruction] has dealt with *)
Definition handled (st : MainReconstruct.stats) : nat :=
  MainReconstruct.created st + MainReconstruct.error st
  + MainReconstruct.invalid_path st.

(** the glob of a rule of [_is_excluded]: the rule without its
    negation mark and without the slashes that end it *)
Definition rule_glob (pattern : str) : str :=
  let body := if rule_negate pattern then skipn 1 pattern else pattern in
  if endswith body "/" then rstrip_by (Ascii.eqb "/") body else body.

(** the suffix that [_task_extraction] reads from a path *)
Definition suffix_of (fpath : str) : str :=
  lower (snd (OsPath.splitext fpath)).

(** a suffix for which [suffix_map] has an entry that is not empty *)
Definition mapped (suffix_map : Dict.dict MainPack.map_entry)
    (suffix : str) : bool :=
  match Dict.get suffix suffix_map with
  | Some e => MainPack.entry_nonempty e
  | None => false
  end.

(** a path whose suffix is selected although the map has no entry to
    use for it *)
Definition unmapped (suffix_map : Dict.dict MainPack.map_entry)
    (selected_suffixes : list str) (fpath : str) : bool :=
  existsb (str_eqb (suffix_of fpath)) selected_suffixes
  && negb (mapped suffix_map (suffix_of fpath)).

(** the files that [_task_extraction] has counted *)
Definition counted (st : MainPack.stats) : nat :=
  MainPack.extracted st + MainPack.skipped_type st + MainPack.error st.

(** a text that has no slash at either end *)
Definition no_end_slash (d : str) : bool :=
  str_eqb (strip_by (Ascii.eqb "/") d) d.

(** the items of the text given to [parse_exclusions] *)
Definition exclusion_items (exclude_str : str) : list str :=
  filter (fun item => negb (is_empty item))
         (map strip (split "," exclude_str)).

(** the components that [reconstruct_from_content] joins to the output
    directory for a path of the dictionary *)
Definition path_parts (rel_path : str) : list str :=
  filter (fun p => negb (is_empty p) && negb (str_eqb p "."))
         (split_by (char_in "/\") (strip_by (char_in "/\") rel_path)).

(** a document whose block names a path that climbs with backslashes *)
Definition backslash_document : str :=
  unlines ["```python"; "# a\..\..\outside\f.py"; "print(1)"; "```"].

(** a text of plain characters for a shell pattern: no star, no
    question mark, no bracket, and no slash *)
Definition plain (lit : str) : bool :=
  forallb (fun c => negb (char_in "*?[/" c)) lit.

(** what [combine_files] keeps in step: the blocks, the two counts of
    files and the two logs *)
Definition in_step (r : FileProcessorPack.result) : Prop :=
  FileProcessorPack.file_count r = length (FileProcessorPack.combined r)
  /\ FileProcessorPack.file_count r
     = length (FileProcessorPack.merged_files_log r)
  /\ length (FileProcessorPack.opened r)
     = FileProcessorPack.file_count r + FileProcessorPack.error_count r
  /\ FileProcessorPack.error_count r <= FileProcessorPack.skipped_count r
  /\ length (FileProcessorPack.skipped_files_log r)
     <= FileProcessorPack.skipped_count r.

(** a file that [combine_files] may read: it is not excluded, and its
    suffix in lower case is mapped and selected *)
Definition eligible (suffix_map : Dict.dict str)
    (selected_suffixes excluded_patterns excluded_suffixes_no_dot : list str)
    (rel_path filename : str) : bool :=
  negb (FileProcessorPack.is_excluded rel_path filename excluded_patterns
          excluded_suffixes_no_dot)
  && match Dict.get (suffix_of filename) suffix_map with
     | Some _ => true
     | None => false
     end
  && existsb (str_eqb (suffix_of filename)) selected_suffixes.

(** the text that [build_block] puts between the two fence lines *)
Definition block_payload (rel_path content : str) (commented : bool) : str :=
  (if commented then "# " ++ rel_path ++ nl else [])
  ++ content ++ (if endswith content nl then [] else nl).

(** the files opened so far are eligible, and hold the files merged *)
Definition reads_eligible (suffix_map : Dict.dict str)
    (selected ps ss : list str) (r : FileProcessorPack.result) : Prop :=
  (forall p, In p (FileProcessorPack.merged_files_log r) ->
             In p (FileProcessorPack.opened r))
  /\ (forall p, In p (FileProcessorPack.opened r) ->
        exists here filename,
          p = Tree.rel_join here filename
          /\ eligible suffix_map selected ps ss p filename = true).

(** whether [build_block] adds the comment of the path *)
Definition commented (rel_path content : str) : bool :=
  match existing_path_in_comment content with
  | Some existing => negb (str_eqb (replace "\" "/" existing) rel_path)
  | None => true
  end.

(** the text between the fence lines of the block of a file *)
Definition payload_of (rel_path content : str) : str :=
  block_payload rel_path content (commented rel_path content).

(** a path that [_extract_path_from_comment] and [_parse_content]
    accept as it is written *)
Definition clean_path (e : str) : bool :=
  existsb (char_in e) "/\._-"
  && str_eqb (strip_by (Ascii.eqb "`") (FileProcessor.sub_decorations e)) e
  && negb (is_empty e)
  && negb (startswith e "#")
  && negb (INVALID_PATH_CHARS_PATTERN_search e)
  && negb (FileProcessor.is_potentially_unsafe e).

(** a file, given by its language, its path and its text, whose block
    can be read back: the language is a word, the text between the
    fences holds no triple backquote, and the path named on its first
    line is clean *)
Definition packable (f : str * str * str) : bool :=
  let '(lang, rel_path, content) := f in
  negb (is_empty lang) && forallb isword lang
  && negb (contains (payload_of rel_path content) fence)
  && match existing_path_in_comment (payload_of rel_path content) with
     | Some e => clean_path e
     | None => false
     end.

(** the block of a file, and the entry that [_parse_content] is to
    read from it *)
Definition block_for (f : str * str * str) : str :=
  let '(lang, rel_path, content) := f in
  FileProcessorPack.build_block lang rel_path content.

Definition entry_for (f : str * str * str) : str * str :=
  let '(lang, rel_path, content) := f in
  (match existing_path_in_comment (payload_of rel_path content) with
   | Some e => e
   | None => []
   end,
   strip (payload_of rel_path content)).

(** the files below a directory [n] whose relative path is [here],
    each with what reading it gives *)
Fixpoint node_files (here : str) (n : Tree.node) : list (str * option str) :=
  match n with
  | Tree.File _ _ => []
  | Tree.Dir _ children =>
      flat_map
        (fun c =>
           match c with
           | Tree.File f text => [(Tree.rel_join here f, text)]
           | Tree.Dir d _ => node_files (Tree.rel_join here d) c
           end) children
  end.

(** the files of a source tree *)
Definition tree_files (tree : list Tree.node) : list (str * option str) :=
  node_files [] (Tree.Dir "." tree).

(** the blocks of [combine_files] are the blocks of the files [l], in
    the order of the log of merged files; each file is a file of [all]
    with its text, under the language that the suffix map gives for its
    suffix *)
Definition blocks_of_files (suffix_map : Dict.dict str)
    (all : list (str * option str)) (r : FileProcessorPack.result)
    (l : list (str * str * str)) : Prop :=
  FileProcessorPack.combined r = map block_for l
  /\ FileProcessorPack.merged_files_log r = map (fun f => snd (fst f)) l
  /\ forall lang rel_path content,
       In (lang, rel_path, content) l ->
       In (rel_path, Some content) all
       /\ exists here filename,
            rel_path = Tree.rel_join here filename
            /\ Dict.get (suffix_of filename) suffix_map = Some lang.

End Further.

(* ================================================================== *)
(** * Properties *)
(* ================================================================== *)

Import Vocabulary.

Unset Implicit Arguments.

(** ** Exclusion precedence *)

Section ExclusionPrecedence.
Import MainPack.

Lemma rule_step_spec rel_path is_dir excluded pattern :
  rule_step rel_path is_dir excluded pattern =
  if rule_matches rel_path is_dir pattern
  then negb (rule_negate pattern) else excluded.
Proof.
  unfold rule_step, rule_matches, rule_negate. cbv zeta.
  match goal with
  | |- (if ?b then excluded else _) = _ => destruct b
  end; reflexivity.
Qed.

Lemma is_excluded_snoc rel_path is_dir rules rule :
  _is_excluded rel_path is_dir (rules ++ [rule]) =
  if rule_matches rel_path is_dir rule
  then negb (rule_negate rule)
  else _is_excluded rel_path is_dir rules.
Proof.
  unfold _is_excluded. rewrite fold_left_app. cbn [fold_left].
  apply rule_step_spec.
Qed.

Lemma is_excluded_last_match rel_path is_dir rules :
  _is_excluded rel_path is_dir rules =
  match find (rule_matches rel_path is_dir) (rev rules) with
  | Some rule => negb (rule_negate rule)
  | None => false
  end.
Proof.
  induction rules as [| rule rules IH] using rev_ind.
  - reflexivity.
  - rewrite is_excluded_snoc, rev_app_distr. cbn [rev app find].
    destruct (rule_matches rel_path is_dir rule); [reflexivity | exact IH].
Qed.
End ExclusionPrecedence.

(** C6.  Under the glob and negation strategy, with the rules [*.log]
    and [!important.log] in that order (as [_parse_exclusions] reads
    them from the text of the user), [important.log] is not excluded
    and [other.log] is.  In general every rule that matches sets the
    verdict to the opposite of its negation mark, so the verdict is that
    of the last rule that matches, and [false] when none does. *)
Theorem C6_last_matching_rule_wins :
  MainPack._parse_exclusions "*.log, !important.log"
    = strs ["*.log"; "!important.log"]
  /\ MainPack._is_excluded "important.log" false
       (strs ["*.log"; "!important.log"]) = false
  /\ MainPack._is_excluded "other.log" false
       (strs ["*.log"; "!important.log"]) = true
  /\ (forall rel_path is_dir rules rule,
        MainPack._is_excluded rel_path is_dir (rules ++ [rule]) =
        if rule_matches rel_path is_dir rule
        then negb (rule_negate rule)
        else MainPack._is_excluded rel_path is_dir rules)
  /\ (forall rel_path is_dir rules,
        MainPack._is_excluded rel_path is_dir rules =
        match find (rule_matches rel_path is_dir) (rev rules) with
        | Some rule => negb (rule_negate rule)
        | None => false
        end).
Proof.
  split; [reflexivity |].
  split; [reflexivity |].
  split; [reflexivity |].
  split.
  - apply is_excluded_snoc.
  - apply is_excluded_last_match.
Qed.

(** ** Line ends *)

Section LineEnds.
Import FileProcessor.

Lemma replace_from_one x new c r :
  replace_from [x] new 0 (c :: r) =
  if Ascii.eqb x c then new ++ replace_from [x] new 0 r
  else c :: replace_from [x] new 0 r.
Proof. cbn. rewrite andb_true_r. reflexivity. Qed.

(** replacing carriage returns leaves none *)
Lemma replace_cr_no_cr s : ~ In CR (replace [CR] [LF] s).
Proof.
  unfold replace. induction s as [| c r IH].
  - cbn. tauto.
  - rewrite replace_from_one. destruct (Ascii.eqb CR c) eqn:E.
    + intros [H | H]; [discriminate H | exact (IH H)].
    + intros [H | H]; [| exact (IH H)].
      subst c. rewrite Ascii.eqb_refl in E. discriminate.
Qed.

Lemma replace_from_two x y new c r :
  replace_from [x; y] new 0 (c :: r) =
  if Ascii.eqb x c && startswith r [y]
  then new ++ replace_from [x; y] new 1 r
  else c :: replace_from [x; y] new 0 r.
Proof. reflexivity. Qed.

Lemma replace_from_skip old new k c r :
  replace_from old new (S k) (c :: r) = replace_from old new k r.
Proof. reflexivity. Qed.

Lemma not_in_cons_cr c r :
  ~ In CR (c :: r) -> Ascii.eqb CR c = false /\ ~ In CR r.
Proof.
  intros H. split.
  - destruct (Ascii.eqb CR c) eqn:E; [| reflexivity].
    apply Ascii.eqb_eq in E. exfalso; apply H; left; auto.
  - intros K; apply H; right; exact K.
Qed.

(** a text without carriage return is left as it is *)
Lemma replace_cr_id s : ~ In CR s -> replace [CR] [LF] s = s.
Proof.
  unfold replace. induction s as [| c r IH]; intros H.
  - reflexivity.
  - apply not_in_cons_cr in H. destruct H as [Hc Hr].
    rewrite replace_from_one, Hc, (IH Hr). reflexivity.
Qed.

Lemma replace_crlf_id s : ~ In CR s -> replace [CR; LF] [LF] s = s.
Proof.
  unfold replace. induction s as [| c r IH]; intros H.
  - reflexivity.
  - apply not_in_cons_cr in H. destruct H as [Hc Hr].
    rewrite replace_from_two, Hc, (IH Hr). reflexivity.
Qed.

Lemma normalize_id s : ~ In CR s -> normalize_newlines s = s.
Proof.
  intros H. unfold normalize_newlines.
  rewrite replace_crlf_id by exact H. apply replace_cr_id, H.
Qed.

Lemma normalize_with_crlf doc :
  ~ In CR doc -> normalize_newlines (with_crlf doc) = doc.
Proof.
  intros H. unfold normalize_newlines.
  assert (E : replace [CR; LF] [LF] (with_crlf doc) = doc).
  { unfold with_crlf, replace, nl.
    induction doc as [| c r IH]; [reflexivity |].
    apply not_in_cons_cr in H. destruct H as [Hc Hr].
    rewrite replace_from_one.
    destruct (Ascii.eqb LF c) eqn:E.
    - apply Ascii.eqb_eq in E; subst c.
      change ([CR; LF] ++ ?x) with (CR :: LF :: x).
      rewrite replace_from_two, Ascii.eqb_refl.
      change (startswith (LF :: ?x) [LF]) with (Ascii.eqb LF LF && true).
      rewrite Ascii.eqb_refl. cbn [andb].
      rewrite replace_from_skip, (IH Hr). reflexivity.
    - rewrite replace_from_two, Hc, (IH Hr). reflexivity. }
  rewrite E. apply replace_cr_id, H.
Qed.

Lemma normalize_with_cr doc :
  ~ In CR doc -> normalize_newlines (with_cr doc) = doc.
Proof.
  intros H. unfold normalize_newlines.
  assert (E : replace [CR; LF] [LF] (with_cr doc) = with_cr doc
              /\ replace [CR] [LF] (with_cr doc) = doc).
  { unfold with_cr, replace, nl.
    induction doc as [| c r IH]; [split; reflexivity |].
    apply not_in_cons_cr in H. destruct H as [Hc Hr].
    destruct (IH Hr) as [IH1 IH2].
    rewrite replace_from_one.
    destruct (Ascii.eqb LF c) eqn:E.
    - apply Ascii.eqb_eq in E; subst c.
      change ([CR] ++ ?x) with (CR :: x).
      rewrite replace_from_two, replace_from_one, Ascii.eqb_refl.
      rewrite IH2. split; [| reflexivity].
      destruct (replace_from [LF] [CR] 0 r) as [| d r'] eqn:Er.
      + cbn [startswith andb]. rewrite IH1. reflexivity.
      + assert (Hd : Ascii.eqb LF d = false).
        { destruct r as [| e r'']; [discriminate Er |].
          rewrite replace_from_one in Er.
          destruct (Ascii.eqb LF e) eqn:Ee.
          - injection Er as <- _. reflexivity.
          - injection Er as <- _. exact Ee. }
        change (startswith (d :: r') [LF]) with (Ascii.eqb LF d && true).
        rewrite Hd. cbn [andb]. rewrite IH1. reflexivity.
    - rewrite replace_from_two, replace_from_one, Hc, IH1, IH2.
      split; reflexivity. }
  destruct E as [E1 E2]. rewrite E1. exact E2.
Qed.
End LineEnds.

(** [_parse_text_to_tree] of [main.py] scans the text of the text area
    as it is: it leaves the line ends to the text widget, and finds no
    block in a text with CRLF line ends *)
Example main_parse_scans_text_as_it_is :
  Main.parse example_document
    = [Main.mkFileInfo "src/main.py" "print(1)" "python" "#"]
  /\ Main.parse (with_crlf example_document) = [].
Proof. split; reflexivity. Qed.

(** C8.  The parse that [reconstruct_from_content] makes normalises the
    line ends before it scans for blocks: the text it scans never holds
    a carriage return, and a document written with CRLF line ends, or
    with lone CR line ends, is scanned as, and so parses to the same
    records as, the same document with LF line ends. *)
Theorem C8_line_ends_normalized :
  forall doc : str,
    ~ In CR doc ->
    (forall content, ~ In CR (FileProcessor.normalize_newlines content))
    /\ FileProcessor.normalize_newlines (with_crlf doc) = doc
    /\ FileProcessor.normalize_newlines (with_cr doc) = doc
    /\ FileProcessor.parse (with_crlf doc) = FileProcessor.parse doc
    /\ FileProcessor.parse (with_cr doc) = FileProcessor.parse doc.
Proof.
  intros doc H.
  split; [intros content; apply replace_cr_no_cr |].
  split; [apply normalize_with_crlf, H |].
  split; [apply normalize_with_cr, H |].
  unfold FileProcessor.parse.
  rewrite normalize_with_crlf, normalize_with_cr, normalize_id by exact H.
  split; reflexivity.
Qed.

Lemma no_cr_by_computation (s : str) :
  existsb (Ascii.eqb CR) s = false -> ~ In CR s.
Proof.
  intros E H. assert (K : existsb (Ascii.eqb CR) s = true).
  { apply existsb_exists. exists CR. split; [exact H | apply Ascii.eqb_refl]. }
  rewrite E in K. discriminate K.
Qed.

Lemma C8_line_ends_normalized_witness :
  ~ In CR example_document
  /\ FileProcessor.parse (with_crlf example_document)
     = FileProcessor.parse example_document
  /\ FileProcessor.parse (with_cr example_document)
     = FileProcessor.parse example_document.
Proof.
  assert (H : ~ In CR example_document)
    by (apply no_cr_by_computation; reflexivity).
  split; [exact H |].
  destruct (C8_line_ends_normalized example_document H) as (_ & _ & _ & A & B).
  split; [exact A | exact B].
Defined.

(** ** Dictionaries: order of the keys and last value *)

Lemma str_eqb_eq a b : str_eqb a b = true <-> a = b.
Proof.
  revert b; induction a as [| x a IH]; intros [| y b]; cbn;
    try (split; [discriminate | discriminate]); [tauto |].
  rewrite andb_true_iff, Ascii.eqb_eq, IH. split.
  - intros [-> ->]; reflexivity.
  - intros E; injection E; auto.
Qed.

Lemma str_eqb_refl a : str_eqb a a = true.
Proof. apply str_eqb_eq; reflexivity. Qed.

Lemma str_eqb_neq a b : str_eqb a b = false <-> a <> b.
Proof.
  split.
  - intros E H. apply str_eqb_eq in H. congruence.
  - intros H. destruct (str_eqb a b) eqn:E; [| reflexivity].
    apply str_eqb_eq in E. contradiction.
Qed.

Lemma str_eqb_sym a b : str_eqb a b = str_eqb b a.
Proof.
  destruct (str_eqb a b) eqn:E.
  - apply str_eqb_eq in E; subst; symmetry; apply str_eqb_refl.
  - symmetry. apply str_eqb_neq. apply str_eqb_neq in E. congruence.
Qed.

Section DictFacts.
Variable V : Type.
Implicit Types (d : Dict.dict V) (kvs : list (str * V)).

Lemma keys_set k v d :
  Dict.keys (Dict.set k v d) =
  if has_key k d then Dict.keys d else Dict.keys d ++ [k].
Proof.
  unfold has_key, Dict.keys.
  induction d as [| [k' v'] d IH]; cbn; [reflexivity |].
  rewrite (str_eqb_sym k k').
  destruct (str_eqb k' k); cbn; [reflexivity |].
  rewrite IH. destruct (existsb (str_eqb k) (map fst d)); reflexivity.
Qed.

Lemma get_set k v d k' :
  Dict.get k' (Dict.set k v d) =
  if str_eqb k k' then Some v else Dict.get k' d.
Proof.
  induction d as [| [k0 v0] d IH]; cbn.
  - destruct (str_eqb k k'); reflexivity.
  - destruct (str_eqb k0 k) eqn:E; cbn.
    + apply str_eqb_eq in E; subst k0.
      destruct (str_eqb k k'); reflexivity.
    + destruct (str_eqb k0 k') eqn:E'; [| exact IH].
      apply str_eqb_eq in E'; subst k0. rewrite str_eqb_sym, E.
      reflexivity.
Qed.

Lemma assign_all_snoc kvs kv d :
  assign_all (kvs ++ [kv]) d =
  Dict.set (fst kv) (snd kv) (assign_all kvs d).
Proof. unfold assign_all. rewrite fold_left_app. reflexivity. Qed.

Lemma get_assign_all kvs k :
  Dict.get k (assign_all kvs []) = last_value k kvs.
Proof.
  unfold last_value.
  induction kvs as [| kv kvs IH] using rev_ind; [reflexivity |].
  rewrite assign_all_snoc, get_set, rev_app_distr. cbn [rev app find].
  destruct (str_eqb (fst kv) k); [reflexivity | exact IH].
Qed.
End DictFacts.

Section FirstOccurrences.

Lemma existsb_str_in k ks : existsb (str_eqb k) ks = true <-> In k ks.
Proof.
  rewrite existsb_exists. split.
  - intros (x & Hx & E). apply str_eqb_eq in E. subst; exact Hx.
  - intros H. exists k. split; [exact H | apply str_eqb_refl].
Qed.

Lemma in_first_occurrences k ks :
  In k (first_occurrences ks) <-> In k ks.
Proof.
  induction ks as [| a ks IH]; cbn; [tauto |].
  rewrite filter_In, IH, negb_true_iff, str_eqb_neq.
  destruct (str_eqb a k) eqn:E.
  - apply str_eqb_eq in E. tauto.
  - apply str_eqb_neq in E. split; [tauto |].
    intros [H | H]; [tauto | right; split; [exact H | congruence]].
Qed.

Lemma existsb_first_occurrences k ks :
  existsb (str_eqb k) (first_occurrences ks) = existsb (str_eqb k) ks.
Proof.
  apply eq_true_iff_eq.
  rewrite !existsb_str_in. apply in_first_occurrences.
Qed.

Lemma first_occurrences_snoc ks k :
  first_occurrences (ks ++ [k]) =
  if existsb (str_eqb k) ks then first_occurrences ks
  else first_occurrences ks ++ [k].
Proof.
  induction ks as [| a ks IH]; [reflexivity |].
  cbn [app first_occurrences existsb]. rewrite IH.
  destruct (existsb (str_eqb k) ks).
  - rewrite orb_true_r. reflexivity.
  - rewrite orb_false_r, filter_app. cbn [filter].
    destruct (str_eqb k a); cbn [negb]; [rewrite app_nil_r |]; reflexivity.
Qed.

Lemma NoDup_filter (f : str -> bool) l : NoDup l -> NoDup (filter f l).
Proof.
  induction 1 as [| x l Hx _ IH]; cbn; [constructor |].
  destruct (f x); [| exact IH].
  constructor; [| exact IH]. rewrite filter_In. tauto.
Qed.

Lemma NoDup_first_occurrences ks : NoDup (first_occurrences ks).
Proof.
  induction ks as [| a ks IH]; cbn; constructor.
  - rewrite filter_In, str_eqb_refl. cbn. intros [_ H]; discriminate H.
  - apply NoDup_filter, IH.
Qed.
End FirstOccurrences.

Section DictOrder.
Variable V : Type.
Implicit Types (d : Dict.dict V) (kvs : list (str * V)).

Lemma keys_assign_all kvs :
  Dict.keys (assign_all kvs []) = first_occurrences (map fst kvs).
Proof.
  induction kvs as [| kv kvs IH] using rev_ind; [reflexivity |].
  rewrite assign_all_snoc, keys_set, map_app. cbn [map].
  rewrite first_occurrences_snoc. unfold has_key.
  rewrite IH, existsb_first_occurrences.
  destruct (existsb (str_eqb (fst kv)) (map fst kvs)); reflexivity.
Qed.

Lemma get_fresh k d : ~ In k (Dict.keys d) -> Dict.get k d = None.
Proof.
  unfold Dict.keys. induction d as [| [k' v'] d IH]; cbn; [reflexivity |].
  intros H. destruct (str_eqb k' k) eqn:E.
  - apply str_eqb_eq in E. tauto.
  - apply IH. tauto.
Qed.

(** in a dictionary the values are the values of the keys, in the
    order of the keys *)
Lemma values_by_keys d :
  NoDup (Dict.keys d) ->
  map Some (Dict.values d) = map (fun k => Dict.get k d) (Dict.keys d).
Proof.
  unfold Dict.keys, Dict.values.
  induction d as [| [k v] d IH]; cbn; [reflexivity |].
  intros H. inversion H as [| ? ? Hk Hd]; subst.
  rewrite str_eqb_refl. f_equal. rewrite (IH Hd).
  apply map_ext_in. intros k' Hk'.
  destruct (str_eqb k k') eqn:E; [| reflexivity].
  apply str_eqb_eq in E. subst k'. contradiction.
Qed.

(** the dictionary built by assignments: its values are the last
    values given to the distinct keys, each key at the place of its
    first assignment *)
Lemma values_assign_all kvs :
  map Some (Dict.values (assign_all kvs [])) =
  map (fun k => last_value k kvs) (first_occurrences (map fst kvs)).
Proof.
  rewrite values_by_keys.
  - rewrite keys_assign_all. apply map_ext.
    intros k. apply get_assign_all.
  - rewrite keys_assign_all. apply NoDup_first_occurrences.
Qed.
End DictOrder.

(** ** Duplicate paths: the parse of [main.py] *)

Section MainParse.
Import Main.

Lemma collect_from ms d :
  fold_left
    (fun d m =>
       match parse_block m with
       | Some fi => Dict.set (rel_path fi) fi d
       | None => d
       end) ms d
  = assign_all
      (map keyed
         (flat_map (fun m => match parse_block m with
                             | Some fi => [fi]
                             | None => []
                             end) ms)) d.
Proof.
  revert d; induction ms as [| m ms IH]; intros d; [reflexivity |].
  cbn [fold_left flat_map]. rewrite IH.
  destruct (parse_block m) as [fi |]; reflexivity.
Qed.

Lemma last_value_keyed p recs :
  last_value p (map keyed recs) = last_with p recs.
Proof.
  unfold last_value, last_with. rewrite <- map_rev.
  induction (rev recs) as [| fi l IH]; [reflexivity |].
  cbn. destruct (str_eqb (rel_path fi) p); [reflexivity | exact IH].
Qed.

Lemma last_with_path p recs fi :
  last_with p recs = Some fi -> rel_path fi = p /\ In fi recs.
Proof.
  unfold last_with. intros H. apply find_some in H. destruct H as [H E].
  apply str_eqb_eq in E. split; [exact E |].
  apply in_rev. exact H.
Qed.

Lemma last_with_last pre r post :
  (forall x, In x post -> rel_path x <> rel_path r) ->
  last_with (rel_path r) (pre ++ r :: post) = Some r.
Proof.
  intros H. unfold last_with. rewrite rev_app_distr. cbn [rev].
  rewrite <- app_assoc. cbn [app].
  assert (K : forall x, In x (rev post) -> rel_path x <> rel_path r)
    by (intros x Hx; apply H, in_rev, Hx).
  induction (rev post) as [| x l IH]; cbn.
  - rewrite str_eqb_refl. reflexivity.
  - destruct (str_eqb (rel_path x) (rel_path r)) eqn:E.
    + apply str_eqb_eq in E. exfalso. apply (K x); [left; reflexivity | exact E].
    + apply IH. intros y Hy. apply K. right; exact Hy.
Qed.

(** the parse of a text that is not blank: one record for each
    distinct path, at the place of the first block with that path,
    and that record is the one of the last block with that path *)
Lemma parse_characterization text file_data :
  is_empty (strip text) = false ->
  map Some (_parse_text_to_tree text file_data) =
  map (fun p => last_with p (records_in_order text))
      (first_occurrences (map rel_path (records_in_order text))).
Proof.
  intros H. unfold _parse_text_to_tree. rewrite H.
  unfold collect. rewrite collect_from.
  fold (records_in_order text).
  rewrite values_assign_all, map_map. cbn [keyed fst].
  apply map_ext. intros p. apply last_value_keyed.
Qed.

Lemma paths_of_image (L : list FileInfo) ps (g : str -> option FileInfo) :
  map Some L = map g ps ->
  (forall p fi, g p = Some fi -> rel_path fi = p) ->
  map rel_path L = ps.
Proof.
  intros E G. revert L E; induction ps as [| q ps IH]; intros [| x L] E;
    try discriminate E; [reflexivity |].
  cbn in E. injection E as E1 E2. cbn. f_equal.
  - apply G. symmetry; exact E1.
  - apply IH; assumption.
Qed.

Lemma filter_absent p (L : list FileInfo) :
  ~ In p (map rel_path L) ->
  filter (fun fi => str_eqb (rel_path fi) p) L = [].
Proof.
  induction L as [| x L IH]; cbn; [reflexivity |].
  intros H. destruct (str_eqb (rel_path x) p) eqn:E.
  - apply str_eqb_eq in E. tauto.
  - apply IH. tauto.
Qed.

Lemma filter_single p r (L : list FileInfo) :
  NoDup (map rel_path L) -> In r L -> rel_path r = p ->
  filter (fun fi => str_eqb (rel_path fi) p) L = [r].
Proof.
  induction L as [| x L IH]; cbn; [tauto |].
  intros N [-> | H] E; inversion N as [| ? ? Nx NL]; subst.
  - rewrite str_eqb_refl. f_equal. apply filter_absent, Nx.
  - destruct (str_eqb (rel_path x) (rel_path r)) eqn:Ex.
    + apply str_eqb_eq in Ex. exfalso. apply Nx. rewrite Ex.
      apply in_map, H.
    + apply IH; auto.
Qed.

Lemma parse_paths text file_data :
  is_empty (strip text) = false ->
  map rel_path (_parse_text_to_tree text file_data)
  = first_occurrences (map rel_path (records_in_order text)).
Proof.
  intros H.
  apply (paths_of_image _ _ _ (parse_characterization text file_data H)).
  intros p fi K. apply (last_with_path _ _ _ K).
Qed.
End MainParse.

(** C10.  For every text that [_parse_text_to_tree] parses, the parsed
    collection holds one record for each distinct path; the records
    stand in the order in which their paths first occur in the text,
    and the record of a path is the one of the last block with that
    path.  So the record that survives for a repeated path stands where
    the path first occurred, carries the last content, and the other
    records keep the order of the text. *)
Theorem C10_first_position_last_content :
  forall (text : str) (file_data : list Main.FileInfo),
    is_empty (strip text) = false ->
    map Main.rel_path (Main._parse_text_to_tree text file_data)
      = first_occurrences (map Main.rel_path (records_in_order text))
    /\ map Some (Main._parse_text_to_tree text file_data)
       = map (fun p => last_with p (records_in_order text))
             (first_occurrences (map Main.rel_path (records_in_order text))).
Proof.
  intros text file_data H.
  split; [apply parse_paths, H | apply parse_characterization, H].
Qed.

(** C4.  When the blocks of a text give, in order, a record [r1] and
    later a record [r2] for the same path, and no record for that path
    after [r2], the parse holds exactly one record for that path, and it
    is [r2]: its content is the content of the later block. *)
Theorem C4_last_occurrence_wins :
  forall (text : str) (file_data : list Main.FileInfo)
         (pre mid post : list Main.FileInfo) (r1 r2 : Main.FileInfo),
    is_empty (strip text) = false ->
    records_in_order text = pre ++ r1 :: mid ++ r2 :: post ->
    Main.rel_path r1 = Main.rel_path r2 ->
    (forall r, In r post -> Main.rel_path r <> Main.rel_path r2) ->
    filter (fun fi => str_eqb (Main.rel_path fi) (Main.rel_path r2))
           (Main._parse_text_to_tree text file_data) = [r2].
Proof.
  intros text file_data pre mid post r1 r2 H D _ P.
  pose proof (parse_paths text file_data H) as E1.
  pose proof (parse_characterization text file_data H) as E2.
  assert (L : last_with (Main.rel_path r2) (records_in_order text) = Some r2).
  { rewrite D.
    change (pre ++ r1 :: mid ++ r2 :: post)
      with (pre ++ (r1 :: mid) ++ r2 :: post).
    rewrite app_assoc. apply last_with_last, P. }
  apply filter_single.
  - rewrite E1. apply NoDup_first_occurrences.
  - assert (I : In (Main.rel_path r2)
                   (first_occurrences (map Main.rel_path (records_in_order text)))).
    { apply in_first_occurrences, in_map. rewrite D.
      apply in_or_app. right. right. apply in_or_app. right. left. reflexivity. }
    assert (S : In (Some r2) (map Some (Main._parse_text_to_tree text file_data))).
    { rewrite E2. rewrite <- L. apply in_map with (f := fun p => last_with p _).
      exact I. }
    apply in_map_iff in S. destruct S as (x & Ex & Hx).
    injection Ex as ->. exact Hx.
  - reflexivity.
Qed.

Lemma C10_first_position_last_content_witness :
  is_empty (strip two_blocks_document) = false
  /\ map Main.rel_path (Main._parse_text_to_tree two_blocks_document [])
     = strs ["a/b.py"; "c.py"]
  /\ map Some (Main._parse_text_to_tree two_blocks_document [])
     = [Some (Main.mkFileInfo "a/b.py" "second = 2" "python" "#");
        Some (Main.mkFileInfo "c.py" "other = 0" "python" "#")].
Proof.
  split; [reflexivity |].
  destruct (C10_first_position_last_content two_blocks_document []
              eq_refl) as [A B].
  split; [exact A | exact B].
Defined.

Lemma C4_last_occurrence_wins_witness :
  is_empty (strip two_blocks_document) = false
  /\ filter (fun fi => str_eqb (Main.rel_path fi) "a/b.py")
            (Main._parse_text_to_tree two_blocks_document [])
     = [Main.mkFileInfo "a/b.py" "second = 2" "python" "#"].
Proof.
  split; [reflexivity |].
  apply (C4_last_occurrence_wins two_blocks_document []
           []
           [Main.mkFileInfo "c.py" "other = 0" "python" "#"]
           []
           (Main.mkFileInfo "a/b.py" "first = 1" "python" "#")
           (Main.mkFileInfo "a/b.py" "second = 2" "python" "#")).
  - reflexivity.
  - reflexivity.
  - reflexivity.
  - intros r [].
Defined.

(** ** Duplicate paths: the parse of [file_processor.py] *)

Section FileProcessorParse.
Import FileProcessor.

Lemma parse_content_from ms d :
  fold_left parse_step ms d
  = assign_all
      (flat_map (fun m => match accept_block m with
                          | Some kv => [kv]
                          | None => []
                          end) ms) d.
Proof.
  revert d; induction ms as [| m ms IH]; intros d; [reflexivity |].
  cbn [fold_left flat_map]. rewrite IH. unfold parse_step.
  destruct (accept_block m) as [[p b] |]; reflexivity.
Qed.

Lemma parse_content_assign text :
  _parse_content text = assign_all (blocks_in_order text) [].
Proof. apply parse_content_from. Qed.

(** the dictionary of [_parse_content]: one entry for each distinct
    path, in the order of the first blocks, with the text of the last
    block *)
Lemma parse_content_characterization text :
  Dict.keys (_parse_content text)
    = first_occurrences (map fst (blocks_in_order text))
  /\ forall k, Dict.get k (_parse_content text)
               = last_value k (blocks_in_order text).
Proof.
  rewrite parse_content_assign. split.
  - apply keys_assign_all.
  - intros k. apply get_assign_all.
Qed.

Example parse_content_two_blocks :
  _parse_content two_blocks_document =
  [(of_string "a/b.py", unlines ["# a/b.py"; "second = 2"]);
   (of_string "c.py", unlines ["# c.py"; "other = 0"])].
Proof. reflexivity. Qed.
End FileProcessorParse.

(** ** The content of a record *)

Section Content.

Lemma split1_spec sep s :
  ~ In sep (fst (split1 sep s))
  /\ match snd (split1 sep s) with
     | Some rest => s = fst (split1 sep s) ++ sep :: rest
     | None => s = fst (split1 sep s)
     end.
Proof.
  induction s as [| c r IH]; cbn; [tauto |].
  destruct (Ascii.eqb c sep) eqn:E; cbn.
  - apply Ascii.eqb_eq in E. subst c. tauto.
  - destruct (split1 sep r) as [h t]; cbn in *.
    destruct IH as [IH1 IH2]. split.
    + intros [H | H]; [| tauto]. subst c.
      rewrite Ascii.eqb_refl in E. discriminate.
    + destruct t; rewrite IH2 at 1; reflexivity.
Qed.

Lemma parse_block_content m fi :
  Main.parse_block m = Some fi ->
  Main.language fi = fst m
  /\ ~ In LF (fst (split1 LF (strip (snd m))))
  /\ (strip (snd m)
        = fst (split1 LF (strip (snd m))) ++ LF :: Main.content fi
      \/ (strip (snd m) = fst (split1 LF (strip (snd m)))
          /\ Main.content fi = [])).
Proof.
  unfold Main.parse_block. cbv zeta.
  destruct (Main.PATH_COMMENT_PATTERN_match _) as [[g1 g2] |];
    [| discriminate].
  intros E. injection E as <-. cbn [Main.language Main.content].
  destruct (split1_spec LF (strip (snd m))) as [A B].
  split; [reflexivity |]. split; [exact A |].
  destruct (snd (split1 LF (strip (snd m)))); [left | right; split];
    auto.
Qed.
End Content.

Section Stripped.

Lemma drop_while_head p s c r :
drop_while p s = c :: r -> p c = false.
Proof.
induction s as [| x s IH]; cbn; [discriminate |].
destruct (p x) eqn:E; [exact IH |].
intros K. injection K as <- _. exact E.
Qed.

(** a text stripped on the right does not end with a stripped
  character, nor does any of its endings *)
Lemma rstrip_suffix_end p s a b c :
rstrip_by p s = a ++ b ++ [c] -> p c = false.
Proof.
unfold rstrip_by. intros E.
apply (f_equal (@rev ascii)) in E.
rewrite rev_involutive, app_assoc, rev_app_distr in E. cbn in E.
apply (drop_while_head _ _ _ _ E).
Qed.

Lemma endswith_snoc s c d : endswith (s ++ [c]) [d] = Ascii.eqb d c.
Proof.
unfold endswith. rewrite rev_app_distr. cbn. apply andb_true_r.
Qed.

Lemma stripped_suffix_no_newline s a b :
strip s = a ++ b -> endswith b nl = false.
Proof.
intros E. destruct b as [| x b] using rev_ind; [reflexivity |].
unfold nl. rewrite endswith_snoc.
unfold strip, strip_by in E. apply rstrip_suffix_end in E.
destruct (Ascii.eqb LF x) eqn:K; [| reflexivity].
apply Ascii.eqb_eq in K. subst x. discriminate E.
Qed.

Lemma parse_block_no_final_newline m fi :
Main.parse_block m = Some fi -> endswith (Main.content fi) nl = false.
Proof.
intros H. destruct (parse_block_content m fi H) as (_ & _ & [E | [_ E]]).
- apply (stripped_suffix_no_newline (snd m)
           (fst (split1 LF (strip (snd m))) ++ [LF]) (Main.content fi)).
  rewrite <- app_assoc. exact E.
- rewrite E. reflexivity.
Qed.
End Stripped.

(** C3, as the code has it.  The content of the record of an accepted
    block is the block content, stripped of the white space around it,
    after its first line: the stripped block is the first line alone
    (and the content is empty) or the first line, a newline and the
    content; so the content never ends with a newline.  In the
    end-to-end example the record packed for [src/main.py] holds
    [print(1)] and a newline, the record parsed from its serialization
    holds [print(1)] alone, and that is what [_task_reconstruction]
    writes: the path comment is not part of the file.
    [ProjectReconstructor] of [file_processor.py] stores and writes the
    whole stripped block, path comment included. *)
Theorem C3_content_is_stripped_rest :
  (forall m fi,
      Main.parse_block m = Some fi ->
      ~ In LF (fst (split1 LF (strip (snd m))))
      /\ (strip (snd m)
            = fst (split1 LF (strip (snd m))) ++ LF :: Main.content fi
          \/ (strip (snd m) = fst (split1 LF (strip (snd m)))
              /\ Main.content fi = []))
      /\ endswith (Main.content fi) nl = false)
  /\ (forall m p block,
        FileProcessor.accept_block m = Some (p, block) ->
        block = strip (snd m))
  /\ MainPack.new_file_data
       (MainPack.pack example_suffix_map (strs [".py"]) []
          MainReconstruct.never example_tree) = [example_record]
  /\ Main.serialize [example_record]
     = unlines ["```python"; "# src/main.py"; "print(1)"; "```"; ""]
  /\ Main.parse (Main.serialize [example_record])
     = [Main.mkFileInfo "src/main.py" "print(1)" "python" "#"]
  /\ MainReconstruct._task_reconstruction Os.permissive
       MainReconstruct.never "/out"
       (Main.parse (Main.serialize [example_record])) []
     = ([(of_string "/out/src/main.py", of_string "print(1)")],
        MainReconstruct.Returned (MainReconstruct.mkStats 1 0 0))
  /\ FileProcessor.reconstruct_from_content Os.permissive "/" "/out"
       (Main.serialize [example_record]) []
     = ([(of_string "/out/src/main.py",
          unlines ["# src/main.py"; "print(1)"])],
        FileProcessor.Returned true 1 0).
Proof.
  split.
  { intros m fi H. destruct (parse_block_content m fi H) as (_ & A & B).
    split; [exact A |]. split; [exact B |].
    apply (parse_block_no_final_newline m fi H). }
  split.
  { intros m p block. unfold FileProcessor.accept_block. cbv zeta.
    destruct (FileProcessor._extract_path_from_comment _) as [q |];
      [| discriminate].
    destruct (is_empty q); [discriminate |].
    destruct (INVALID_PATH_CHARS_PATTERN_search q); [discriminate |].
    destruct (FileProcessor.is_potentially_unsafe q); [discriminate |].
    intros E. injection E as _ <-. reflexivity. }
  repeat split; reflexivity.
Qed.

Lemma C3_content_is_stripped_rest_witness :
  Main.parse_block (of_string "python", unlines ["# src/main.py"; "print(1)"])
    = Some (Main.mkFileInfo "src/main.py" "print(1)" "python" "#")
  /\ endswith (of_string "print(1)") nl = false.
Proof.
  split; [reflexivity |].
  destruct C3_content_is_stripped_rest as [G _].
  destruct (G (of_string "python", unlines ["# src/main.py"; "print(1)"])
              (Main.mkFileInfo "src/main.py" "print(1)" "python" "#")
              eq_refl) as (_ & _ & E).
  exact E.
Defined.

(** The end-to-end example against C3 as it is stated: the file that
    [_task_reconstruction] writes for [src/main.py] does not hold
    [print(1)] followed by a newline. *)
Lemma C3_counterexample :
  Dict.get "/out/src/main.py"
    (fst (MainReconstruct._task_reconstruction Os.permissive
            MainReconstruct.never "/out"
            (Main.parse (Main.serialize [example_record])) []))
  <> Some ("print(1)" ++ nl).
Proof. vm_compute. discriminate. Qed.

(** ** Unsafe paths *)

Section UnsafePaths.
Import MainReconstruct.

(** a record whose path has a [..] component or a forbidden character
  is counted as an invalid path, and nothing is written for it *)
Lemma task_loop_invalid w is_cancelled output_path i fi rest fs st :
is_cancelled i = false ->
existsb (str_eqb "..") (split "/" (Main.rel_path fi))
|| INVALID_PATH_CHARS_PATTERN_search (Main.rel_path fi) = true ->
task_loop w is_cancelled output_path i (fi :: rest) fs st =
task_loop w is_cancelled output_path (S i) rest fs
  (mkStats (created st) (error st) (S (invalid_path st))).
Proof. intros C H. cbn [task_loop]. rewrite C, H. reflexivity. Qed.

(** [os.path.join] lets an absolute second path replace the first *)
Lemma join2_absolute a b : startswith b "/" = true -> OsPath.join2 a b = b.
Proof.
  unfold OsPath.join2, OsPath.sep. intros H.
  change (startswith b ["/"%char]) with (startswith b "/").
  rewrite H. reflexivity.
Qed.

(** a record with an absolute path that passes the two tests is
    written at that very path, whatever the output directory *)
Lemma absolute_path_written w output_path fi fs fs' :
  startswith (Main.rel_path fi) "/" = true ->
  existsb (str_eqb "..") (split "/" (Main.rel_path fi))
  || INVALID_PATH_CHARS_PATTERN_search (Main.rel_path fi) = false ->
  Os.makedirs w (OsPath.dirname (Main.rel_path fi)) = None ->
  Os.write_file w (Main.rel_path fi) (Main.content fi) fs = inl fs' ->
  _task_reconstruction w never output_path [fi] fs
  = (fs', Returned (mkStats 1 0 0)).
Proof.
  intros A V D W. unfold _task_reconstruction. cbn [task_loop never].
  rewrite V, (join2_absolute output_path _ A), D, W. reflexivity.
Qed.

(** the parse of [file_processor.py] keeps no path that is absolute,
    has a [..] component or holds a forbidden character *)
Lemma parse_content_keys_safe text k :
  In k (Dict.keys (FileProcessor._parse_content text)) ->
  INVALID_PATH_CHARS_PATTERN_search k = false
  /\ FileProcessor.is_potentially_unsafe k = false.
Proof.
  destruct (parse_content_characterization text) as [-> _].
  rewrite in_first_occurrences, in_map_iff.
  intros ([k' b] & E & H). cbn in E. subst k'.
  unfold blocks_in_order in H. apply in_flat_map in H.
  destruct H as (m & _ & H).
  unfold FileProcessor.accept_block in H. cbv zeta in H.
  destruct (FileProcessor._extract_path_from_comment _) as [q |];
    [| destruct H].
  destruct (is_empty q); [destruct H |].
  destruct (INVALID_PATH_CHARS_PATTERN_search q) eqn:E1; [destruct H |].
  destruct (FileProcessor.is_potentially_unsafe q) eqn:E2; [destruct H |].
  destruct H as [H | []]. injection H as -> _. split; assumption.
Qed.

Example escape_is_invalid :
existsb (str_eqb "..") (split "/" (of_string "../escape.py")) = true.
Proof. reflexivity. Qed.

Example drive_letter_is_invalid :
INVALID_PATH_CHARS_PATTERN_search "C:/abs/path.py" = true.
Proof. reflexivity. Qed.

(** the three paths of the test, in [main.py]: one of the three
  records is written, outside of the output directory *)
Example main_unsafe_paths :
_task_reconstruction Os.permissive never "/out"
  (Main.parse unsafe_paths_document) []
= ([(of_string "/abs/path.py", of_string "print(2)")],
   Returned (mkStats 1 0 2)).
Proof. reflexivity. Qed.

(** the three paths of the test, in [file_processor.py]: no block is
  kept by the parse, and nothing is written *)
Example file_processor_unsafe_paths :
FileProcessor.parse unsafe_paths_document = []
/\ FileProcessor.reconstruct_from_content Os.permissive "/" "/out"
     unsafe_paths_document []
   = ([], FileProcessor.Returned true 0 0).
Proof. split; reflexivity. Qed.
End UnsafePaths.

(** C1 on the code of [main.py]: the block whose path comment is
    [/abs/path.py] is parsed to a record with that path, and
    [_task_reconstruction] with the output directory [/out] writes its
    content to [/abs/path.py], which is not within [/out], and counts
    one file created and no error. *)
Theorem C1_absolute_path_escapes_root :
  Main.parse absolute_path_document
    = [Main.mkFileInfo "/abs/path.py" "print(1)" "python" "#"]
  /\ MainReconstruct._task_reconstruction Os.permissive
       MainReconstruct.never "/out"
       (Main.parse absolute_path_document) []
     = ([(of_string "/abs/path.py", of_string "print(1)")],
        MainReconstruct.Returned (MainReconstruct.mkStats 1 0 0))
  /\ Os.within "/out" "/abs/path.py" = false.
Proof. repeat split; reflexivity. Qed.

(** ** The path comment that packing adds *)

Section PathComment.
Import FileProcessorPack.

Lemma split_by_app p a c b :
  (forall x, In x a -> p x = false) -> p c = true ->
  split_by p (a ++ c :: b) = a :: split_by p b.
Proof.
  intros Ha Hc. induction a as [| x a IH]; cbn.
  - rewrite Hc. reflexivity.
  - rewrite (Ha x) by (left; reflexivity).
    rewrite IH by (intros y Hy; apply Ha; right; exact Hy).
    reflexivity.
Qed.

Lemma split_line a b :
  ~ In LF a -> split LF (a ++ LF :: b) = a :: split LF b.
Proof.
  intros H. unfold split. apply split_by_app.
  - intros x Hx. destruct (Ascii.eqb LF x) eqn:E; [| reflexivity].
    apply Ascii.eqb_eq in E. subst x. contradiction.
  - apply Ascii.eqb_refl.
Qed.

Lemma endswith_in s c : endswith s [c] = true -> In c s.
Proof.
  unfold endswith. intros H. apply in_rev.
  destruct (rev s) as [| x r]; cbn in H; [discriminate |].
  rewrite andb_true_r in H. apply Ascii.eqb_eq in H. subst x.
  left; reflexivity.
Qed.

Lemma not_in_app (c : ascii) a b : ~ In c a -> ~ In c b -> ~ In c (a ++ b).
Proof. intros A B H. apply in_app_or in H. tauto. Qed.

Lemma build_block_adds lang rel_path content existing :
  existing_path_in_comment content = Some existing ->
  replace "\" "/" existing <> rel_path ->
  build_block lang rel_path content
  = fence ++ lang ++ nl ++ "# " ++ rel_path ++ nl ++ content
      ++ (if endswith content nl then [] else nl) ++ fence ++ nl ++ nl.
Proof.
  unfold existing_path_in_comment, build_block. cbv zeta.
  destruct (FileProcessor.FIRST_LINE_PATH_COMMENT_PATTERN_match _)
    as [g |]; [| discriminate].
  cbn [option_map]. intros E N. injection E as E.
  rewrite E. apply str_eqb_neq in N. rewrite N. cbn [negb].
  rewrite <- !app_assoc. reflexivity.
Qed.
End PathComment.

(** C9, as the code has it.  When packing finds that the first line of
    a file is a path comment naming another path than the path of the
    file, the block it emits starts with the fence line and the comment
    of the correct path; the text of the file follows whole, so the
    line with the other path is kept, as the third line of the block. *)
Theorem C9_correct_comment_added_wrong_one_kept :
  forall lang rel_path content existing : str,
    ~ In LF lang -> ~ In LF rel_path ->
    existing_path_in_comment content = Some existing ->
    replace "\" "/" existing <> rel_path ->
    FileProcessorPack.build_block lang rel_path content
    = fence ++ lang ++ nl ++ "# " ++ rel_path ++ nl ++ content
        ++ (if endswith content nl then [] else nl) ++ fence ++ nl ++ nl
    /\ exists rest,
         split LF (FileProcessorPack.build_block lang rel_path content)
         = (fence ++ lang) :: ("# " ++ rel_path)
             :: fst (split1 LF content) :: rest.
Proof.
  intros lang rel_path content existing Hl Hp He Hn.
  rewrite (build_block_adds lang rel_path content existing He Hn).
  split; [reflexivity |].
  assert (F : ~ In LF (fence ++ lang)).
  { apply not_in_app; [| exact Hl]. cbv. intuition discriminate. }
  assert (P : ~ In LF (of_string "# " ++ rel_path)).
  { apply not_in_app; [| exact Hp]. cbv. intuition discriminate. }
  unfold nl.
  assert (E1 : forall a b X : str, a ++ b ++ [LF] ++ X = (a ++ b) ++ LF :: X)
    by (intros; rewrite app_assoc; reflexivity).
  rewrite E1, (split_line _ _ F), E1, (split_line _ _ P).
  destruct (split1_spec LF content) as [A B].
  set (h := fst (split1 LF content)) in *.
  destruct (snd (split1 LF content)) as [t |].
  - assert (E2 : forall X, content ++ X = h ++ LF :: (t ++ X)).
    { intros X. rewrite B at 1. rewrite <- app_assoc. reflexivity. }
    rewrite E2, (split_line _ _ A). eexists. reflexivity.
  - destruct (endswith content [LF]) eqn:E.
    + apply endswith_in in E. rewrite B in E. contradiction.
    + assert (E2 : forall X, content ++ [LF] ++ X = h ++ LF :: X).
      { intros X. rewrite B at 1. reflexivity. }
      rewrite E2, (split_line _ _ A). eexists. reflexivity.
Qed.

Lemma C9_correct_comment_added_wrong_one_kept_witness :
  existing_path_in_comment misnamed_file = Some (of_string "old/path.py")
  /\ FileProcessorPack.build_block "python" "src/a.py" misnamed_file
     = unlines ["```python"; "# src/a.py"; "# old/path.py"; "x = 1";
                "```"; ""; ""].
Proof.
  split; [reflexivity |].
  destruct (C9_correct_comment_added_wrong_one_kept
              "python" "src/a.py" misnamed_file "old/path.py")
    as [E _].
  - cbv. intuition discriminate.
  - cbv. intuition discriminate.
  - reflexivity.
  - vm_compute. discriminate.
  - rewrite E. reflexivity.
Defined.

(** A file [src/a.py] whose first line is the comment of [old/path.py],
    against C9 as it is stated: the block that [combine_files] emits
    holds the line with the other path next to the correct one. *)
Lemma C9_counterexample :
  existing_path_in_comment misnamed_file = Some (of_string "old/path.py")
  /\ FileProcessorPack.combined_text
       (FileProcessorPack.combine_files "root" misnamed_tree
          [(of_string ".py", of_string "python")] (strs [".py"]) [])
     = unlines ["```python"; "# src/a.py"; "# old/path.py"; "x = 1";
                "```"; ""; ""]
  /\ is_line_of "# old/path.py"
       (FileProcessorPack.combined_text
          (FileProcessorPack.combine_files "root" misnamed_tree
             [(of_string ".py", of_string "python")] (strs [".py"]) [])).
Proof.
  split; [reflexivity |]. split; [reflexivity |].
  unfold is_line_of. vm_compute. right. right. left. reflexivity.
Qed.

(** ** Pruning of excluded directories *)

Section PruningMain.
Import MainPack Tree.

Variable patterns : list str.

Lemma walk_node_dir here name children :
  walk_node patterns here (Dir name children) =
  flat_map
    (fun c =>
       match c with
       | File f text =>
           if _is_excluded (rel_join here f) false patterns then []
           else [(rel_join here f, text)]
       | Dir _ _ => []
       end) children
  ++ flat_map
       (fun c =>
          match c with
          | Dir d _ =>
              if _is_excluded (rel_join here d) true patterns then []
              else walk_node patterns (rel_join here d) c
          | File _ _ => []
          end) children.
Proof. reflexivity. Qed.

Lemma walk_node_same here t t' :
  same_but_excluded (fun rel _ => _is_excluded rel true patterns) here t t' ->
  forall n n', walk_node patterns here (Dir n t)
               = walk_node patterns here (Dir n' t').
Proof.
  induction 1 as [here pre name cs cs' post E
                 | here pre name cs cs' post _ IH]; intros n n';
    rewrite !walk_node_dir, !flat_map_app; cbn [flat_map app].
  - rewrite E. reflexivity.
  - destruct (_is_excluded (rel_join here name) true patterns);
      [reflexivity |].
    rewrite (IH name name). reflexivity.
Qed.
End PruningMain.

Section PruningCombine.
Import FileProcessorPack Tree.

Variable suffix_map : Dict.dict str.
Variable selected_suffixes : list str.
Variables excluded_patterns excluded_suffixes_no_dot : list str.

Lemma names_same pre name cs cs' post :
  dir_names (pre ++ Dir name cs :: post)
    = dir_names (pre ++ Dir name cs' :: post)
  /\ file_names (pre ++ Dir name cs :: post)
     = file_names (pre ++ Dir name cs' :: post).
Proof.
  unfold dir_names, file_names. rewrite !flat_map_app. split; reflexivity.
Qed.

Lemma combine_walk_same here t t' :
  same_but_excluded (excl excluded_patterns excluded_suffixes_no_dot)
    here t t' ->
  forall n r,
    walk_node suffix_map selected_suffixes excluded_patterns
      excluded_suffixes_no_dot here (Dir n t) r
    = walk_node suffix_map selected_suffixes excluded_patterns
        excluded_suffixes_no_dot here (Dir n t') r.
Proof.
  induction 1 as [here pre name cs cs' post E
                 | here pre name cs cs' post _ IH]; intros n r;
    cbn [walk_node];
    destruct (names_same pre name cs cs' post) as [-> ->];
    (destruct (excl excluded_patterns excluded_suffixes_no_dot _ n);
     [reflexivity |]);
    rewrite !fold_left_app; cbn [fold_left].
  - rewrite E. reflexivity.
  - destruct (excl excluded_patterns excluded_suffixes_no_dot
                (rel_join here name) name); [reflexivity |].
    rewrite IH. reflexivity.
Qed.
End PruningCombine.

(** the same for [combine_files]: its result, the files it opens and
    its counts do not depend on what an excluded directory holds *)
Lemma combine_files_pruned source_name tree tree' suffix_map
    selected_suffixes exclude_str :
  same_but_excluded
    (fun rel name =>
       FileProcessorPack.is_excluded rel name
         (fst (FileProcessorPack.parse_exclusions exclude_str))
         (snd (FileProcessorPack.parse_exclusions exclude_str)))
    [] tree tree' ->
  FileProcessorPack.combine_files source_name tree suffix_map
    selected_suffixes exclude_str
  = FileProcessorPack.combine_files source_name tree' suffix_map
      selected_suffixes exclude_str.
Proof.
  intros H. unfold FileProcessorPack.combine_files.
  destruct (FileProcessorPack.parse_exclusions exclude_str) as [ps ss].
  apply combine_walk_same. exact H.
Qed.

Example combine_files_pruning_tree :
  FileProcessorPack.combine_files "root" pruning_tree
    [(of_string ".py", of_string "python")] (strs [".py"]) "build/"
  = FileProcessorPack.mkResult
      [unlines ["```python"; "# main.py"; "print(1)"; "```"; ""; ""]]
      1 1 0 (strs ["main.py"]) (strs ["build"]) (strs ["main.py"]).
Proof. reflexivity. Qed.

(** C7.  Packing does not depend on what an excluded directory holds:
    when two source trees are the same but for the entries of a
    directory that the rules exclude, the files gathered, the files
    opened, the records and the counts are the same.  So the files of
    an excluded directory are neither read nor counted: the result is
    the one for the tree where that directory is empty. *)
Theorem C7_excluded_directory_pruned :
  forall (suffix_map : Dict.dict MainPack.map_entry)
         (selected_suffixes : list str) (exclude_text : str)
         (is_cancelled : nat -> bool) (tree tree' : list Tree.node),
    same_but_excluded
      (fun rel _ =>
         MainPack._is_excluded rel true
           (MainPack._parse_exclusions exclude_text))
      [] tree tree' ->
    MainPack._gather_source_files tree
      (MainPack._parse_exclusions exclude_text)
    = MainPack._gather_source_files tree'
        (MainPack._parse_exclusions exclude_text)
    /\ MainPack.pack suffix_map selected_suffixes exclude_text
         is_cancelled tree
       = MainPack.pack suffix_map selected_suffixes exclude_text
           is_cancelled tree'.
Proof.
  intros suffix_map selected_suffixes exclude_text is_cancelled tree tree' H.
  assert (E : MainPack._gather_source_files tree
                (MainPack._parse_exclusions exclude_text)
              = MainPack._gather_source_files tree'
                  (MainPack._parse_exclusions exclude_text)).
  { unfold MainPack._gather_source_files. apply walk_node_same, H. }
  split; [exact E |].
  unfold MainPack.pack. rewrite E. reflexivity.
Qed.

Lemma C7_excluded_directory_pruned_witness :
  MainPack._is_excluded "build" true (MainPack._parse_exclusions "build/")
    = true
  /\ MainPack.pack example_suffix_map (strs [".py"]) "build/"
       MainReconstruct.never pruning_tree
     = MainPack.pack example_suffix_map (strs [".py"]) "build/"
         MainReconstruct.never pruned_tree
  /\ MainPack.pack example_suffix_map (strs [".py"]) "build/"
       MainReconstruct.never pruned_tree
     = MainPack.mkPack
         [Main.mkFileInfo "main.py" ("print(1)" ++ nl) "python" "#"]
         (MainPack.mkStats 1 0 0) (strs ["main.py"]).
Proof.
  split; [reflexivity |]. split; [| reflexivity].
  apply (C7_excluded_directory_pruned example_suffix_map (strs [".py"])
           "build/" MainReconstruct.never pruning_tree pruned_tree).
  apply (differ_here _ [] [] "build"
           [Tree.File "x.py" (Some ("print(0)" ++ nl))] []
           [Tree.File "main.py" (Some ("print(1)" ++ nl))]).
  reflexivity.
Defined.

(** ** The round trip of the codec of [main.py] *)

Section Scanning.

Lemma span_stop p a c X :
  forallb p a = true -> p c = false ->
  take_while p (a ++ c :: X) = a /\ drop_while p (a ++ c :: X) = c :: X.
Proof.
  intros Ha Hc. induction a as [| x a IH]; cbn.
  - rewrite Hc. split; reflexivity.
  - cbn in Ha. apply andb_true_iff in Ha. destruct Ha as [Hx Ha].
    rewrite Hx. destruct (IH Ha) as [-> ->]. split; reflexivity.
Qed.

Lemma drop_while_app_stop p r c X :
  p c = false ->
  drop_while p (r ++ c :: X) = drop_while p (r ++ [c]) ++ X.
Proof.
  intros Hc. induction r as [| x r IH]; cbn.
  - rewrite Hc. reflexivity.
  - destruct (p x); [exact IH |].
    cbn [app]. rewrite <- app_assoc. reflexivity.
Qed.

Lemma backquote_not_LF : Ascii.eqb "`" LF = false.
Proof. reflexivity. Qed.

Lemma startswith_fence_line r Y :
  startswith r fence = false -> startswith (r ++ LF :: Y) fence = false.
Proof.
  unfold fence, of_string. cbn [list_ascii_of_string].
  destruct r as [| a [| b [| c r]]]; cbn [app startswith]; intros H.
  - rewrite backquote_not_LF. reflexivity.
  - rewrite backquote_not_LF, andb_false_r. reflexivity.
  - rewrite backquote_not_LF, !andb_false_r. reflexivity.
  - exact H.
Qed.

Lemma closing_fence_extend a c Y :
  isspace c = false ->
  closing_fence (a ++ [c]) = None ->
  closing_fence (a ++ c :: LF :: Y) = None.
Proof.
  intros Hc. destruct a as [| x a]; cbn [app closing_fence].
  - destruct (Ascii.eqb c LF) eqn:E; [| reflexivity].
    apply Ascii.eqb_eq in E. subst c. discriminate Hc.
  - destruct (Ascii.eqb x LF); [| reflexivity].
    rewrite (drop_while_app_stop isspace a c (LF :: Y) Hc).
    destruct (startswith (drop_while isspace (a ++ [c])) fence) eqn:E;
      [discriminate |].
    intros _. rewrite (startswith_fence_line _ _ E). reflexivity.
Qed.

Lemma lazy_body_unfold s :
  lazy_body s =
  match closing_fence s with
  | Some rest => Some ([], rest)
  | None =>
      match s with
      | c :: r =>
          match lazy_body r with
          | Some (b, rest) => Some (c :: b, rest)
          | None => None
          end
      | [] => None
      end
  end.
Proof. destruct s; reflexivity. Qed.

Lemma no_closing_unfold s :
  no_closing s =
  match closing_fence s with
  | Some _ => false
  | None => match s with [] => true | _ :: r => no_closing r end
  end.
Proof. destruct s; reflexivity. Qed.

(** the lazy body runs through a text where the fence closes nowhere *)
Lemma lazy_body_skip a c Y :
  isspace c = false ->
  no_closing (a ++ [c]) = true ->
  lazy_body (a ++ c :: LF :: Y) =
  match lazy_body (LF :: Y) with
  | Some (b, rest) => Some (a ++ c :: b, rest)
  | None => None
  end.
Proof.
  intros Hc. induction a as [| x a IH]; intros N.
  - rewrite (lazy_body_unfold ([] ++ c :: LF :: Y)).
    rewrite (closing_fence_extend [] c Y Hc) by
      (rewrite no_closing_unfold in N;
       destruct (closing_fence ([] ++ [c])); [discriminate | reflexivity]).
    cbn [app]. destruct (lazy_body (LF :: Y)) as [[b rest] |]; reflexivity.
  - rewrite no_closing_unfold in N.
    destruct (closing_fence ((x :: a) ++ [c])) eqn:E; [discriminate |].
    cbn [app] in N.
    rewrite (lazy_body_unfold ((x :: a) ++ c :: LF :: Y)).
    rewrite (closing_fence_extend (x :: a) c Y Hc E).
    cbn [app]. rewrite (IH N).
    destruct (lazy_body (LF :: Y)) as [[b rest] |]; reflexivity.
Qed.

Lemma lazy_body_fence R : lazy_body (LF :: fence ++ R) = Some ([], R).
Proof. reflexivity. Qed.

Lemma lazy_body_blank_fence R :
  lazy_body (LF :: LF :: fence ++ R) = Some ([], R).
Proof. reflexivity. Qed.

Lemma no_closing_line h Z :
  ~ In LF h -> no_closing (h ++ Z) = no_closing Z.
Proof.
  induction h as [| x h IH]; intros H; [reflexivity |].
  rewrite no_closing_unfold. cbn [app closing_fence].
  destruct (Ascii.eqb x LF) eqn:E.
  - apply Ascii.eqb_eq in E. subst x. exfalso. apply H. left; reflexivity.
  - apply IH. intros K. apply H. right; exact K.
Qed.
End Scanning.

Section Stripping.

Lemma drop_while_id p s :
  match s with a :: _ => p a = false | [] => True end ->
  drop_while p s = s.
Proof. destruct s as [| a s]; cbn; [reflexivity |]. intros ->. reflexivity. Qed.

Lemma strip_by_id p s :
  match s with a :: _ => p a = false | [] => True end ->
  match rev s with c :: _ => p c = false | [] => True end ->
  strip_by p s = s.
Proof.
  intros H1 H2. unfold strip_by, lstrip_by, rstrip_by.
  rewrite (drop_while_id p s H1), (drop_while_id p (rev s) H2).
  apply rev_involutive.
Qed.

(** stripping on the right leaves a prefix *)
Lemma rstrip_prefix p s : exists w, s = rstrip_by p s ++ w.
Proof.
  unfold rstrip_by.
  assert (G : forall t, exists w, t = rev w ++ drop_while p t).
  { induction t as [| x t [w IH]]; cbn.
    - exists []. reflexivity.
    - destruct (p x).
      + exists (w ++ [x]). rewrite rev_app_distr. cbn. rewrite <- IH.
        reflexivity.
      + exists []. reflexivity. }
  destruct (G (rev s)) as [w E]. exists w.
  apply (f_equal (@rev ascii)) in E.
  rewrite rev_involutive, rev_app_distr, rev_involutive in E. exact E.
Qed.

Lemma strip_by_head p s :
  match strip_by p s with a :: _ => p a = false | [] => True end.
Proof.
  unfold strip_by, lstrip_by.
  destruct (rstrip_prefix p (drop_while p s)) as [w E].
  destruct (rstrip_by p (drop_while p s)) as [| a r]; [exact I |].
  cbn in E. apply (drop_while_head p s a (r ++ w) E).
Qed.

Lemma strip_by_last p s :
  match rev (strip_by p s) with c :: _ => p c = false | [] => True end.
Proof.
  unfold strip_by, rstrip_by. rewrite rev_involutive.
  destruct (drop_while p (rev (lstrip_by p s))) as [| c r] eqn:E;
    [exact I |].
  apply (drop_while_head p _ c r E).
Qed.

Lemma strip_idem s : strip (strip s) = strip s.
Proof.
  unfold strip. apply strip_by_id; [apply strip_by_head | apply strip_by_last].
Qed.

Lemma rstrip_nonempty p a s :
  p a = false -> is_empty (rstrip_by p (a :: s)) = false.
Proof.
  intros H. unfold rstrip_by. cbn [rev].
  assert (G : forall t, drop_while p (t ++ [a]) <> []).
  { induction t as [| x t IH]; cbn.
    - rewrite H. discriminate.
    - destruct (p x); [exact IH | discriminate]. }
  specialize (G (rev s)).
  destruct (drop_while p (rev s ++ [a])) as [| c r]; [contradiction |].
  cbn [rev]. destruct (rev r); reflexivity.
Qed.

Lemma strip_nonempty a s :
  isspace a = false -> is_empty (strip (a :: s)) = false.
Proof.
  intros H. unfold strip, strip_by, lstrip_by. cbn [drop_while].
  rewrite H. apply rstrip_nonempty, H.
Qed.

Lemma take_while_all p s : forallb p s = true -> take_while p s = s.
Proof.
  induction s as [| x s IH]; cbn; [reflexivity |].
  intros H. apply andb_true_iff in H. destruct H as [-> H].
  rewrite (IH H). reflexivity.
Qed.

Lemma marker_not_space c : Main.marker_char c = true -> isspace c = false.
Proof.
  unfold Main.marker_char, char_in, of_string. cbn [list_ascii_of_string existsb].
  rewrite !orb_true_iff. rewrite !Ascii.eqb_eq.
  intros [-> | [-> | [-> | [-> | H]]]]; try reflexivity. discriminate H.
Qed.

Lemma nonspace_not_LF c : nonspace c = true -> c <> LF.
Proof. intros H ->. discriminate H. Qed.

Lemma forallb_not_in (p : ascii -> bool) s c :
  forallb p s = true -> p c = false -> ~ In c s.
Proof.
  intros H Hc K. rewrite forallb_forall in H. rewrite (H c K) in Hc.
  discriminate.
Qed.

Lemma split1_line h t :
  ~ In LF h -> split1 LF (h ++ LF :: t) = (h, Some t).
Proof.
  induction h as [| x h IH]; intros H; cbn [split1 app].
  - rewrite ?Ascii.eqb_refl. reflexivity.
  - destruct (Ascii.eqb x LF) eqn:E.
    + apply Ascii.eqb_eq in E. subst x. exfalso. apply H. left; reflexivity.
    + rewrite IH by (intros K; apply H; right; exact K). reflexivity.
Qed.

Lemma split1_no_line h : ~ In LF h -> split1 LF h = (h, None).
Proof.
  induction h as [| x h IH]; intros H; cbn [split1 app].
  - rewrite ?Ascii.eqb_refl. reflexivity.
  - destruct (Ascii.eqb x LF) eqn:E.
    + apply Ascii.eqb_eq in E. subst x. exfalso. apply H. left; reflexivity.
    + rewrite IH by (intros K; apply H; right; exact K). reflexivity.
Qed.
End Stripping.

Section Blocks.
Import Main.

Lemma marker_cases c :
  marker_char c = true ->
  c = "#"%char \/ c = "|"%char \/ c = "/"%char \/ c = ";"%char.
Proof.
  unfold marker_char, char_in, of_string.
  cbn [list_ascii_of_string existsb].
  rewrite !orb_true_iff, !Ascii.eqb_eq.
  intros [H | [H | [H | [H | H]]]]; auto. discriminate H.
Qed.

Lemma marker_run_no_markup sym :
  forallb marker_char sym = true -> contains sym "<!--" = false.
Proof.
  induction sym as [| x sym IH]; [reflexivity |].
  cbn [forallb]. rewrite andb_true_iff. intros [Hx H].
  cbn [contains]. rewrite (IH H), orb_false_r.
  destruct (marker_cases x Hx) as [-> | [-> | [-> | ->]]]; reflexivity.
Qed.

Lemma line_symbol_parts sym :
  line_symbol sym = true ->
  is_empty sym = false /\ forallb marker_char sym = true
  /\ contains sym "<!--" = false.
Proof.
  unfold line_symbol. rewrite andb_true_iff, negb_true_iff.
  intros [A B]. repeat split; auto. apply marker_run_no_markup, B.
Qed.

(** a readable record has a line symbol, or a markup symbol and a path
    that starts with another character than a marker *)
Lemma readable_parts fi :
  readable fi = true ->
  forallb isword (language fi) = true
  /\ ((line_symbol (comment_symbol fi) = true
       /\ contains (comment_symbol fi) "<!--" = false)
      \/ (contains (comment_symbol fi) "<!--" = true
          /\ exists q p, rel_path fi = q :: p /\ marker_char q = false))
  /\ is_empty (rel_path fi) = false
  /\ forallb nonspace (rel_path fi) = true
  /\ no_closing (LF :: strip (content fi)) = true.
Proof.
  unfold readable. rewrite !andb_true_iff, !negb_true_iff, orb_true_iff.
  intros [[[[A B] C] D] E].
  split; [exact A |]. split; [| tauto].
  destruct B as [L | B].
  - left. split; [exact L |]. apply (line_symbol_parts _ L).
  - right. unfold markup_symbol in B. apply andb_true_iff in B.
    destruct B as [B1 B2]. split; [exact B1 |].
    destruct (rel_path fi) as [| q p]; [discriminate B2 |].
    exists q, p. split; [reflexivity |].
    apply negb_true_iff in B2. exact B2.
Qed.

Lemma codec_safe_readable fi :
  codec_safe fi = true ->
  readable fi = true /\ line_symbol (comment_symbol fi) = true
  /\ contains (comment_symbol fi) "<!--" = false.
Proof.
  intros H. unfold codec_safe in H. rewrite !andb_true_iff in H.
  destruct H as [[[[A B] C] D] E]. split.
  - unfold readable. rewrite A, B, C, D, E. reflexivity.
  - split; [exact B | apply (line_symbol_parts _ B)].
Qed.

Lemma block_of_readable fi :
  readable fi = true ->
  block_of fi =
  fence ++ language fi ++ LF :: header fi ++ LF :: strip (content fi)
    ++ LF :: fence ++ nl.
Proof.
  intros H. destruct (readable_parts fi H) as (_ & B & _).
  unfold block_of, header.
  destruct B as [[L M] | [M _]]; rewrite M.
  - destruct (line_symbol_parts _ L) as (E & _). rewrite E. cbn [negb].
    unfold nl. rewrite <- !app_assoc. reflexivity.
  - unfold nl. rewrite <- !app_assoc. reflexivity.
Qed.

Lemma nonspace_run_no_newline s : forallb nonspace s = true -> ~ In LF s.
Proof.
  intros E K. rewrite forallb_forall in E. specialize (E LF K).
  discriminate E.
Qed.

Lemma header_no_newline fi : readable fi = true -> ~ In LF (header fi).
Proof.
  intros H. destruct (readable_parts fi H) as (_ & B & _ & E & _).
  pose proof (nonspace_run_no_newline _ E) as P.
  unfold header. destruct B as [[L M] | [M _]]; rewrite M; intros K.
  - destruct (line_symbol_parts _ L) as (_ & C & _).
    apply in_app_or in K. destruct K as [K | K].
    + rewrite forallb_forall in C. specialize (C LF K).
      apply marker_not_space in C. discriminate C.
    + apply in_app_or in K. destruct K as [K | K]; [| contradiction].
      cbv in K. intuition discriminate.
  - apply in_app_or in K. destruct K as [K | K].
    + cbv in K. intuition discriminate.
    + apply in_app_or in K. destruct K as [K | K]; [contradiction |].
      cbv in K. intuition discriminate.
Qed.

Lemma last_char (s : str) :
  is_empty s = false -> exists s0 c, s = s0 ++ [c].
Proof.
  intros H. destruct s as [| x s] using rev_ind; [discriminate |].
  exists s, x. reflexivity.
Qed.

Lemma nonspace_run_last s0 c :
  forallb nonspace (s0 ++ [c]) = true -> isspace c = false.
Proof.
  rewrite forallb_app, andb_true_iff. intros [_ E].
  cbn in E. rewrite andb_true_r in E. apply negb_true_iff in E. exact E.
Qed.

Lemma header_last fi :
  readable fi = true ->
  exists h0 c, header fi = h0 ++ [c] /\ isspace c = false.
Proof.
  intros H. destruct (readable_parts fi H) as (_ & B & D & E & _).
  unfold header. destruct B as [[L M] | [M _]]; rewrite M.
  - destruct (last_char _ D) as (p0 & c & P).
    exists (comment_symbol fi ++ " " ++ p0), c. split.
    + rewrite P, <- !app_assoc. reflexivity.
    + rewrite P in E. apply (nonspace_run_last _ _ E).
  - exists (of_string "<!-- " ++ rel_path fi ++ of_string " --"), ">"%char.
    split; [| reflexivity].
    rewrite <- !app_assoc. reflexivity.
Qed.

Lemma header_head fi :
  readable fi = true ->
  exists y rest, header fi = y :: rest /\ isspace y = false.
Proof.
  intros H. destruct (readable_parts fi H) as (_ & B & _).
  unfold header. destruct B as [[L M] | [M _]]; rewrite M.
  - destruct (line_symbol_parts _ L) as (E & C & _).
    destruct (comment_symbol fi) as [| y sym]; [discriminate E |].
    exists y. eexists. split; [reflexivity |].
    cbn in C. apply andb_true_iff in C. destruct C as [C _].
    apply marker_not_space, C.
  - exists "<"%char. eexists. split; reflexivity.
Qed.

Lemma stripped_last s :
  is_empty (strip s) = false ->
  exists s0 c, strip s = s0 ++ [c] /\ isspace c = false.
Proof.
  intros H. destruct (last_char _ H) as (s0 & c & E).
  exists s0, c. split; [exact E |].
  pose proof (strip_by_last isspace s) as L. fold (strip s) in L.
  rewrite E, rev_app_distr in L. exact L.
Qed.

(** the lazy body of the block of a record ends at the fence that
    closes the block *)
Lemma lazy_body_region fi R :
  readable fi = true ->
  lazy_body (header fi ++ LF :: strip (content fi) ++ LF :: fence ++ R)
  = Some (payload fi, R).
Proof.
  intros H. pose proof (header_no_newline fi H) as N.
  destruct (readable_parts fi H) as (_ & _ & _ & _ & F).
  unfold payload.
  destruct (is_empty (strip (content fi))) eqn:Es.
  - destruct (strip (content fi)); [| discriminate Es].
    destruct (header_last fi H) as (h0 & c & Eh & Hc).
    rewrite Eh, <- app_assoc, app_nil_r. cbn [app].
    rewrite (lazy_body_skip h0 c (LF :: fence ++ R) Hc).
    + rewrite lazy_body_blank_fence. reflexivity.
    + rewrite <- Eh, <- (app_nil_r (header fi)).
      rewrite (no_closing_line _ [] N). reflexivity.
  - destruct (stripped_last _ Es) as (s0 & c & E & Hc).
    rewrite E.
    assert (G : forall X, header fi ++ LF :: (s0 ++ [c]) ++ X
                          = (header fi ++ LF :: s0) ++ c :: X).
    { intros X. rewrite <- !app_assoc. reflexivity. }
    rewrite G.
    rewrite (lazy_body_skip (header fi ++ LF :: s0) c (fence ++ R) Hc).
    + rewrite lazy_body_fence.
      rewrite <- !app_assoc. reflexivity.
    + rewrite <- app_assoc. rewrite (no_closing_line _ _ N).
      cbn [app]. rewrite <- E. exact F.
Qed.

Lemma block_of_then fi R :
  readable fi = true ->
  block_of fi ++ R =
  fence ++ language fi ++ LF :: header fi ++ LF :: strip (content fi)
    ++ LF :: fence ++ LF :: R.
Proof.
  intros H. rewrite (block_of_readable fi H). unfold nl.
  repeat (progress (rewrite <- ?app_assoc; cbn [app])). reflexivity.
Qed.

Lemma block_match_block fi R :
  readable fi = true ->
  block_match false (block_of fi ++ R)
  = Some (language fi, payload fi, LF :: R).
Proof.
  intros H. rewrite (block_of_then fi R H).
  destruct (readable_parts fi H) as (A & _).
  unfold block_match.
  change (startswith (fence ++ ?x) fence) with true.
  change (skipn 3 (fence ++ ?x)) with x.
  cbv iota. cbn [andb].
  destruct (span_stop isword (language fi) LF
              (header fi ++ LF :: strip (content fi)
                 ++ LF :: fence ++ LF :: R) A eq_refl) as [-> ->].
  rewrite Ascii.eqb_refl.
  rewrite (lazy_body_region fi (LF :: R) H). reflexivity.
Qed.
End Blocks.

Section RoundTrip.
Import Main.

Lemma finditer_from_skip flag m X :
  finditer_from flag (length m) (m ++ X) = finditer_from flag 0 X.
Proof. induction m as [| c m IH]; [reflexivity | exact IH]. Qed.

Lemma finditer_newline flag X :
  finditer_from flag 0 (LF :: X) = finditer_from flag 0 X.
Proof. reflexivity. Qed.

Lemma block_of_shape fi :
  readable fi = true -> exists m0, block_of fi = "`"%char :: m0 ++ [LF].
Proof.
  intros H. rewrite (block_of_readable fi H). unfold nl.
  unfold fence at 1, of_string. cbn [list_ascii_of_string app].
  eexists. f_equal.
  repeat (rewrite ?app_assoc, ?app_comm_cons). reflexivity.
Qed.

(** the scan finds the block of a record at the start of a text, and
    goes on after the newline that ends the block *)
Lemma finditer_block fi R :
  readable fi = true ->
  finditer_from false 0 (block_of fi ++ LF :: R)
  = (language fi, payload fi) :: finditer_from false 0 R.
Proof.
  intros H. pose proof (block_match_block fi (LF :: R) H) as M.
  destruct (block_of_shape fi H) as [m0 Em].
  rewrite Em in M |- *. cbn [app] in M |- *. cbn [finditer_from].
  rewrite M. f_equal.
  replace (length ("`"%char :: (m0 ++ [LF]) ++ LF :: R)
           - length (LF :: LF :: R) - 1)
    with (length m0).
  - rewrite <- app_assoc. rewrite finditer_from_skip. reflexivity.
  - cbn [length]. rewrite !length_app. cbn [length]. lia.
Qed.

Lemma finditer_last_block fi :
  readable fi = true ->
  finditer_from false 0 (block_of fi) = [(language fi, payload fi)].
Proof.
  intros H. pose proof (block_match_block fi [] H) as M.
  rewrite app_nil_r in M.
  destruct (block_of_shape fi H) as [m0 Em].
  rewrite Em in M |- *. cbn [finditer_from]. rewrite M. f_equal.
  replace (length ("`"%char :: m0 ++ [LF]) - length [LF] - 1)
    with (length m0).
  - rewrite finditer_from_skip. reflexivity.
  - cbn [length]. rewrite !length_app. cbn [length]. lia.
Qed.

Lemma finditer_serialize fis :
  forallb readable fis = true ->
  finditer false (serialize fis)
  = map (fun fi => (language fi, payload fi)) fis.
Proof.
  unfold finditer, serialize, _regenerate_combined_text.
  induction fis as [| fi fis IH]; [reflexivity |].
  cbn [forallb]. rewrite andb_true_iff. intros [H Hs].
  destruct fis as [| fi' fis].
  - cbn [map PyStr.join]. apply finditer_last_block, H.
  - change (PyStr.join nl (map block_of (fi :: fi' :: fis)))
      with (block_of fi ++ nl ++ PyStr.join nl (map block_of (fi' :: fis))).
    unfold nl at 1. cbn [app].
    rewrite (finditer_block fi _ H), (IH Hs). reflexivity.
Qed.
End RoundTrip.

Section ReadBack.
Import Main.

Lemma path_comment_of_header fi :
  readable fi = true ->
  PATH_COMMENT_PATTERN_match (header fi)
  = Some (if contains (comment_symbol fi) "<!--" then None
          else Some (comment_symbol fi),
          rel_path fi).
Proof.
  intros H. destruct (header_head fi H) as (y & rest & Eh & Hy).
  destruct (readable_parts fi H) as (_ & B & D & E & _).
  unfold PATH_COMMENT_PATTERN_match.
  rewrite (drop_while_id isspace (header fi)) by (rewrite Eh; exact Hy).
  unfold header in *. destruct B as [[L M] | [M (q & p & Ep & Hq)]];
    rewrite M in *.
  - destruct (line_symbol_parts _ L) as (B & C & _).
    assert (S : startswith (comment_symbol fi ++ " " ++ rel_path fi) "<!--"
                = false).
    { rewrite Eh. destruct (comment_symbol fi) as [| z sym];
        [discriminate B |].
      cbn in C. apply andb_true_iff in C. destruct C as [C _].
      cbn [app] in Eh. injection Eh as <- _.
      destruct (marker_cases z C) as [-> | [-> | [-> | ->]]]; reflexivity. }
    rewrite S. unfold marker_and_token.
    change (of_string " " ++ rel_path fi) with (" "%char :: rel_path fi).
    destruct (span_stop marker_char (comment_symbol fi) " "%char (rel_path fi)
                C eq_refl) as [-> ->].
    cbn [drop_while]. change (isspace " ") with true. cbv iota.
    destruct (rel_path fi) as [| q path] eqn:Ep; [discriminate D |].
    rewrite (drop_while_id isspace (q :: path)).
    + rewrite (take_while_all nonspace (q :: path) E).
      destruct (comment_symbol fi); [discriminate B | reflexivity].
    + cbn in E. apply andb_true_iff in E. destruct E as [E _].
      apply negb_true_iff in E. exact E.
  - change (startswith (of_string "<!-- " ++ ?x) "<!--") with true.
    cbv iota.
    change (skipn 4 (of_string "<!-- " ++ ?x)) with (" "%char :: x).
    cbn [drop_while]. change (isspace " ") with true. cbv iota.
    assert (Q : isspace q = false).
    { rewrite Ep in E. cbn in E. apply andb_true_iff in E.
      destruct E as [E _]. apply negb_true_iff in E. exact E. }
    rewrite Ep. cbn [app drop_while]. rewrite Q.
    unfold marker_and_token. cbn [take_while drop_while]. rewrite Hq.
    cbn [drop_while]. rewrite Q.
    f_equal. f_equal.
    change (q :: p ++ of_string " -->")
      with ((q :: p) ++ " "%char :: of_string "-->").
    rewrite <- Ep.
    apply (span_stop nonspace (rel_path fi) " "%char (of_string "-->") E
             eq_refl).
Qed.

Lemma strip_payload fi :
  readable fi = true -> strip (payload fi) = payload fi.
Proof.
  intros H. unfold strip. apply strip_by_id.
  - destruct (header_head fi H) as (y & rest & Eh & Hy).
    unfold payload. rewrite Eh. cbn [app]. exact Hy.
  - unfold payload. destruct (is_empty (strip (content fi))) eqn:Es.
    + destruct (header_last fi H) as (h0 & c & Eh & Hc).
      rewrite app_nil_r, Eh, rev_app_distr. exact Hc.
    + destruct (stripped_last _ Es) as (s0 & c & E & Hc).
      rewrite E, app_comm_cons, app_assoc, rev_app_distr. exact Hc.
Qed.

(** the block of a record is read back as the record with its content
    stripped *)
Lemma parse_block_payload fi :
  readable fi = true ->
  parse_block (language fi, payload fi) = Some (read_back fi).
Proof.
  intros H. unfold parse_block. cbn [fst snd].
  rewrite (strip_payload fi H).
  pose proof (header_no_newline fi H) as N.
  assert (S : split1 LF (payload fi)
              = (header fi,
                 if is_empty (strip (content fi)) then None
                 else Some (strip (content fi)))).
  { unfold payload. destruct (is_empty (strip (content fi))).
    - rewrite app_nil_r. apply split1_no_line, N.
    - apply split1_line, N. }
  rewrite S. cbn [fst snd].
  rewrite (path_comment_of_header fi H).
  destruct (readable_parts fi H) as (_ & _ & D & E & _).
  assert (P : strip (rel_path fi) = rel_path fi).
  { unfold strip. apply strip_by_id.
    - destruct (rel_path fi) as [| q p]; [exact I |].
      cbn in E. apply andb_true_iff in E. destruct E as [E _].
      apply negb_true_iff in E. exact E.
    - destruct (last_char _ D) as (p0 & c & Ep).
      rewrite Ep, rev_app_distr. cbn [rev app].
      rewrite Ep in E. apply (nonspace_run_last _ _ E). }
  rewrite P. unfold read_back. f_equal. f_equal.
  - destruct (strip (content fi)); reflexivity.
  - destruct (contains (comment_symbol fi) "<!--"); reflexivity.
Qed.

Lemma set_fresh (V : Type) k (v : V) d :
  ~ In k (Dict.keys d) -> Dict.set k v d = d ++ [(k, v)].
Proof.
  unfold Dict.keys. induction d as [| [k' v'] d IH]; cbn; [reflexivity |].
  intros H. destruct (str_eqb k' k) eqn:E.
  - apply str_eqb_eq in E. tauto.
  - rewrite IH by tauto. reflexivity.
Qed.

Lemma assign_all_fresh (V : Type) (kvs d : list (str * V)) :
  NoDup (map fst (d ++ kvs)) -> assign_all kvs d = d ++ kvs.
Proof.
  revert d; induction kvs as [| [k v] kvs IH]; intros d N.
  - rewrite app_nil_r. reflexivity.
  - change (assign_all ((k, v) :: kvs) d)
      with (assign_all kvs (Dict.set k v d)).
    assert (F : ~ In k (Dict.keys d)).
    { unfold Dict.keys. rewrite map_app in N. cbn [map fst] in N.
      apply NoDup_remove_2 in N. intros K. apply N.
      apply in_or_app. left; exact K. }
    rewrite (set_fresh V k v d F).
    rewrite IH; rewrite <- app_assoc; [reflexivity | exact N].
Qed.

Lemma collect_readable fis :
  forallb readable fis = true ->
  NoDup (map rel_path fis) ->
  Dict.values (collect (map (fun fi => (language fi, payload fi)) fis))
  = map read_back fis.
Proof.
  intros H N. unfold collect. rewrite collect_from.
  assert (E : flat_map (fun m => match parse_block m with
                                 | Some fi => [fi]
                                 | None => []
                                 end)
                (map (fun fi => (language fi, payload fi)) fis)
              = map read_back fis).
  { induction fis as [| fi fis IH]; [reflexivity |].
    cbn [forallb] in H. apply andb_true_iff in H. destruct H as [H Hs].
    inversion N as [| ? ? _ N']; subst.
    cbn [map flat_map]. rewrite (parse_block_payload fi H), (IH Hs N').
    reflexivity. }
  rewrite E, assign_all_fresh.
  - cbn [app]. unfold Dict.values. rewrite !map_map.
    apply map_ext. reflexivity.
  - cbn [app]. rewrite !map_map. cbn [keyed fst read_back rel_path].
    exact N.
Qed.

(** the parse of the serialization: the records as they are read back,
    in the same order *)
Lemma parse_serialize fis :
  forallb readable fis = true ->
  NoDup (map rel_path fis) ->
  parse (serialize fis) = map read_back fis.
Proof.
  intros H N. unfold parse, _parse_text_to_tree.
  destruct fis as [| fi fis]; [reflexivity |].
  assert (B : is_empty (strip (serialize (fi :: fis))) = false).
  { cbn [forallb] in H. apply andb_true_iff in H. destruct H as [H _].
    destruct (block_of_shape fi H) as [m0 Em].
    unfold serialize, _regenerate_combined_text. cbn [map].
    destruct (map block_of fis); cbn [PyStr.join]; rewrite Em;
      apply strip_nonempty; reflexivity. }
  rewrite B. unfold CODE_BLOCK_PATTERN_finditer.
  rewrite (finditer_serialize _ H). apply collect_readable; assumption.
Qed.

Lemma block_of_stripped fi : block_of (stripped fi) = block_of fi.
Proof.
  unfold block_of, stripped. cbn [comment_symbol rel_path language content].
  rewrite strip_idem. reflexivity.
Qed.

Lemma serialize_stripped fis : serialize (map stripped fis) = serialize fis.
Proof.
  unfold serialize, _regenerate_combined_text. rewrite map_map.
  f_equal. apply map_ext. intros fi. apply block_of_stripped.
Qed.

Lemma codec_safe_all_readable fis :
  forallb codec_safe fis = true -> forallb readable fis = true.
Proof.
  rewrite !forallb_forall. intros H fi Hfi.
  apply (codec_safe_readable fi (H fi Hfi)).
Qed.

(** a record with a line symbol is read back with its symbol *)
Lemma read_back_codec_safe fis :
  forallb codec_safe fis = true -> map read_back fis = map stripped fis.
Proof.
  rewrite forallb_forall. intros H. apply map_ext_in. intros fi Hfi.
  destruct (codec_safe_readable fi (H fi Hfi)) as (_ & _ & M).
  unfold read_back, stripped. rewrite M. reflexivity.
Qed.

Lemma triple_read_back fis :
  map triple (map read_back fis) = map triple (map stripped fis).
Proof. rewrite !map_map. reflexivity. Qed.
End ReadBack.

(** C2, as the code has it.  For every collection of records with
    distinct paths that are readable (see [readable]), parsing the
    serialization yields the records in the same order with the same
    paths and languages and with each content stripped of the white
    space around it; a line symbol is read back too, a markup symbol is
    read back as no symbol.  So the parsed collection is equivalent to
    the collection of the records with stripped contents, and to the
    collection itself when the contents are already stripped. *)
Theorem C2_round_trip_up_to_stripping :
  forall fis : list Main.FileInfo,
    NoDup (map Main.rel_path fis) ->
    forallb readable fis = true ->
    Main.parse (Main.serialize fis) = map read_back fis
    /\ equivalent (Main.parse (Main.serialize fis)) (map stripped fis)
    /\ ((forall fi, In fi fis -> strip (Main.content fi) = Main.content fi) ->
        equivalent (Main.parse (Main.serialize fis)) fis).
Proof.
  intros fis N H. pose proof (parse_serialize fis H N) as E.
  split; [exact E |]. unfold equivalent. rewrite E, triple_read_back.
  split; [apply Permutation_refl |].
  intros S. replace (map triple (map stripped fis)) with (map triple fis);
    [apply Permutation_refl |].
  rewrite map_map. apply map_ext_in. intros fi Hfi.
  unfold triple, stripped. cbn [Main.rel_path Main.content Main.language].
  rewrite (S fi Hfi). reflexivity.
Qed.

Lemma two_records_distinct : NoDup (map Main.rel_path two_records).
Proof.
  constructor.
  - intros [H | []]. vm_compute in H. discriminate H.
  - constructor; [intros [] | constructor].
Qed.

Lemma three_records_distinct : NoDup (map Main.rel_path three_records).
Proof.
  constructor.
  - intros [H | [H | []]]; vm_compute in H; discriminate H.
  - constructor.
    + intros [H | []]. vm_compute in H. discriminate H.
    + constructor; [intros [] | constructor].
Qed.

Lemma C2_round_trip_up_to_stripping_witness :
  NoDup (map Main.rel_path three_records)
  /\ forallb readable three_records = true
  /\ Main.parse (Main.serialize three_records)
     = [Main.mkFileInfo "src/main.py" "print(1)" "python" "#";
        Main.mkFileInfo "web/app.js" "let x = 1;" "javascript" "//";
        Main.mkFileInfo "web/index.html" "<p>hello</p>" "html" ""].
Proof.
  split; [exact three_records_distinct |]. split; [reflexivity |].
  destruct (C2_round_trip_up_to_stripping three_records
              three_records_distinct eq_refl) as [E _].
  rewrite E. reflexivity.
Defined.

(** The record of the end-to-end example against C2 as it is stated:
    its content ends with a newline, and the record parsed from its
    serialization has not the same content. *)
Lemma C2_counterexample :
  ~ equivalent (Main.parse (Main.serialize [example_record]))
      [example_record].
Proof.
  unfold equivalent. intros P.
  apply Permutation_length_1 in P. vm_compute in P. discriminate P.
Qed.

(** C5, as the code has it.  For every collection of records with
    distinct paths that are readable and have a line symbol (see
    [codec_safe]), serializing, parsing the text and serializing the
    parsed records gives the text of the first serialization again. *)
Theorem C5_serialize_parse_serialize :
  forall fis : list Main.FileInfo,
    NoDup (map Main.rel_path fis) ->
    forallb codec_safe fis = true ->
    Main.serialize (Main.parse (Main.serialize fis)) = Main.serialize fis.
Proof.
  intros fis N H.
  rewrite (parse_serialize fis (codec_safe_all_readable fis H) N).
  rewrite (read_back_codec_safe fis H). apply serialize_stripped.
Qed.

Lemma C5_serialize_parse_serialize_witness :
  NoDup (map Main.rel_path two_records)
  /\ forallb codec_safe two_records = true
  /\ Main.serialize (Main.parse (Main.serialize two_records))
     = unlines ["```python"; "# src/main.py"; "print(1)"; "```"; "";
                "```javascript"; "// web/app.js"; "let x = 1;"; "```"; ""].
Proof.
  split; [exact two_records_distinct |]. split; [reflexivity |].
  rewrite (C5_serialize_parse_serialize two_records
             two_records_distinct eq_refl).
  reflexivity.
Defined.

(** A record without comment symbol against C5 as it is stated: its
    block has no path line, the parse takes the first line of the
    content for the path, and the second serialization differs from the
    first. *)
Lemma C5_counterexample :
  Main.serialize (Main.parse (Main.serialize [json_record]))
  <> Main.serialize [json_record].
Proof. vm_compute. discriminate. Qed.

(** what the codec of [main.py] makes of the other comment symbols of
    the default suffix map: the markup symbol is read back as no
    symbol, so the second serialization has no path line *)
Example markup_symbol_is_lost :
  Main.parse (Main.serialize [html_record])
    = [Main.mkFileInfo "web/index.html" "<p>hello</p>" "html" ""]
  /\ Main.serialize (Main.parse (Main.serialize [html_record]))
     = unlines ["```html"; "<p>hello</p>"; "```"; ""].
Proof. split; reflexivity. Qed.

Example block_comment_symbol_is_misread :
  Main.parse (Main.serialize [Main.mkFileInfo "a.css" "p {}" "css" "/*"])
  = [Main.mkFileInfo "*" "p {}" "css" "/"].
Proof. reflexivity. Qed.

(* ================================================================== *)
(** * Further properties of the code *)
(* ================================================================== *)

Import Further.

(** ** What the parse of [main.py] accepts *)

Section Accepts.
Import Main.

Lemma marker_and_token_some a t :
  isspace a = false -> marker_and_token (a :: t) <> None.
Proof.
  intros Ha. unfold marker_and_token.
  destruct (drop_while isspace (drop_while marker_char (a :: t)))
    as [| x u4] eqn:E; [| discriminate].
  destruct (take_while marker_char (a :: t)) as [| y r] eqn:R.
  - exfalso. cbn [take_while drop_while] in R, E.
    destruct (marker_char a); [discriminate R |].
    cbn [drop_while] in E. rewrite Ha in E. discriminate E.
  - cbn [rev]. destruct (rev r ++ [y]) as [| c [| d l]] eqn:K;
      [| discriminate | discriminate].
    destruct (rev r); discriminate K.
Qed.

Lemma path_comment_match_none line :
  PATH_COMMENT_PATTERN_match line = None <-> blank line = true.
Proof.
  unfold PATH_COMMENT_PATTERN_match, blank.
  assert (B : forall s, drop_while isspace s = [] <-> forallb isspace s = true).
  { induction s as [| c s IH]; cbn; [tauto |].
    destruct (isspace c); cbn; [exact IH |].
    split; discriminate. }
  rewrite <- B.
  destruct (drop_while isspace line) as [| a t] eqn:E.
  - split; reflexivity.
  - pose proof (drop_while_head isspace line a t E) as Ha.
    split; [| discriminate]. intros H. exfalso.
    destruct (startswith (a :: t) "<!--").
    + destruct (drop_while isspace (skipn 4 (a :: t))) as [| b u] eqn:U.
      * apply (marker_and_token_some a t Ha H).
      * apply (marker_and_token_some b u
                 (drop_while_head isspace _ b u U) H).
    + apply (marker_and_token_some a t Ha H).
Qed.
End Accepts.

Section AcceptsAll.
Import Main.

Lemma split1_head a r :
  a <> LF -> exists h, fst (split1 LF (a :: r)) = a :: h.
Proof.
  intros H. cbn [split1]. destruct (Ascii.eqb a LF) eqn:E.
  - apply Ascii.eqb_eq in E. contradiction.
  - destruct (split1 LF r) as [h t]. exists h. reflexivity.
Qed.

Lemma nonspace_head_not_LF a : isspace a = false -> a <> LF.
Proof. intros H ->. discriminate H. Qed.
End AcceptsAll.

(** X1.  The parse of [main.py] drops a block only when the block is
    blank: [PATH_COMMENT_PATTERN] matches every line that holds a
    character other than white space, so a block whose text is not
    blank always gives a record. *)
Theorem X1_only_blank_blocks_are_dropped :
  forall m : str * str,
    Main.parse_block m = None <-> strip (snd m) = [].
Proof.
  intros m. unfold Main.parse_block. cbv zeta.
  pose proof (strip_by_head isspace (snd m)) as Hd. fold (strip (snd m)) in Hd.
  destruct (strip (snd m)) as [| a r] eqn:S.
  - split; reflexivity.
  - destruct (split1_head a r (nonspace_head_not_LF a Hd)) as [h Eh].
    rewrite Eh.
    destruct (Main.PATH_COMMENT_PATTERN_match (a :: h)) as [[g1 g2] |] eqn:P.
    + split; discriminate.
    + apply path_comment_match_none in P. cbn in P. rewrite Hd in P.
      discriminate P.
Qed.

Section ParsedRecords.
Import Main.

Lemma take_while_forallb p s : forallb p (take_while p s) = true.
Proof.
  induction s as [| c s IH]; cbn; [reflexivity |].
  destruct (p c) eqn:E; cbn; [rewrite E; exact IH | reflexivity].
Qed.

Lemma forallb_removelast (p : ascii -> bool) s :
  forallb p s = true -> forallb p (removelast s) = true.
Proof.
  induction s as [| c s IH]; [reflexivity |].
  cbn [forallb]. rewrite andb_true_iff. intros [Hc Hs].
  destruct s as [| d s]; [reflexivity |].
  change (removelast (c :: d :: s)) with (c :: removelast (d :: s)).
  cbn [forallb]. rewrite Hc. exact (IH Hs).
Qed.

Lemma marker_and_token_groups u g1 g2 :
  marker_and_token u = Some (g1, g2) ->
  g2 <> [] /\ forallb nonspace g2 = true
  /\ match g1 with
     | Some r => r <> [] /\ forallb marker_char r = true
     | None => True
     end.
Proof.
  unfold marker_and_token.
  pose proof (take_while_forallb marker_char u) as M.
  destruct (drop_while isspace (drop_while marker_char u)) as [| x u4] eqn:E.
  - destruct (rev (take_while marker_char u)) as [| c [| d l]] eqn:R;
      [discriminate | |]; intros K; injection K as <- <-.
    + assert (Hc : marker_char c = true).
      { rewrite forallb_forall in M. apply M, in_rev. rewrite R.
        left; reflexivity. }
      split; [discriminate |]. split; [| exact I].
      cbn. unfold nonspace. rewrite (marker_not_space c Hc). reflexivity.
    + assert (Hc : marker_char c = true).
      { rewrite forallb_forall in M. apply M, in_rev. rewrite R.
        left; reflexivity. }
      split; [discriminate |]. split.
      * cbn. unfold nonspace. rewrite (marker_not_space c Hc). reflexivity.
      * split; [| apply forallb_removelast, M].
        apply (f_equal (@rev ascii)) in R. rewrite rev_involutive in R.
        rewrite R. cbn [rev]. rewrite removelast_last. intros Z.
        destruct (rev l); discriminate Z.
  - intros K. injection K as <- <-.
    pose proof (drop_while_head isspace _ x u4 E) as Hx.
    split; [cbn; unfold nonspace; rewrite Hx; discriminate |].
    split; [exact (take_while_forallb nonspace (x :: u4)) |].
    destruct (take_while marker_char u) as [| y r]; [exact I |].
    split; [discriminate | exact M].
Qed.

Lemma path_comment_groups line g1 g2 :
  PATH_COMMENT_PATTERN_match line = Some (g1, g2) ->
  g2 <> [] /\ forallb nonspace g2 = true
  /\ match g1 with
     | Some r => r <> [] /\ forallb marker_char r = true
     | None => True
     end.
Proof.
  unfold PATH_COMMENT_PATTERN_match.
  destruct (startswith (drop_while isspace line) "<!--").
  - destruct (drop_while isspace (skipn 4 (drop_while isspace line)));
      apply marker_and_token_groups.
  - apply marker_and_token_groups.
Qed.

Lemma strip_nonspace_run s :
  forallb nonspace s = true -> strip s = s.
Proof.
  intros H. unfold strip. apply strip_by_id.
  - destruct s as [| a r]; [exact I |].
    cbn in H. apply andb_true_iff in H. destruct H as [H _].
    apply negb_true_iff in H. exact H.
  - destruct (rev s) as [| c r] eqn:R; [exact I |].
    rewrite forallb_forall in H.
    assert (K : nonspace c = true)
      by (apply H, in_rev; rewrite R; left; reflexivity).
    apply negb_true_iff in K. exact K.
Qed.

Lemma parse_block_record m fi :
  parse_block m = Some fi ->
  language fi = fst m
  /\ rel_path fi <> []
  /\ forallb nonspace (rel_path fi) = true
  /\ forallb marker_char (comment_symbol fi) = true.
Proof.
  unfold parse_block. cbv zeta.
  destruct (PATH_COMMENT_PATTERN_match _) as [[g1 g2] |] eqn:P;
    [| discriminate].
  destruct (path_comment_groups _ _ _ P) as (A & B & C).
  intros K. injection K as <-. cbn [language rel_path comment_symbol].
  rewrite (strip_nonspace_run g2 B).
  split; [reflexivity |]. split; [exact A |]. split; [exact B |].
  destruct g1 as [r |]; [apply C | reflexivity].
Qed.

Lemma finditer_language flag k s l b :
  In (l, b) (finditer_from flag k s) -> forallb isword l = true.
Proof.
  revert k; induction s as [| c s IH]; intros k; cbn [finditer_from];
    [intros [] |].
  destruct k as [| k]; [| apply IH].
  destruct (block_match flag (c :: s)) as [[[l' b'] rest] |] eqn:M;
    [| apply IH].
  intros [K | K]; [| exact (IH _ K)].
  injection K as -> ->. unfold block_match in M.
  destruct (startswith (c :: s) fence); [| discriminate M].
  destruct (flag && is_empty _); [discriminate M |].
  destruct (drop_while isword _) as [| x s3]; [discriminate M |].
  destruct (Ascii.eqb x LF); [| discriminate M].
  destruct (lazy_body s3) as [[body r] |]; [| discriminate M].
  injection M as <- _ _. apply take_while_forallb.
Qed.

(** every record of a parse comes from a block of the text *)
Lemma parse_from_block text fi :
  In fi (parse text) ->
  exists m, In m (CODE_BLOCK_PATTERN_finditer text)
            /\ parse_block m = Some fi.
Proof.
  intros H. unfold parse in H.
  destruct (is_empty (strip text)) eqn:B.
  - unfold _parse_text_to_tree in H. rewrite B in H. destruct H.
  - pose proof (parse_characterization text [] B) as E.
    assert (S : In (Some fi) (map Some (_parse_text_to_tree text [])))
      by (apply in_map, H).
    rewrite E in S. apply in_map_iff in S. destruct S as (p & L & _).
    destruct (last_with_path _ _ _ L) as [_ I].
    unfold records_in_order in I. apply in_flat_map in I.
    destruct I as (m & Hm & Hfi). exists m. split; [exact Hm |].
    destruct (parse_block m) as [fi' |]; [| destruct Hfi].
    destruct Hfi as [-> | []]. reflexivity.
Qed.
End ParsedRecords.

(** X2.  Every record that [_parse_text_to_tree] yields has a language
    tag made of word characters, a path that is not empty and holds no
    white space, a comment symbol made of the marker characters only
    (possibly none), and a content that does not end with a newline. *)
Theorem X2_parsed_records_are_well_formed :
  forall (text : str) (fi : Main.FileInfo),
    In fi (Main.parse text) ->
    forallb isword (Main.language fi) = true
    /\ Main.rel_path fi <> []
    /\ forallb nonspace (Main.rel_path fi) = true
    /\ forallb Main.marker_char (Main.comment_symbol fi) = true
    /\ endswith (Main.content fi) nl = false.
Proof.
  intros text fi H.
  destruct (parse_from_block text fi H) as (m & Hm & P).
  destruct (parse_block_record m fi P) as (L & A & B & C).
  split.
  - rewrite L. destruct m as [l b].
    apply (finditer_language false 0 text l b Hm).
  - repeat split; try assumption.
    apply (parse_block_no_final_newline m fi P).
Qed.

Lemma X2_parsed_records_are_well_formed_witness :
  In (Main.mkFileInfo "src/main.py" "print(1)" "python" "#")
     (Main.parse example_document)
  /\ forallb nonspace (of_string "src/main.py") = true.
Proof.
  assert (H : In (Main.mkFileInfo "src/main.py" "print(1)" "python" "#")
                 (Main.parse example_document))
    by (left; reflexivity).
  split; [exact H |].
  destruct (X2_parsed_records_are_well_formed example_document _ H)
    as (_ & _ & B & _).
  exact B.
Defined.

(** X3.  The records of a parse have distinct paths, and there are no
    more records than blocks in the text. *)
Theorem X3_parsed_paths_are_distinct :
  forall text : str,
    NoDup (map Main.rel_path (Main.parse text))
    /\ length (Main.parse text)
       <= length (Main.CODE_BLOCK_PATTERN_finditer text).
Proof.
  intros text. unfold Main.parse.
  destruct (is_empty (strip text)) eqn:B.
  - unfold Main._parse_text_to_tree. rewrite B. split; [constructor |].
    apply Nat.le_0_l.
  - split.
    + rewrite (parse_paths text [] B). apply NoDup_first_occurrences.
    + rewrite <- (length_map Main.rel_path), (parse_paths text [] B).
      assert (F : forall ks, length (first_occurrences ks) <= length ks).
      { induction ks as [| k ks IH]; cbn; [lia |].
        pose proof (filter_length_le
                      (fun x => negb (str_eqb x k)) (first_occurrences ks)).
        lia. }
      eapply Nat.le_trans; [apply F |]. rewrite length_map.
      unfold records_in_order.
      induction (Main.CODE_BLOCK_PATTERN_finditer text) as [| m ms IH];
        cbn; [lia |].
      rewrite length_app. destruct (Main.parse_block m); cbn; lia.
Qed.

(** ** Reconstruction in [main.py] *)
Section Reconstruction.
Import Main MainReconstruct.

Lemma task_loop_accounting file_data :
  forall w is_cancelled output_path i fs st fs' st',
    task_loop w is_cancelled output_path i file_data fs st
      = (fs', Returned st') ->
    handled st' <= handled st + length file_data
    /\ ((forall j, is_cancelled j = false) ->
        handled st' = handled st + length file_data).
Proof.
  induction file_data as [| fi rest IH]; intros w c out i fs st fs' st'.
  - cbn [task_loop]. intros K. injection K as _ <-.
    cbn [length]. split; [lia | intros _; lia].
  - cbn [task_loop length]. destruct (c i) eqn:Ci.
    + intros K. injection K as _ <-. split; [lia |].
      intros N. rewrite N in Ci. discriminate Ci.
    + assert (step : forall fs0 st0,
                 handled st0 = S (handled st) ->
                 task_loop w c out (S i) rest fs0 st0 = (fs', Returned st') ->
                 handled st' <= handled st + S (length rest)
                 /\ ((forall j, c j = false) ->
                     handled st' = handled st + S (length rest))).
      { intros fs0 st0 E K. destruct (IH _ _ _ _ _ _ _ _ K) as [A B].
        split; [lia | intros N; specialize (B N); lia]. }
      destruct (_ || _).
      * apply step. unfold handled; cbn; lia.
      * destruct (Os.makedirs w _) as [[|] |].
        -- apply step. unfold handled; cbn; lia.
        -- discriminate.
        -- destruct (Os.write_file w _ _ fs) as [fs1 | [|]].
           ++ apply step. unfold handled; cbn; lia.
           ++ apply step. unfold handled; cbn; lia.
           ++ discriminate.
Qed.
End Reconstruction.

(** X4.  [_task_reconstruction] counts every record it deals with once,
    as created, as an error or as an invalid path: the three counts add
    up to at most the number of records, and to exactly that number
    when the worker is not cancelled. *)
Theorem X4_reconstruction_counts_every_record :
  forall w is_cancelled output_path file_data fs fs' st,
    MainReconstruct._task_reconstruction w is_cancelled output_path
      file_data fs = (fs', MainReconstruct.Returned st) ->
    handled st <= length file_data
    /\ ((forall j, is_cancelled j = false) ->
        handled st = length file_data).
Proof.
  intros w c out fd fs fs' st K.
  apply (task_loop_accounting fd w c out 0 fs (MainReconstruct.mkStats 0 0 0)
           fs' st K).
Qed.

Lemma X4_reconstruction_counts_every_record_witness :
  handled (MainReconstruct.mkStats 1 0 1) = 2.
Proof.
  refine (proj2 (X4_reconstruction_counts_every_record Os.permissive
            MainReconstruct.never "/out"
            [Main.mkFileInfo "a/b.py" "x" "python" "#";
             Main.mkFileInfo "../c.py" "y" "python" "#"]
            [] _ (MainReconstruct.mkStats 1 0 1) _) _).
  - vm_compute. reflexivity.
  - intros j. reflexivity.
Defined.

(** *** Paths under the output directory *)
Section Normpath.
Import OsPath.

Lemma split_by_nonempty p s : split_by p s <> [].
Proof.
  destruct s as [| c r]; cbn; [discriminate |].
  destruct (p c); [discriminate |].
  destruct (split_by p r); discriminate.
Qed.

Lemma split_by_sep_app p a c b :
  p c = true -> split_by p (a ++ c :: b) = split_by p a ++ split_by p b.
Proof.
  intros Hc. induction a as [| x a IH]; cbn [app split_by].
  - rewrite Hc. reflexivity.
  - destruct (p x); [rewrite IH; reflexivity |].
    rewrite IH. pose proof (split_by_nonempty p a) as N.
    destruct (split_by p a) as [| w ws]; [contradiction |]. reflexivity.
Qed.

Lemma split_by_pieces p s x c :
  In x (split_by p s) -> In c x -> p c = false.
Proof.
  revert x; induction s as [| y s IH]; intros x; cbn [split_by].
  - intros [<- | []] [].
  - destruct (p y) eqn:E.
    + intros [<- | H]; [intros [] | exact (IH x H)].
    + pose proof (split_by_nonempty p s) as N.
      destruct (split_by p s) as [| w ws]; [contradiction |].
      intros [<- | H].
      * intros [<- | Hc]; [exact E |]. apply (IH w); [left; reflexivity | exact Hc].
      * apply IH. right. exact H.
Qed.

Lemma split_by_whole p s :
  (forall c, In c s -> p c = false) -> split_by p s = [s].
Proof.
  induction s as [| y s IH]; intros H; [reflexivity |].
  cbn [split_by]. rewrite (H y) by (left; reflexivity).
  rewrite IH; [reflexivity |]. intros c Hc. apply H. right. exact Hc.
Qed.

Lemma in_removelast (A : Type) (x : A) l : In x (removelast l) -> In x l.
Proof.
  induction l as [| a l IH]; [intros [] |].
  destruct l as [| b l]; [intros [] |].
  change (removelast (a :: b :: l)) with (a :: removelast (b :: l)).
  intros [<- | H]; [left; reflexivity | right; exact (IH H)].
Qed.

Lemma norm_step_in n st comp x :
  In x (norm_step n st comp) ->
  In x st \/ (x = comp /\ is_empty comp = false).
Proof.
  unfold norm_step. destruct (is_empty comp) eqn:E; cbn [orb].
  - left. assumption.
  - destruct (str_eqb comp "."); [left; assumption |].
    destruct (_ || _).
    + intros H. apply in_app_or in H. destruct H as [H | [<- | []]];
        [left; exact H | right; split; reflexivity].
    + intros H. left. apply (in_removelast _ _ _ H).
Qed.

Lemma norm_fold_in n ps :
  forall st x, In x (fold_left (norm_step n) ps st) ->
               In x st \/ (In x ps /\ is_empty x = false).
Proof.
  induction ps as [| c ps IH]; intros st x; cbn [fold_left].
  - left. assumption.
  - intros H. destruct (IH _ _ H) as [K | [K E]].
    + destruct (norm_step_in _ _ _ _ K) as [K' | [-> E]];
        [left; exact K' | right; split; [left; reflexivity | exact E]].
    + right. split; [right; exact K | exact E].
Qed.

(** without a component of two dots the loop only appends *)
Lemma norm_fold_no_dotdot n ps :
  existsb (str_eqb "..") ps = false ->
  forall st,
    fold_left (norm_step n) ps st
    = st ++ filter (fun c => negb (is_empty c || str_eqb c ".")) ps.
Proof.
  induction ps as [| c ps IH]; intros H st; cbn [fold_left filter].
  - symmetry. apply app_nil_r.
  - cbn [existsb] in H. apply orb_false_iff in H. destruct H as [Hc Hps].
    rewrite (IH Hps). unfold norm_step.
    destruct (is_empty c || str_eqb c ".") eqn:E; cbn [negb].
    + reflexivity.
    + rewrite (str_eqb_sym c ".."), Hc. cbn [negb orb].
      rewrite <- app_assoc. reflexivity.
Qed.

Lemma endswith_last s c : endswith s [c] = true -> exists a, s = a ++ [c].
Proof.
  destruct s as [| x s] using rev_ind; [discriminate |].
  rewrite endswith_snoc. intros E. apply Ascii.eqb_eq in E. subst x.
  exists s. reflexivity.
Qed.

Lemma join2_relative a b :
  startswith b [sep] = false -> is_empty a = false ->
  exists a' t, a = a' ++ t /\ join2 a b = a' ++ sep :: b
               /\ (t = [] \/ t = [sep]).
Proof.
  intros Hb Ha. unfold join2. rewrite Hb, Ha. cbn [orb].
  destruct (endswith a [sep]) eqn:E.
  - destruct (endswith_last _ _ E) as [a' ->]. exists a', [sep].
    split; [reflexivity |]. split; [| right; reflexivity].
    rewrite <- app_assoc. reflexivity.
  - exists a, []. split; [symmetry; apply app_nil_r |].
    split; [reflexivity | left; reflexivity].
Qed.

Lemma norm_fold_join n a b :
  startswith b [sep] = false -> is_empty a = false ->
  fold_left (norm_step n) (split sep (join2 a b)) []
  = fold_left (norm_step n) (split sep b)
      (fold_left (norm_step n) (split sep a) []).
Proof.
  intros Hb Ha. destruct (join2_relative a b Hb Ha) as (a' & t & -> & -> & Ht).
  unfold split. rewrite split_by_sep_app by apply Ascii.eqb_refl.
  rewrite fold_left_app. f_equal.
  destruct Ht as [-> | ->].
  - rewrite app_nil_r. reflexivity.
  - rewrite split_by_sep_app by apply Ascii.eqb_refl.
    rewrite fold_left_app. reflexivity.
Qed.

Lemma initial_slashes_cons x r :
  initial_slashes (x :: r)
  = if Ascii.eqb "/" x
    then (if startswith r [sep] && negb (startswith r [sep; sep])
          then 2 else 1)
    else 0.
Proof.
  unfold initial_slashes.
  cbn [of_string list_ascii_of_string startswith].
  destruct (Ascii.eqb "/" x); cbn [andb]; reflexivity.
Qed.

Lemma startswith_two b c :
  startswith b [c] = false -> startswith b [c; c] = false.
Proof.
  destruct b as [| y b]; [reflexivity |]. cbn [startswith].
  rewrite andb_true_r. intros ->. reflexivity.
Qed.

Lemma endswith_two x y c : endswith [x; y] [c] = Ascii.eqb c y.
Proof. exact (endswith_snoc [x] y c). Qed.

Lemma initial_slashes_join a b :
  isabs a = true -> startswith b [sep] = false ->
  initial_slashes (join2 a b) = initial_slashes a.
Proof.
  intros Ha Hb.
  assert (Ea : is_empty a = false) by (destruct a; [discriminate | reflexivity]).
  unfold join2. rewrite Hb, Ea. cbn [orb].
  destruct a as [| x [| y [| z a]]]; [discriminate | | |].
  - unfold isabs in Ha. cbn [startswith] in Ha. rewrite andb_true_r in Ha.
    change (endswith [x] [sep]) with (endswith ([] ++ [x]) [sep]).
    rewrite (endswith_snoc [] x sep), Ha. cbn [app].
    rewrite !initial_slashes_cons, Hb, (startswith_two b sep Hb).
    reflexivity.
  - rewrite endswith_two.
    destruct (Ascii.eqb sep y) eqn:Ey; cbn [app];
      rewrite !initial_slashes_cons; cbn [startswith];
      rewrite Ey; cbn [andb]; [| reflexivity].
    destruct b as [| c b]; [reflexivity |].
    cbn [startswith] in Hb. rewrite Hb. reflexivity.
  - destruct (endswith (x :: y :: z :: a) [sep]); cbn [app];
      rewrite !initial_slashes_cons; reflexivity.
Qed.

Lemma initial_slashes_abs p : isabs p = true -> 1 <= initial_slashes p.
Proof.
  unfold isabs, initial_slashes. intros H.
  change (startswith p "/") with (startswith p [sep]). rewrite H.
  destruct (_ && _); lia.
Qed.

Lemma normpath_abs p :
  isabs p = true ->
  normpath p
  = repeat sep (initial_slashes p) ++ PyStr.join [sep] (norm_comps p).
Proof.
  intros H. pose proof (initial_slashes_abs p H) as N.
  unfold normpath.
  destruct p as [| c p]; [discriminate H |]. cbn [is_empty].
  fold (initial_slashes (c :: p)). cbv zeta. fold (norm_comps (c :: p)).
  destruct (initial_slashes (c :: p)) as [| n]; [lia |]. reflexivity.
Qed.

Lemma split_join_comps comps :
  (forall x, In x comps ->
             is_empty x = false /\ forall c, In c x -> Ascii.eqb sep c = false) ->
  filter (fun c => negb (is_empty c)) (split sep (PyStr.join [sep] comps))
  = comps.
Proof.
  induction comps as [| x comps IH]; intros H; [reflexivity |].
  destruct (H x (or_introl eq_refl)) as [Ex Sx].
  destruct comps as [| y comps].
  - cbn [PyStr.join]. unfold split. rewrite (split_by_whole _ _ Sx).
    cbn [filter]. rewrite Ex. reflexivity.
  - change (PyStr.join [sep] (x :: y :: comps))
      with (x ++ sep :: PyStr.join [sep] (y :: comps)).
    unfold split. rewrite (split_by_app _ _ _ _ Sx (Ascii.eqb_refl sep)).
    cbn [filter]. rewrite Ex. cbn [negb]. f_equal.
    apply IH. intros z Hz. apply H. right. exact Hz.
Qed.

Lemma split_leading_seps n s :
  filter (fun c => negb (is_empty c)) (split sep (repeat sep n ++ s))
  = filter (fun c => negb (is_empty c)) (split sep s).
Proof.
  induction n as [| n IH]; [reflexivity |].
  cbn [repeat app]. unfold split. cbn [split_by].
  rewrite Ascii.eqb_refl. cbn [filter is_empty negb]. exact IH.
Qed.

Lemma norm_comps_clean p x :
  In x (norm_comps p) ->
  is_empty x = false /\ forall c, In c x -> Ascii.eqb sep c = false.
Proof.
  intros H. unfold norm_comps in H.
  destruct (norm_fold_in _ _ _ _ H) as [[] | [K E]].
  split; [exact E |]. intros c Hc.
  apply (split_by_pieces _ _ _ _ K Hc).
Qed.

Lemma components_abs p : isabs p = true -> Os.components p = norm_comps p.
Proof.
  intros H. unfold Os.components. rewrite (normpath_abs p H).
  rewrite split_leading_seps. apply split_join_comps.
  apply norm_comps_clean.
Qed.

Lemma list_prefix_app a b : Os.list_prefix a (a ++ b) = true.
Proof.
  induction a as [| x a IH]; [reflexivity |].
  cbn. rewrite str_eqb_refl. exact IH.
Qed.

Lemma isabs_join2 a b : isabs a = true -> isabs (join2 a b) = true.
Proof.
  unfold join2, isabs. intros H. destruct (startswith b [sep]) eqn:B;
    [exact B |].
  destruct a as [| x a]; [discriminate H |].
  destruct (_ || _); exact H.
Qed.

(** a relative path without a component of two dots, joined to an
    absolute directory, lies in that directory *)
Lemma join2_within root rel :
  isabs root = true -> isabs rel = false ->
  existsb (str_eqb "..") (split "/" rel) = false ->
  Os.within root (join2 root rel) = true.
Proof.
  intros Hr Hrel Hd. unfold Os.within.
  rewrite (components_abs root Hr),
          (components_abs _ (isabs_join2 root rel Hr)).
  unfold norm_comps. rewrite (initial_slashes_join root rel Hr Hrel).
  assert (Er : is_empty root = false)
    by (destruct root; [discriminate | reflexivity]).
  rewrite (norm_fold_join _ root rel Hrel Er).
  rewrite (norm_fold_no_dotdot _ _ Hd). apply list_prefix_app.
Qed.
End Normpath.

Section ReconstructionSafety.
Import Main MainReconstruct.

Lemma keys_set_in (V : Type) k (v : V) d x :
  In x (Dict.keys (Dict.set k v d)) -> In x (Dict.keys d) \/ x = k.
Proof.
  rewrite keys_set. destruct (has_key k d); [left; assumption |].
  intros H. apply in_app_or in H. destruct H as [H | [<- | []]];
    [left; exact H | right; reflexivity].
Qed.

Lemma write_file_keys w p text fs fs' x :
  Os.write_file w p text fs = inl fs' ->
  In x (Dict.keys fs') -> In x (Dict.keys fs) \/ x = p.
Proof.
  unfold Os.write_file. destruct (Os.has_nul p); [discriminate |].
  destruct (Os.file_ok w p); [| discriminate].
  intros K. injection K as <-. apply keys_set_in.
Qed.

Lemma task_loop_written file_data :
  forall w is_cancelled output_path i fs st fs' o,
    task_loop w is_cancelled output_path i file_data fs st = (fs', o) ->
    forall k, In k (Dict.keys fs') ->
      In k (Dict.keys fs)
      \/ exists fi, In fi file_data
           /\ k = OsPath.join2 output_path (rel_path fi)
           /\ existsb (str_eqb "..") (split "/" (rel_path fi)) = false
           /\ INVALID_PATH_CHARS_PATTERN_search (rel_path fi) = false
           /\ Dict.get k fs' <> None.
Proof.
  induction file_data as [| fi rest IH]; intros w c out i fs st fs' o.
  - cbn [task_loop]. intros K. injection K as <- _. intros k H.
    left. exact H.
  - cbn [task_loop]. destruct (c i).
    + intros K. injection K as <- _. intros k H. left. exact H.
    + assert (skip : forall st0,
                 task_loop w c out (S i) rest fs st0 = (fs', o) ->
                 forall k, In k (Dict.keys fs') ->
                   In k (Dict.keys fs)
                   \/ exists fi0, In fi0 (fi :: rest)
                        /\ k = OsPath.join2 out (rel_path fi0)
                        /\ existsb (str_eqb "..")
                             (split "/" (rel_path fi0)) = false
                        /\ INVALID_PATH_CHARS_PATTERN_search (rel_path fi0)
                           = false
                        /\ Dict.get k fs' <> None).
      { intros st0 K k H. destruct (IH _ _ _ _ _ _ _ _ K k H)
          as [A | (fi0 & I0 & R)]; [left; exact A |].
        right. exists fi0. split; [right; exact I0 | exact R]. }
      destruct (existsb (str_eqb "..") (split "/" (rel_path fi))
                || INVALID_PATH_CHARS_PATTERN_search (rel_path fi)) eqn:V.
      * apply skip.
      * apply orb_false_iff in V. destruct V as [V1 V2].
        destruct (Os.makedirs w _) as [[|] |].
        -- apply skip.
        -- intros K. injection K as <- _. intros k H. left. exact H.
        -- destruct (Os.write_file w _ _ fs) as [fs1 | [|]] eqn:W.
           ++ intros K k H.
              destruct (IH _ _ _ _ _ _ _ _ K k H) as [A | (fi0 & I0 & R)].
              ** destruct (write_file_keys _ _ _ _ _ _ W A) as [B | ->];
                   [left; exact B |].
                 right. exists fi. split; [left; reflexivity |].
                 split; [reflexivity |]. split; [exact V1 |].
                 split; [exact V2 |].
                 intros G. clear - G H.
                 induction fs' as [| [k' v'] d IHd]; [destruct H |].
                 cbn in G. destruct (str_eqb k' _) eqn:E; [discriminate G |].
                 destruct H as [H | H]; [| exact (IHd H G)].
                 cbn in H. subst k'. rewrite str_eqb_refl in E. discriminate E.
              ** right. exists fi0. split; [right; exact I0 | exact R].
           ++ apply skip.
           ++ intros K. injection K as <- _. intros k H. left. exact H.
Qed.
End ReconstructionSafety.

(** X5.  With an absolute output directory, whatever
    [_task_reconstruction] writes for records whose paths are relative
    lies in the output directory: the validation of the paths is enough
    for them.  (A record with an absolute path is not covered: its file
    is written at that path.) *)
Theorem X5_relative_records_stay_in_output_directory :
  forall w is_cancelled output_path file_data fs fs' o,
    OsPath.isabs output_path = true ->
    (forall fi, In fi file_data -> OsPath.isabs (Main.rel_path fi) = false) ->
    MainReconstruct._task_reconstruction w is_cancelled output_path
      file_data fs = (fs', o) ->
    forall k, In k (Dict.keys fs') ->
      In k (Dict.keys fs) \/ Os.within output_path k = true.
Proof.
  intros w c out fd fs fs' o Ho Hrel K k H.
  destruct (task_loop_written fd w c out 0 fs _ fs' o K k H)
    as [A | (fi & I & -> & V1 & _)]; [left; exact A |].
  right. apply join2_within; [exact Ho | exact (Hrel fi I) | exact V1].
Qed.

Lemma X5_relative_records_stay_in_output_directory_witness :
  In (of_string "/out/a/b.py") (Dict.keys [(of_string "/keep", of_string "z")])
  \/ Os.within "/out" "/out/a/b.py" = true.
Proof.
  refine (X5_relative_records_stay_in_output_directory Os.permissive
            MainReconstruct.never "/out"
            [Main.mkFileInfo "a/b.py" "x" "python" "#"]
            [(of_string "/keep", of_string "z")] _ _ _ _ _ "/out/a/b.py" _).
  - reflexivity.
  - intros fi [<- | []]. reflexivity.
  - vm_compute. reflexivity.
  - right. left. reflexivity.
Defined.

(** ** Exclusion rules and packing in [main.py] *)
Section ExclusionRules.
Import MainPack.

Lemma in_drop_while (p : ascii -> bool) s c :
  In c (drop_while p s) -> In c s.
Proof.
  induction s as [| x s IH]; [intros [] |]. cbn [drop_while].
  destruct (p x); [intros H; right; exact (IH H) | intros H; exact H].
Qed.

Lemma in_strip_by (p : ascii -> bool) s c : In c (strip_by p s) -> In c s.
Proof.
  unfold strip_by, rstrip_by, lstrip_by. intros H.
  apply in_rev, in_drop_while, in_rev in H.
  exact (in_drop_while p s c H).
Qed.

Lemma parsed_rule exclude_str r :
  In r (_parse_exclusions exclude_str) ->
  exists piece, In piece (split_by (char_in ("," ++ nl)) exclude_str)
                /\ r = strip piece
                /\ is_empty r = false /\ startswith r "#" = false.
Proof.
  unfold _parse_exclusions. rewrite filter_In, in_map_iff.
  intros [(piece & <- & I) F]. exists piece.
  apply andb_true_iff in F. destruct F as [F1 F2].
  apply negb_true_iff in F1, F2. repeat split; assumption.
Qed.

Lemma fold_rule_step_ext rel_path rel_path' is_dir is_dir' rules :
  (forall r, In r rules ->
     rule_matches rel_path is_dir r = rule_matches rel_path' is_dir' r) ->
  forall e, fold_left (rule_step rel_path is_dir) rules e
            = fold_left (rule_step rel_path' is_dir') rules e.
Proof.
  induction rules as [| r rules IH]; intros H e; [reflexivity |].
  cbn [fold_left]. rewrite !rule_step_spec, (H r (or_introl eq_refl)).
  apply IH. intros r' Hr'. apply H. right. exact Hr'.
Qed.

Lemma rule_matches_glob rel_path is_dir r :
  rule_matches rel_path is_dir r =
  if dir_only_rule r && negb is_dir then false
  else if negb (char_in (rule_glob r) "/")
       then Fnmatch.fnmatch (OsPath.basename rel_path) (rule_glob r)
       else Fnmatch.fnmatch rel_path (rule_glob r).
Proof.
  unfold rule_matches, dir_only_rule, rule_glob. cbv zeta.
  destruct (endswith _ "/"); reflexivity.
Qed.

Lemma fold_rule_step_spare rel_path rules :
  forall e, fold_left (rule_step rel_path false) rules e
            = fold_left (rule_step rel_path false)
                (filter (fun r => negb (dir_only_rule r)) rules) e.
Proof.
  induction rules as [| r rules IH]; intros e; [reflexivity |].
  cbn [fold_left filter]. destruct (dir_only_rule r) eqn:D; cbn [negb].
  - rewrite rule_step_spec, rule_matches_glob, D. cbn [andb negb]. apply IH.
  - cbn [fold_left]. apply IH.
Qed.

Lemma fold_rule_step_negations rel_path is_dir rules :
  (forall r, In r rules -> rule_negate r = true) ->
  fold_left (rule_step rel_path is_dir) rules false = false.
Proof.
  induction rules as [| r rules IH]; intros H; [reflexivity |].
  cbn [fold_left]. rewrite rule_step_spec, (H r (or_introl eq_refl)).
  cbn [negb]. destruct (rule_matches rel_path is_dir r);
    apply IH; intros r' Hr'; apply H; right; exact Hr'.
Qed.
End ExclusionRules.

(** X6.  Every rule that [_parse_exclusions] returns is the stripped
    text of an item of the input: it is not empty, it has no white
    space at either end, it is not a comment, and it holds neither a
    comma nor a newline. *)
Theorem X6_parsed_rules_are_clean :
  forall (exclude_str r : str),
    In r (MainPack._parse_exclusions exclude_str) ->
    r <> [] /\ strip r = r /\ startswith r "#" = false
    /\ ~ In ","%char r /\ ~ In LF r.
Proof.
  intros e r H. destruct (parsed_rule e r H) as (piece & I & -> & N & C).
  split; [intros Z; rewrite Z in N; discriminate N |].
  split; [apply strip_idem |]. split; [exact C |].
  assert (K : forall c, char_in ("," ++ nl) c = true -> ~ In c (strip piece)).
  { intros c Hc Hin. apply in_strip_by in Hin.
    rewrite (split_by_pieces _ _ _ _ I Hin) in Hc. discriminate Hc. }
  split; apply K; reflexivity.
Qed.

Lemma X6_parsed_rules_are_clean_witness :
  strip (of_string "!important.log") = of_string "!important.log".
Proof.
  refine (proj1 (proj2 (X6_parsed_rules_are_clean
            (unlines ["# logs"; " *.log , !important.log "; "build/"])
            "!important.log" _))).
  vm_compute. right. left. reflexivity.
Defined.

(** X7.  A rule written for directories only (one that ends with a
    slash) has no effect on the verdict of [_is_excluded] for a file:
    the verdict is the one of the other rules. *)
Theorem X7_directory_rules_spare_files :
  forall (rel_path : str) (rules : list str),
    MainPack._is_excluded rel_path false rules
    = MainPack._is_excluded rel_path false
        (filter (fun r => negb (dir_only_rule r)) rules).
Proof.
  intros rel rules. apply fold_rule_step_spare.
Qed.

(** X8.  Rules that are all negations exclude nothing: [_is_excluded]
    answers [False] for every path. *)
Theorem X8_negations_alone_exclude_nothing :
  forall (rel_path : str) (is_dir : bool) (rules : list str),
    (forall r, In r rules -> rule_negate r = true) ->
    MainPack._is_excluded rel_path is_dir rules = false.
Proof.
  intros rel d rules H. apply fold_rule_step_negations, H.
Qed.

Lemma X8_negations_alone_exclude_nothing_witness :
  MainPack._is_excluded "a/keep.log" false (strs ["!*.log"; "!a/"]) = false.
Proof.
  apply X8_negations_alone_exclude_nothing.
  intros r [<- | [<- | []]]; reflexivity.
Defined.

(** X9.  When no rule holds a slash (but at its end), the verdict of
    [_is_excluded] depends on the last component of the path only: such
    rules apply to a name at any depth. *)
Theorem X9_rules_without_slash_apply_at_any_depth :
  forall (rel_path rel_path' : str) (is_dir : bool) (rules : list str),
    (forall r, In r rules -> char_in (rule_glob r) "/" = false) ->
    OsPath.basename rel_path = OsPath.basename rel_path' ->
    MainPack._is_excluded rel_path is_dir rules
    = MainPack._is_excluded rel_path' is_dir rules.
Proof.
  intros rel rel' d rules H B. apply fold_rule_step_ext.
  intros r Hr. rewrite !rule_matches_glob, (H r Hr), B. reflexivity.
Qed.

Lemma X9_rules_without_slash_apply_at_any_depth_witness :
  MainPack._is_excluded "debug.log" false (strs ["*.log"; "!keep.log"])
  = MainPack._is_excluded "a/b/debug.log" false (strs ["*.log"; "!keep.log"]).
Proof.
  apply X9_rules_without_slash_apply_at_any_depth.
  - intros r [<- | [<- | []]]; reflexivity.
  - reflexivity.
Defined.

Section Gathering.
Import Tree MainPack.

Lemma node_induction (P : node -> Prop) :
  (forall name text, P (File name text)) ->
  (forall name children, Forall P children -> P (Dir name children)) ->
  forall n, P n.
Proof.
  intros HF HD. fix IH 1. intros [name text | name children].
  - apply HF.
  - apply HD. induction children as [| c cs IHc]; constructor.
    + apply IH.
    + exact IHc.
Qed.

Lemma walk_node_not_excluded patterns n :
  forall here p t,
    In (p, t) (walk_node patterns here n) ->
    _is_excluded p false patterns = false.
Proof.
  induction n as [name text | name children IH] using node_induction;
    intros here p t; cbn [walk_node]; [intros [] |].
  intros H. apply in_app_or in H. destruct H as [H | H];
    apply in_flat_map in H; destruct H as (c & Hc & H).
  - destruct c as [f text | d cs]; [| destruct H].
    destruct (_is_excluded (rel_join here f) false patterns) eqn:E;
      [destruct H |].
    destruct H as [K | []]. injection K as <- _. exact E.
  - destruct c as [f text | d cs]; [destruct H |].
    destruct (_is_excluded (rel_join here d) true patterns); [destruct H |].
    rewrite Forall_forall in IH. exact (IH _ Hc _ _ _ H).
Qed.

Lemma walk_node_count patterns n :
  forall here,
    match n with
    | Dir _ _ =>
        length (walk_node patterns here n) <= count_files_node n
        /\ (patterns = [] ->
            length (walk_node patterns here n) = count_files_node n)
    | File _ _ => True
    end.
Proof.
  induction n as [name text | name children IH] using node_induction;
    intros here; [exact I |].
  cbn [walk_node count_files_node]. rewrite length_app.
  induction children as [| c cs IHcs]; [cbn; split; [lia | reflexivity] |].
  apply Forall_cons_iff in IH. destruct IH as [Pc Pcs].
  specialize (IHcs Pcs). destruct IHcs as [A B].
  cbn [flat_map fold_right]. rewrite !length_app.
  destruct c as [f text | d ds].
  - cbn [length count_files_node app]. split.
    + destruct (_is_excluded (rel_join here f) false patterns);
        cbn [length]; lia.
    + intros ->. specialize (B eq_refl). cbn [length] in *.
      change (_is_excluded (rel_join here f) false []) with false.
      cbn [length]. lia.
  - specialize (Pc (rel_join here d)). destruct Pc as [C D].
    cbn [length app]. split.
    + destruct (_is_excluded (rel_join here d) true patterns);
        cbn [length]; lia.
    + intros ->. specialize (B eq_refl). specialize (D eq_refl).
      change (_is_excluded (rel_join here d) true []) with false.
      cbv iota. lia.
Qed.
End Gathering.

(** X10.  Every path that [_gather_source_files] returns is one that
    [_is_excluded] does not exclude as a file. *)
Theorem X10_gathered_files_are_not_excluded :
  forall (tree : list Tree.node) (exclude_patterns : list str)
         (p : str) (text : option str),
    In (p, text) (MainPack._gather_source_files tree exclude_patterns) ->
    MainPack._is_excluded p false exclude_patterns = false.
Proof.
  intros tree rules p t H.
  apply (walk_node_not_excluded rules (Tree.Dir "." tree) [] p t H).
Qed.

Lemma X10_gathered_files_are_not_excluded_witness :
  MainPack._is_excluded "src/a.py" false (strs ["*.log"; "build/"]) = false.
Proof.
  apply (X10_gathered_files_are_not_excluded
           [Tree.Dir "src" [Tree.File "a.py" (Some (of_string "x"));
                            Tree.File "a.log" None];
            Tree.Dir "build" [Tree.File "b.py" None]]
           (strs ["*.log"; "build/"]) "src/a.py" (Some (of_string "x"))).
  vm_compute. left. reflexivity.
Defined.

(** X11.  [_gather_source_files] returns at most as many paths as the
    tree has files, and, without rules, exactly as many: every file at
    any depth is listed once. *)
Theorem X11_gathering_lists_files_once :
  forall (tree : list Tree.node) (exclude_patterns : list str),
    length (MainPack._gather_source_files tree exclude_patterns)
      <= count_files tree
    /\ length (MainPack._gather_source_files tree []) = count_files tree.
Proof.
  intros tree rules. split.
  - apply (walk_node_count rules (Tree.Dir "." tree) []).
  - apply (walk_node_count [] (Tree.Dir "." tree) []). reflexivity.
Qed.

Section Extraction.
Import Main MainPack.

Lemma extract_loop_invariant suffix_map selected_suffixes is_cancelled all :
  forall i st,
    let st' := extract_loop suffix_map selected_suffixes is_cancelled i all st in
    counted (pack_stats st') <= counted (pack_stats st) + length all
    /\ ((forall j, is_cancelled j = false) ->
        counted (pack_stats st')
          + length (filter (unmapped suffix_map selected_suffixes)
                      (map fst all))
        = counted (pack_stats st) + length all)
    /\ (length (new_file_data st) = extracted (pack_stats st) ->
        length (new_file_data st') = extracted (pack_stats st'))
    /\ (length (opened st)
          = extracted (pack_stats st) + error (pack_stats st) ->
        length (opened st')
          = extracted (pack_stats st') + error (pack_stats st')).
Proof.
  induction all as [| [fpath text] rest IH]; intros i st.
  - cbn. repeat split; try lia; auto.
  - cbn [extract_loop map fst filter length]. cbv zeta.
    unfold unmapped at 1. unfold mapped, suffix_of.
    destruct (is_cancelled i) eqn:Ci.
    + split; [lia |].
      split; [intros N; rewrite N in Ci; discriminate Ci |].
      split; auto.
    + destruct (existsb _ selected_suffixes); cbn [negb andb].
      * destruct (Dict.get _ suffix_map) as [e |].
        -- destruct (entry_nonempty e); cbn [negb].
           ++ destruct text as [content |];
                match goal with
                | |- context [extract_loop _ _ _ _ rest ?s] =>
                    specialize (IH (S i) s)
                end;
                cbv zeta in IH; destruct IH as (A & B & C & D);
                cbn [pack_stats new_file_data opened] in *;
                unfold counted in *; cbn [extracted skipped_type error] in *;
                rewrite !length_app in *; cbn [length] in *;
                (split; [lia |]);
                (split; [intros N; specialize (B N); lia |]);
                (split; intros E; [apply C | apply D]; lia).
           ++ specialize (IH (S i) st). cbv zeta in IH.
              destruct IH as (A & B & C & D). cbn [negb length].
              split; [lia |].
              split; [intros N; specialize (B N); lia |].
              split; assumption.
        -- specialize (IH (S i) st). cbv zeta in IH.
           destruct IH as (A & B & C & D). cbn [negb length].
           split; [lia |].
           split; [intros N; specialize (B N); lia |].
           split; assumption.
      * match goal with
        | |- context [extract_loop _ _ _ _ rest ?s] =>
            specialize (IH (S i) s)
        end.
        cbv zeta in IH. destruct IH as (A & B & C & D).
        cbn [pack_stats new_file_data opened] in *.
        unfold counted in *. cbn [extracted skipped_type error] in *.
        split; [lia |].
        split; [intros N; specialize (B N); lia |].
        split; assumption.
Qed.
End Extraction.

Section ExtractionReads.
Import Main MainPack.

Lemma extract_loop_reads suffix_map selected_suffixes is_cancelled all :
  forall i st,
    let st' := extract_loop suffix_map selected_suffixes is_cancelled i all st in
    (forall p, In p (opened st') ->
       In p (opened st)
       \/ (In p (map fst all)
           /\ existsb (str_eqb (suffix_of p)) selected_suffixes = true
           /\ mapped suffix_map (suffix_of p) = true))
    /\ (forall fi, In fi (new_file_data st') ->
          In fi (new_file_data st)
          \/ exists e,
               In (rel_path fi, Some (content fi)) all
               /\ existsb (str_eqb (suffix_of (rel_path fi)))
                    selected_suffixes = true
               /\ Dict.get (suffix_of (rel_path fi)) suffix_map = Some e
               /\ language fi = or_default (entry_language e) "text"
               /\ comment_symbol fi = or_default (entry_comment e) "#").
Proof.
  induction all as [| [fpath text] rest IH]; intros i st.
  - cbn. split; intros; left; assumption.
  - cbn [extract_loop]. cbv zeta. fold (suffix_of fpath).
    assert (later :
      forall st0,
        (forall p, In p (opened st0) ->
           In p (opened st)
           \/ (p = fpath
               /\ existsb (str_eqb (suffix_of p)) selected_suffixes = true
               /\ mapped suffix_map (suffix_of p) = true)) ->
        (forall fi, In fi (new_file_data st0) ->
           In fi (new_file_data st)
           \/ exists e,
                (rel_path fi, Some (content fi)) = (fpath, text)
                /\ existsb (str_eqb (suffix_of (rel_path fi)))
                     selected_suffixes = true
                /\ Dict.get (suffix_of (rel_path fi)) suffix_map = Some e
                /\ language fi = or_default (entry_language e) "text"
                /\ comment_symbol fi = or_default (entry_comment e) "#") ->
        (forall p,
           In p (opened (extract_loop suffix_map selected_suffixes
                           is_cancelled (S i) rest st0)) ->
           In p (opened st)
           \/ (In p (map fst ((fpath, text) :: rest))
               /\ existsb (str_eqb (suffix_of p)) selected_suffixes = true
               /\ mapped suffix_map (suffix_of p) = true))
        /\ (forall fi,
              In fi (new_file_data (extract_loop suffix_map selected_suffixes
                                      is_cancelled (S i) rest st0)) ->
              In fi (new_file_data st)
              \/ exists e,
                   In (rel_path fi, Some (content fi)) ((fpath, text) :: rest)
                   /\ existsb (str_eqb (suffix_of (rel_path fi)))
                        selected_suffixes = true
                   /\ Dict.get (suffix_of (rel_path fi)) suffix_map = Some e
                   /\ language fi = or_default (entry_language e) "text"
                   /\ comment_symbol fi = or_default (entry_comment e) "#")).
    { intros st0 O R. specialize (IH (S i) st0). cbv zeta in IH.
      destruct IH as [IO IR]. split.
      - intros p Hp. destruct (IO p Hp) as [K | (K1 & K2)].
        + destruct (O p K) as [K' | (-> & K2)]; [left; exact K' |].
          right. split; [left; reflexivity | exact K2].
        + right. split; [right; exact K1 | exact K2].
      - intros fi Hfi. destruct (IR fi Hfi) as [K | (e & K1 & K2)].
        + destruct (R fi K) as [K' | (e & K1 & K2)]; [left; exact K' |].
          right. exists e. split; [left; symmetry; exact K1 | exact K2].
        + right. exists e. split; [right; exact K1 | exact K2]. }
    destruct (is_cancelled i).
    + split; intros; left; assumption.
    + destruct (existsb (str_eqb (suffix_of fpath)) selected_suffixes) eqn:S;
        cbn [negb].
      * destruct (Dict.get (suffix_of fpath) suffix_map) as [e |] eqn:G.
        -- destruct (entry_nonempty e) eqn:N.
           ++ assert (M : mapped suffix_map (suffix_of fpath) = true)
                by (unfold mapped; rewrite G; exact N).
              destruct text as [body |]; apply later;
                cbn [opened new_file_data].
              ** intros p Hp. apply in_app_or in Hp.
                 destruct Hp as [Hp | [<- | []]]; [left; exact Hp |].
                 right. repeat split; assumption.
              ** intros fi Hfi. apply in_app_or in Hfi.
                 destruct Hfi as [Hfi | [<- | []]]; [left; exact Hfi |].
                 right. exists e. cbn [rel_path content language
                                         comment_symbol].
                 repeat split; assumption.
              ** intros p Hp. apply in_app_or in Hp.
                 destruct Hp as [Hp | [<- | []]]; [left; exact Hp |].
                 right. repeat split; assumption.
              ** intros fi Hfi. left. exact Hfi.
           ++ apply later; intros; left; assumption.
        -- apply later; intros; left; assumption.
      * apply later; cbn [opened new_file_data]; intros; left; assumption.
Qed.
End ExtractionReads.

(** X12.  [_task_extraction] counts a file at most once, as extracted,
    as skipped for its type or as an error, and the files it counts
    nowhere, when it is not cancelled, are those whose suffix is
    selected although the suffix map has no entry to use for it.  The
    records are as many as the files extracted, and the files opened as
    many as the files extracted or in error. *)
Theorem X12_extraction_counts :
  forall (suffix_map : Dict.dict MainPack.map_entry)
         (selected_suffixes : list str) (is_cancelled : nat -> bool)
         (all_filepaths : list (str * option str)),
    counted (MainPack.pack_stats
               (MainPack._task_extraction suffix_map selected_suffixes
                  is_cancelled all_filepaths))
      <= length all_filepaths
    /\ ((forall j, is_cancelled j = false) ->
        counted (MainPack.pack_stats
                   (MainPack._task_extraction suffix_map selected_suffixes
                      is_cancelled all_filepaths))
          + length (filter (unmapped suffix_map selected_suffixes)
                      (map fst all_filepaths))
        = length all_filepaths)
    /\ length (MainPack.new_file_data
                 (MainPack._task_extraction suffix_map selected_suffixes
                    is_cancelled all_filepaths))
       = MainPack.extracted
           (MainPack.pack_stats
              (MainPack._task_extraction suffix_map selected_suffixes
                 is_cancelled all_filepaths))
    /\ length (MainPack.opened
                 (MainPack._task_extraction suffix_map selected_suffixes
                    is_cancelled all_filepaths))
       = MainPack.extracted
           (MainPack.pack_stats
              (MainPack._task_extraction suffix_map selected_suffixes
                 is_cancelled all_filepaths))
         + MainPack.error
             (MainPack.pack_stats
                (MainPack._task_extraction suffix_map selected_suffixes
                   is_cancelled all_filepaths)).
Proof.
  intros suffix_map selected c all.
  destruct (extract_loop_invariant suffix_map selected c all 0
              (MainPack.mkPack [] (MainPack.mkStats 0 0 0) []))
    as (A & B & C & D).
  cbv zeta in *. fold (MainPack._task_extraction suffix_map selected c all)
    in A, B, C, D.
  split; [exact A |]. split; [exact B |].
  split; [apply C | apply D]; reflexivity.
Qed.

(** X13.  [_task_extraction] opens a file only when its suffix, in
    lower case, is selected and has an entry to use in the suffix
    map. *)
Theorem X13_extraction_opens_selected_files_only :
  forall (suffix_map : Dict.dict MainPack.map_entry)
         (selected_suffixes : list str) (is_cancelled : nat -> bool)
         (all_filepaths : list (str * option str)) (p : str),
    In p (MainPack.opened
            (MainPack._task_extraction suffix_map selected_suffixes
               is_cancelled all_filepaths)) ->
    In p (map fst all_filepaths)
    /\ existsb (str_eqb (suffix_of p)) selected_suffixes = true
    /\ mapped suffix_map (suffix_of p) = true.
Proof.
  intros suffix_map selected c all p H.
  destruct (extract_loop_reads suffix_map selected c all 0
              (MainPack.mkPack [] (MainPack.mkStats 0 0 0) []))
    as [O _].
  destruct (O p H) as [[] | K]. exact K.
Qed.

Lemma X13_extraction_opens_selected_files_only_witness :
  mapped [(of_string ".py",
           MainPack.mkEntry (Some (of_string "python")) (Some (of_string "#")))]
         (suffix_of "src/A.PY") = true.
Proof.
  refine (proj2 (proj2 (X13_extraction_opens_selected_files_only
            [(of_string ".py",
              MainPack.mkEntry (Some (of_string "python"))
                               (Some (of_string "#")))]
            (strs [".py"]) MainReconstruct.never
            [(of_string "src/A.PY", Some (of_string "x"));
             (of_string "notes.txt", Some (of_string "y"))]
            "src/A.PY" _))).
  vm_compute. left. reflexivity.
Defined.

(** X14.  Every record that [_task_extraction] returns carries the
    path and the text of a file of the list, unchanged, with the
    language and the comment symbol that the suffix map gives for the
    suffix of the file, or [text] and [#] where the entry gives
    none. *)
Theorem X14_records_carry_file_and_map_entry :
  forall (suffix_map : Dict.dict MainPack.map_entry)
         (selected_suffixes : list str) (is_cancelled : nat -> bool)
         (all_filepaths : list (str * option str)) (fi : Main.FileInfo),
    In fi (MainPack.new_file_data
             (MainPack._task_extraction suffix_map selected_suffixes
                is_cancelled all_filepaths)) ->
    exists e,
      In (Main.rel_path fi, Some (Main.content fi)) all_filepaths
      /\ existsb (str_eqb (suffix_of (Main.rel_path fi)))
           selected_suffixes = true
      /\ Dict.get (suffix_of (Main.rel_path fi)) suffix_map = Some e
      /\ Main.language fi = MainPack.or_default (MainPack.entry_language e) "text"
      /\ Main.comment_symbol fi
         = MainPack.or_default (MainPack.entry_comment e) "#".
Proof.
  intros suffix_map selected c all fi H.
  destruct (extract_loop_reads suffix_map selected c all 0
              (MainPack.mkPack [] (MainPack.mkStats 0 0 0) []))
    as [_ R].
  destruct (R fi H) as [[] | K]. exact K.
Qed.

Lemma X14_records_carry_file_and_map_entry_witness :
  exists e,
    In (of_string "src/A.PY", Some (of_string "x"))
       [(of_string "src/A.PY", Some (of_string "x"))]
    /\ existsb (str_eqb (suffix_of "src/A.PY")) (strs [".py"]) = true
    /\ Dict.get (suffix_of "src/A.PY")
         [(of_string ".py", MainPack.mkEntry (Some (of_string "python")) None)]
       = Some e
    /\ of_string "python"
       = MainPack.or_default (MainPack.entry_language e) "text"
    /\ of_string "#" = MainPack.or_default (MainPack.entry_comment e) "#".
Proof.
  apply (X14_records_carry_file_and_map_entry
           [(of_string ".py", MainPack.mkEntry (Some (of_string "python")) None)]
           (strs [".py"]) MainReconstruct.never
           [(of_string "src/A.PY", Some (of_string "x"))]
           (Main.mkFileInfo "src/A.PY" "x" "python" "#")).
  vm_compute. left. reflexivity.
Defined.

(** ** Exclusion rules in [file_processor.py] *)
Section ProcessorExclusions.
Import FileProcessorPack.

Lemma lower_char_idem c : lower_char (lower_char c) = lower_char c.
Proof.
  destruct c as [[] [] [] [] [] [] [] []]; vm_compute; reflexivity.
Qed.

Lemma lower_idem s : lower (lower s) = lower s.
Proof.
  unfold lower. rewrite map_map. apply map_ext.
  intros c. apply lower_char_idem.
Qed.

Lemma parse_exclusions_fold items :
  forall acc,
    fold_left
      (fun (acc : list str * list str) item =>
         let (ps, ss) := classify item in (fst acc ++ ps, snd acc ++ ss))
      items acc
    = (fst acc ++ flat_map (fun item => fst (classify item)) items,
       snd acc ++ flat_map (fun item => snd (classify item)) items).
Proof.
  induction items as [| item items IH]; intros [ps ss]; cbn [fold_left flat_map].
  - rewrite !app_nil_r. reflexivity.
  - rewrite IH. destruct (classify item) as [p1 s1]. cbn [fst snd].
    rewrite !app_assoc. reflexivity.
Qed.

Lemma parse_exclusions_items exclude_str :
  parse_exclusions exclude_str
  = (flat_map (fun item => fst (classify item)) (exclusion_items exclude_str),
     flat_map (fun item => snd (classify item)) (exclusion_items exclude_str)).
Proof.
  unfold parse_exclusions. cbv zeta. fold (exclusion_items exclude_str).
  apply (parse_exclusions_fold (exclusion_items exclude_str) ([], [])).
Qed.

Lemma exclusion_item exclude_str item :
  In item (exclusion_items exclude_str) ->
  item <> [] /\ strip item = item /\ ~ In ","%char item.
Proof.
  unfold exclusion_items. rewrite filter_In, in_map_iff.
  intros [(piece & <- & I) F]. apply negb_true_iff in F.
  split; [intros Z; rewrite Z in F; discriminate F |].
  split; [apply strip_idem |].
  intros Hin. apply in_strip_by in Hin.
  pose proof (split_by_pieces _ _ _ _ I Hin) as K.
  rewrite Ascii.eqb_refl in K. discriminate K.
Qed.

Lemma classify_pattern item p :
  In p (fst (classify item)) -> p = item /\ startswith item "*." = false.
Proof.
  unfold classify. destruct (startswith item "*.").
  - destruct (is_empty _); intros [].
  - destruct (_ && _); [destruct (is_empty _); intros [] |].
    intros [<- | []]. split; reflexivity.
Qed.

Lemma classify_suffix item s :
  In s (snd (classify item)) -> s <> [] /\ lower s = s.
Proof.
  assert (K : forall x, In s (snd (if is_empty (lower x)
                                   then (@nil str, @nil str)
                                   else ([], [lower x]))) ->
                        s <> [] /\ lower s = s).
  { intros x. destruct (is_empty (lower x)) eqn:E; [intros [] |].
    intros [<- | []]. split; [| apply lower_idem].
    intros Z. rewrite Z in E. discriminate E. }
  unfold classify. destruct (startswith item "*."); [apply K |].
  destruct (_ && _); [apply K | intros []].
Qed.

Lemma existsb_incl (A : Type) (f : A -> bool) l l' :
  incl l l' -> existsb f l = true -> existsb f l' = true.
Proof.
  intros I. rewrite !existsb_exists. intros (x & Hx & E).
  exists x. split; [apply I, Hx | exact E].
Qed.

Lemma replace_same c s : replace [c] [c] s = s.
Proof.
  unfold replace. induction s as [| x s IH]; [reflexivity |].
  rewrite replace_from_one, IH. destruct (Ascii.eqb c x) eqn:E;
    [| reflexivity].
  apply Ascii.eqb_eq in E. subst x. reflexivity.
Qed.

Lemma rstrip_by_snoc p s c :
  p c = true -> rstrip_by p (s ++ [c]) = rstrip_by p s.
Proof.
  intros H. unfold rstrip_by. rewrite rev_app_distr. cbn [rev app drop_while].
  rewrite H. reflexivity.
Qed.

Lemma strip_by_fixed p s :
  strip_by p s = s -> lstrip_by p s = s /\ rstrip_by p s = s.
Proof.
  intros E. pose proof (strip_by_head p s) as H. rewrite E in H.
  assert (L : lstrip_by p s = s) by (apply drop_while_id, H).
  split; [exact L |]. unfold strip_by in E. rewrite L in E. exact E.
Qed.

Lemma strip_by_slash_dir p d c :
  p c = true -> strip_by p d = d -> strip_by p (d ++ [c]) = d.
Proof.
  intros Hc E. destruct (strip_by_fixed p d E) as [L R].
  destruct d as [| x d].
  - unfold strip_by, lstrip_by, rstrip_by. cbn. rewrite Hc. reflexivity.
  - pose proof (strip_by_head p (x :: d)) as H. rewrite E in H.
    unfold strip_by, lstrip_by.
    change ((x :: d) ++ [c]) with (x :: (d ++ [c])).
    cbn [drop_while]. rewrite H.
    change (x :: (d ++ [c])) with ((x :: d) ++ [c]).
    rewrite (rstrip_by_snoc p _ c Hc). exact R.
Qed.
End ProcessorExclusions.

(** X15.  [parse_exclusions] of [file_processor.py] keeps as patterns
    items of the text as they are written, stripped and not empty, and
    stores every suffix without its dot, in lower case and not empty;
    an item that starts with a star and a dot is never a pattern. *)
Theorem X15_parse_exclusions_sorts_the_items :
  forall exclude_str : str,
    (forall p, In p (fst (FileProcessorPack.parse_exclusions exclude_str)) ->
       p <> [] /\ strip p = p /\ ~ In ","%char p
       /\ startswith p "*." = false)
    /\ (forall s, In s (snd (FileProcessorPack.parse_exclusions exclude_str)) ->
          s <> [] /\ lower s = s).
Proof.
  intros e. rewrite parse_exclusions_items. cbn [fst snd]. split.
  - intros p H. apply in_flat_map in H. destruct H as (item & I & H).
    destruct (classify_pattern item p H) as [-> S].
    destruct (exclusion_item e item I) as (A & B & C).
    repeat split; assumption.
  - intros s H. apply in_flat_map in H. destruct H as (item & I & H).
    exact (classify_suffix item s H).
Qed.

(** X16.  [is_excluded] of [file_processor.py] has no negation: what
    is excluded under some patterns and suffixes is excluded under
    more of them. *)
Theorem X16_more_rules_exclude_more :
  forall (rel_path basename : str) (ps ps' ss ss' : list str),
    incl ps ps' -> incl ss ss' ->
    FileProcessorPack.is_excluded rel_path basename ps ss = true ->
    FileProcessorPack.is_excluded rel_path basename ps' ss' = true.
Proof.
  intros rel base ps ps' ss ss' Ip Is. unfold FileProcessorPack.is_excluded.
  cbv zeta. rewrite !orb_true_iff. intros [H | H].
  - left. exact (existsb_incl _ _ _ _ Ip H).
  - right. exact (existsb_incl _ _ _ _ Is H).
Qed.

Lemma X16_more_rules_exclude_more_witness :
  FileProcessorPack.is_excluded "build/x.py" "x.py"
    (strs ["build/"; "docs/"]) (strs ["log"]) = true.
Proof.
  apply (X16_more_rules_exclude_more "build/x.py" "x.py"
           (strs ["build/"]) (strs ["build/"; "docs/"]) [] (strs ["log"])).
  - intros x [<- | []]. left. reflexivity.
  - intros x [].
  - reflexivity.
Defined.

(** X17.  A directory pattern of [file_processor.py], a name followed
    by a slash, is matched at the source directory only: it hits the
    relative path that is the name, and the relative paths that start
    with the name and the slash, and nothing else (but for the special
    case of [.git/], which hits every entry named [.git]). *)
Theorem X17_directory_pattern_is_anchored :
  forall (d rel_path basename : str),
    no_end_slash d = true ->
    (FileProcessorPack.pattern_hits rel_path basename (d ++ "/") = true
     <-> rel_path = d \/ startswith rel_path (d ++ "/") = true
         \/ (d = of_string ".git" /\ basename = of_string ".git")).
Proof.
  intros d rel base H. unfold no_end_slash in H. apply str_eqb_eq in H.
  unfold FileProcessorPack.pattern_hits.
  change (of_string "/") with ["/"%char].
  rewrite endswith_snoc, Ascii.eqb_refl.
  change [OsPath.sep] with ["/"%char]. rewrite replace_same.
  rewrite (strip_by_slash_dir _ d "/"%char (Ascii.eqb_refl _) H).
  rewrite !orb_true_iff, andb_true_iff, !str_eqb_eq.
  split.
  - intros [[A | A] | [A B]]; [left; exact A | right; left; exact A |].
    right; right. split; [| exact B].
    apply (f_equal (@rev ascii)) in A. rewrite rev_app_distr in A.
    cbn in A. injection A as A. apply (f_equal (@rev ascii)) in A.
    rewrite rev_involutive in A. exact A.
  - intros [A | [A | [-> ->]]]; [left; left; exact A | left; right; exact A |].
    right. split; reflexivity.
Qed.

Lemma X17_directory_pattern_is_anchored_witness :
  FileProcessorPack.pattern_hits "src/build/x.py" "x.py" "build/" = false.
Proof.
  destruct (FileProcessorPack.pattern_hits "src/build/x.py" "x.py" "build/")
    eqn:E; [| reflexivity].
  apply (X17_directory_pattern_is_anchored "build" "src/build/x.py" "x.py"
           eq_refl) in E.
  destruct E as [E | [E | [E _]]]; discriminate E.
Defined.

(** ** [ProjectReconstructor] *)
Section PathFromComment.
Import FileProcessor.

Lemma in_rstrip_by (p : ascii -> bool) s c : In c (rstrip_by p s) -> In c s.
Proof.
  unfold rstrip_by. intros H.
  apply in_rev, in_drop_while, in_rev in H. exact H.
Qed.

Lemma forallb_strip_by (q p : ascii -> bool) s :
  forallb q s = true -> forallb q (strip_by p s) = true.
Proof.
  rewrite !forallb_forall. intros H c Hc. apply H.
  exact (in_strip_by p s c Hc).
Qed.

Lemma forallb_sub_decorations (q : ascii -> bool) s :
  forallb q s = true -> forallb q (sub_decorations s) = true.
Proof.
  rewrite !forallb_forall. intros H c Hc. apply H.
  unfold sub_decorations, lstrip_by in Hc.
  apply in_rstrip_by, in_drop_while in Hc. exact Hc.
Qed.

Lemma first_line_group line g :
  FIRST_LINE_PATH_COMMENT_PATTERN_match line = Some g ->
  forallb nonspace g = true.
Proof.
  unfold FIRST_LINE_PATH_COMMENT_PATTERN_match.
  destruct (drop_while isspace line) as [| c r]; [discriminate |].
  destruct (Ascii.eqb c "#"); [| discriminate].
  destruct (drop_while isspace r) as [| x u]; [discriminate |].
  intros K. injection K as <-. exact (take_while_forallb nonspace (x :: u)).
Qed.

Lemma strip_by_ends s c :
  startswith (strip_by (Ascii.eqb c) s) [c] = false
  /\ endswith (strip_by (Ascii.eqb c) s) [c] = false.
Proof.
  pose proof (strip_by_head (Ascii.eqb c) s) as H.
  pose proof (strip_by_last (Ascii.eqb c) s) as L.
  unfold endswith.
  destruct (strip_by (Ascii.eqb c) s) as [| a r]; [split; reflexivity |].
  split.
  - cbn [startswith]. rewrite H. reflexivity.
  - destruct (rev (a :: r)) as [| z t]; [reflexivity |].
    cbn [rev app startswith]. rewrite L. reflexivity.
Qed.

Lemma extracted_path block p :
  _extract_path_from_comment block = Some p ->
  p <> [] /\ startswith p "#" = false /\ forallb nonspace p = true
  /\ startswith p "`" = false /\ endswith p "`" = false.
Proof.
  unfold _extract_path_from_comment.
  destruct (is_empty block); [discriminate |]. cbv zeta.
  destruct (FIRST_LINE_PATH_COMMENT_PATTERN_match _) as [g |] eqn:M;
    [| discriminate].
  pose proof (first_line_group _ _ M) as G.
  rewrite (strip_nonspace_run g G).
  destruct (_ && existsb _ _); [| discriminate].
  destruct (negb (is_empty (strip_by (Ascii.eqb "`") (sub_decorations g)))
            && negb (startswith
                       (strip_by (Ascii.eqb "`") (sub_decorations g)) "#"))
    eqn:T; [| discriminate].
  intros K. injection K as <-.
  apply andb_true_iff in T. destruct T as [T1 T2].
  apply negb_true_iff in T1, T2.
  split; [intros Z; rewrite Z in T1; discriminate T1 |].
  split; [exact T2 |].
  split; [apply forallb_strip_by, forallb_sub_decorations, G |].
  apply (strip_by_ends (sub_decorations g) "`"%char).
Qed.

Lemma last_value_in (V : Type) k (kvs : list (str * V)) :
  In k (map fst kvs) ->
  exists v, last_value k kvs = Some v /\ In (k, v) kvs.
Proof.
  intros H. unfold last_value.
  destruct (find (fun kv => str_eqb (fst kv) k) (rev kvs)) as [[k' v] |] eqn:F.
  - apply find_some in F. destruct F as [I E]. cbn [fst] in E.
    apply str_eqb_eq in E. subst k'. exists v.
    split; [reflexivity | apply in_rev, I].
  - exfalso. apply in_map_iff in H. destruct H as ([k' v] & E & I).
    cbn [fst] in E. subst k'.
    pose proof (find_none _ _ F (k, v) (proj1 (in_rev _ _) I)) as N.
    cbn [fst] in N. rewrite str_eqb_refl in N. discriminate N.
Qed.

Lemma accepted_block m k block :
  accept_block m = Some (k, block) ->
  block = strip (snd m) /\ _extract_path_from_comment block = Some k
  /\ INVALID_PATH_CHARS_PATTERN_search k = false
  /\ is_potentially_unsafe k = false.
Proof.
  unfold accept_block. cbv zeta.
  destruct (_extract_path_from_comment (strip (snd m))) as [p |] eqn:E;
    [| discriminate].
  destruct (is_empty p); [discriminate |].
  destruct (INVALID_PATH_CHARS_PATTERN_search p) eqn:V; [discriminate |].
  destruct (is_potentially_unsafe p) eqn:U; [discriminate |].
  intros K. injection K as <- <-. repeat split; assumption.
Qed.

Lemma parse_content_entry text k :
  In k (Dict.keys (_parse_content text)) ->
  exists m block,
    In m (CODE_BLOCK_PATTERN_finditer text)
    /\ accept_block m = Some (k, block)
    /\ Dict.get k (_parse_content text) = Some block.
Proof.
  destruct (parse_content_characterization text) as [-> G].
  rewrite in_first_occurrences. intros H.
  destruct (last_value_in _ k _ H) as (v & L & I).
  unfold blocks_in_order in I. apply in_flat_map in I.
  destruct I as (m & Hm & I). exists m, v. split; [exact Hm |].
  split; [| rewrite G; exact L].
  destruct (accept_block m) as [kv |]; [| destruct I].
  destruct I as [-> | []]. reflexivity.
Qed.
End PathFromComment.

(** X18.  A path that [_extract_path_from_comment] returns is not
    empty, holds no white space, does not start with a hash, and has no
    backquote at either end. *)
Theorem X18_extracted_path_is_a_token :
  forall (block p : str),
    FileProcessor._extract_path_from_comment block = Some p ->
    p <> [] /\ startswith p "#" = false /\ forallb nonspace p = true
    /\ startswith p "`" = false /\ endswith p "`" = false.
Proof.
  exact extracted_path.
Qed.

Lemma X18_extracted_path_is_a_token_witness :
  forallb nonspace (of_string "a/b.py") = true.
Proof.
  refine (proj1 (proj2 (proj2 (X18_extracted_path_is_a_token
            (unlines ["#  `a/b.py`  "; "x = 1"]) "a/b.py" _)))).
  vm_compute. reflexivity.
Defined.

(** X19.  In the dictionary of [_parse_content] the paths are distinct,
    and each path is safe (no invalid character, not absolute, no
    component of two dots) and without white space; the text stored
    under a path is the stripped text of a block, whose first line is
    the comment that names the path. *)
Theorem X19_parsed_entries_name_their_path :
  forall text : str,
    NoDup (Dict.keys (FileProcessor._parse_content text))
    /\ forall k, In k (Dict.keys (FileProcessor._parse_content text)) ->
         k <> [] /\ forallb nonspace k = true
         /\ INVALID_PATH_CHARS_PATTERN_search k = false
         /\ FileProcessor.is_potentially_unsafe k = false
         /\ exists block,
              Dict.get k (FileProcessor._parse_content text) = Some block
              /\ strip block = block
              /\ FileProcessor._extract_path_from_comment block = Some k.
Proof.
  intros text. split.
  - destruct (parse_content_characterization text) as [-> _].
    apply NoDup_first_occurrences.
  - intros k H. destruct (parse_content_entry text k H) as (m & block & _ & A & G).
    destruct (accepted_block m k block A) as (B & E & V & U).
    destruct (extracted_path block k E) as (N & _ & S & _).
    repeat split; try assumption.
    exists block. split; [exact G |]. split; [| exact E].
    rewrite B. apply strip_idem.
Qed.

Section ReconstructCounts.
Import FileProcessor.

Lemma write_one_counts w root cwd item fs c e :
  exists fs', write_one w root cwd item (fs, c, e) = (fs', S c, e)
              \/ (fs' = fs /\ write_one w root cwd item (fs, c, e) = (fs, c, S e)).
Proof.
  unfold write_one. destruct item as [rel code]. cbv zeta.
  destruct (is_empty_list _); [exists fs; right; split; reflexivity |].
  destruct (negb _); [exists fs; right; split; reflexivity |].
  destruct (if is_empty _ then None else Os.makedirs w _);
    [exists fs; right; split; reflexivity |].
  destruct (Os.write_file w _ code fs) as [fs' | x].
  - exists fs'. left. reflexivity.
  - exists fs. right. split; reflexivity.
Qed.

Lemma write_all_counts w root cwd items :
  forall fs c e fs' c' e',
    fold_left (fun acc item => write_one w root cwd item acc) items (fs, c, e)
      = (fs', c', e') ->
    c' + e' = c + e + length items.
Proof.
  induction items as [| item items IH]; intros fs c e fs' c' e'.
  - cbn. intros K. injection K as _ <- <-. lia.
  - cbn [fold_left length].
    destruct (write_one_counts w root cwd item fs c e) as (fs1 & [E | [_ E]]);
      rewrite E; intros K; apply IH in K; lia.
Qed.
End ReconstructCounts.

(** X20.  [reconstruct_from_content] reports a failure only when the
    output directory cannot be created, and then it has written
    nothing; when it reports success, the files created and the errors
    add up to the number of paths parsed from the content.  It raises
    only for an output directory whose name holds a null character. *)
Theorem X20_reconstruct_accounts_for_every_path :
  forall (w : Os.world) (cwd output_root_dir content : str) (fs : Os.files),
    match FileProcessor.reconstruct_from_content w cwd output_root_dir
            content fs with
    | (fs', FileProcessor.Returned true created_count error_count) =>
        Os.makedirs w output_root_dir = None
        /\ created_count + error_count
           = length (FileProcessor.parse content)
    | (fs', FileProcessor.Returned false created_count error_count) =>
        Os.makedirs w output_root_dir = Some Os.OSError
        /\ created_count = 0 /\ error_count = 0 /\ fs' = fs
    | (fs', FileProcessor.Raised _) =>
        Os.has_nul output_root_dir = true /\ fs' = fs
    end.
Proof.
  intros w cwd root content fs. unfold FileProcessor.reconstruct_from_content.
  destruct (Os.makedirs w root) as [[|] |] eqn:M.
  - repeat split; reflexivity.
  - split; [| reflexivity]. unfold Os.makedirs in M.
    destruct (Os.has_nul root); [reflexivity |].
    destruct (is_empty root); [discriminate M |].
    destruct (Os.dir_ok w root); discriminate M.
  - cbv zeta. fold (FileProcessor.parse content).
    destruct (is_empty_list (FileProcessor.parse content)) eqn:E.
    + split; [reflexivity |].
      destruct (FileProcessor.parse content); [reflexivity | discriminate E].
    + destruct (fold_left _ (FileProcessor.parse content) (fs, 0, 0))
        as [[fs' c] e] eqn:F.
      split; [reflexivity |].
      apply write_all_counts in F. exact F.
Qed.

(** *** Where [reconstruct_from_content] writes *)
Section ReconstructWrites.
Import FileProcessor OsPath.

Lemma write_one_keys w root cwd rel code fs c e fs' c' e' :
  write_one w root cwd (rel, code) (fs, c, e) = (fs', c', e') ->
  forall p, In p (Dict.keys fs') ->
    In p (Dict.keys fs) \/ p = join_all root (path_parts rel).
Proof.
  unfold write_one. cbv zeta. fold (path_parts rel).
  destruct (is_empty_list _);
    [intros K; injection K as <- _ _; intros p H; left; exact H |].
  destruct (negb _);
    [intros K; injection K as <- _ _; intros p H; left; exact H |].
  destruct (if is_empty _ then None else Os.makedirs w _);
    [intros K; injection K as <- _ _; intros p H; left; exact H |].
  destruct (Os.write_file w _ code fs) as [fs1 | x] eqn:W.
  - intros K. injection K as <- _ _. intros p H.
    exact (write_file_keys _ _ _ _ _ _ W H).
  - intros K. injection K as <- _ _. intros p H. left. exact H.
Qed.

Lemma write_all_keys w root cwd items :
  forall fs c e fs' c' e',
    fold_left (fun acc item => write_one w root cwd item acc) items (fs, c, e)
      = (fs', c', e') ->
    forall p, In p (Dict.keys fs') ->
      In p (Dict.keys fs)
      \/ exists k, In k (map fst items) /\ p = join_all root (path_parts k).
Proof.
  induction items as [| [rel code] items IH]; intros fs c e fs' c' e'.
  - cbn. intros K. injection K as <- _ _. intros p H. left. exact H.
  - cbn [fold_left map fst].
    destruct (write_one w root cwd (rel, code) (fs, c, e))
      as [[fs1 c1] e1] eqn:W.
    intros K p H. destruct (IH _ _ _ _ _ _ K p H) as [A | (k & I & E)].
    + destruct (write_one_keys _ _ _ _ _ _ _ _ _ _ _ W p A) as [B | B].
      * left. exact B.
      * right. exists rel. split; [left; reflexivity | exact B].
    + right. exists k. split; [right; exact I | exact E].
Qed.

Lemma split_by_ext (p q : ascii -> bool) s :
  (forall c, In c s -> p c = q c) -> split_by p s = split_by q s.
Proof.
  induction s as [| x s IH]; intros H; [reflexivity |].
  cbn [split_by]. rewrite (H x (or_introl eq_refl)), IH; [reflexivity |].
  intros c Hc. apply H. right. exact Hc.
Qed.

Lemma split_by_lstrip p s x :
  In x (split_by p (drop_while p s)) -> In x (split_by p s).
Proof.
  induction s as [| c s IH]; [intros H; exact H |].
  cbn [drop_while]. destruct (p c) eqn:E; [| intros H; exact H].
  intros H. cbn [split_by]. rewrite E. right. exact (IH H).
Qed.

Lemma rstrip_by_keep p s c :
  p c = false -> rstrip_by p (s ++ [c]) = s ++ [c].
Proof.
  intros H. unfold rstrip_by. rewrite rev_app_distr. cbn [rev app drop_while].
  rewrite H. cbn [rev]. rewrite rev_involutive. reflexivity.
Qed.

Lemma split_by_rstrip p s x :
  In x (split_by p (rstrip_by p s)) -> In x (split_by p s).
Proof.
  induction s as [| c s IH] using rev_ind; [intros H; exact H |].
  destruct (p c) eqn:E.
  - rewrite (rstrip_by_snoc p s c E). intros H.
    rewrite (split_by_sep_app p s c [] E). apply in_or_app. left. exact (IH H).
  - rewrite (rstrip_by_keep p s c E). intros H. exact H.
Qed.

Lemma split_by_strip p s x :
  In x (split_by p (strip_by p s)) -> In x (split_by p s).
Proof.
  unfold strip_by, lstrip_by. intros H.
  apply split_by_lstrip, split_by_rstrip, H.
Qed.

(** the parts of a safe path written with slashes only *)
Lemma path_parts_clean k x :
  ~ In "\"%char k ->
  existsb (str_eqb "..") (split "/" k) = false ->
  In x (path_parts k) ->
  is_empty x = false /\ str_eqb x "." = false /\ str_eqb x ".." = false
  /\ forall c, In c x -> Ascii.eqb sep c = false.
Proof.
  intros B D H. unfold path_parts in H. apply filter_In in H.
  destruct H as [I F]. apply andb_true_iff in F. destruct F as [F1 F2].
  apply negb_true_iff in F1, F2.
  split; [exact F1 |]. split; [exact F2 |]. split.
  - apply split_by_strip in I.
    rewrite (split_by_ext (char_in "/\") (Ascii.eqb "/") k) in I.
    + destruct (str_eqb x "..") eqn:E; [| reflexivity].
      apply str_eqb_eq in E. subst x.
      assert (K : existsb (str_eqb "..") (split "/" k) = true)
        by (apply existsb_str_in; exact I).
      rewrite D in K. discriminate K.
    + intros c Hc. unfold char_in. cbn [of_string list_ascii_of_string existsb].
      rewrite orb_false_r.
      destruct (Ascii.eqb c "\") eqn:E.
      * apply Ascii.eqb_eq in E. subst c. contradiction.
      * rewrite orb_false_r. apply Ascii.eqb_sym.
  - intros c Hc. pose proof (split_by_pieces _ _ _ _ I Hc) as K.
    unfold char_in in K. cbn [of_string list_ascii_of_string existsb] in K.
    apply orb_false_iff in K. destruct K as [K _].
    unfold sep. rewrite Ascii.eqb_sym. exact K.
Qed.

Lemma norm_comps_join2 a x :
  isabs a = true ->
  is_empty x = false -> str_eqb x "." = false -> str_eqb x ".." = false ->
  (forall c, In c x -> Ascii.eqb sep c = false) ->
  norm_comps (join2 a x) = norm_comps a ++ [x].
Proof.
  intros Ha E D DD S.
  assert (Hx : startswith x [sep] = false).
  { destruct x as [| c x]; [reflexivity |]. cbn [startswith].
    rewrite (S c (or_introl eq_refl)). reflexivity. }
  assert (Ea : is_empty a = false)
    by (destruct a; [discriminate | reflexivity]).
  unfold norm_comps. rewrite (initial_slashes_join a x Ha Hx).
  rewrite (norm_fold_join _ a x Hx Ea).
  unfold split at 1. rewrite (split_by_whole _ x S).
  rewrite norm_fold_no_dotdot.
  - cbn [filter]. rewrite E, D. reflexivity.
  - cbn [existsb]. rewrite (str_eqb_sym ".." x), DD. reflexivity.
Qed.

Lemma norm_comps_join_all parts :
  forall a,
    isabs a = true ->
    (forall x, In x parts ->
       is_empty x = false /\ str_eqb x "." = false /\ str_eqb x ".." = false
       /\ forall c, In c x -> Ascii.eqb sep c = false) ->
    isabs (join_all a parts) = true
    /\ norm_comps (join_all a parts) = norm_comps a ++ parts.
Proof.
  induction parts as [| x parts IH]; intros a Ha H.
  - cbn. rewrite app_nil_r. split; [exact Ha | reflexivity].
  - unfold join_all. cbn [fold_left]. fold (join_all (join2 a x) parts).
    destruct (H x (or_introl eq_refl)) as (E & D & DD & S).
    destruct (IH (join2 a x) (isabs_join2 a x Ha)) as [A B].
    + intros y Hy. apply H. right. exact Hy.
    + split; [exact A |].
      rewrite B, (norm_comps_join2 a x Ha E D DD S), <- app_assoc.
      reflexivity.
Qed.

Lemma isabs_normpath p : isabs p = true -> isabs (normpath p) = true.
Proof.
  intros H. rewrite (normpath_abs p H).
  pose proof (initial_slashes_abs p H) as N.
  destruct (initial_slashes p) as [| n]; [lia |].
  cbn [repeat app]. unfold isabs. cbn [startswith].
  rewrite Ascii.eqb_refl. reflexivity.
Qed.

Lemma isabs_abspath cwd p : isabs cwd = true -> isabs (abspath cwd p) = true.
Proof.
  intros H. unfold abspath. destruct (isabs p) eqn:E.
  - apply isabs_normpath, E.
  - apply isabs_normpath, isabs_join2, H.
Qed.

Lemma join_all_within root parts :
  isabs root = true ->
  (forall x, In x parts ->
     is_empty x = false /\ str_eqb x "." = false /\ str_eqb x ".." = false
     /\ forall c, In c x -> Ascii.eqb sep c = false) ->
  Os.within root (join_all root parts) = true.
Proof.
  intros Hr H. destruct (norm_comps_join_all parts root Hr H) as [A B].
  unfold Os.within. rewrite (components_abs root Hr), (components_abs _ A), B.
  apply list_prefix_app.
Qed.
End ReconstructWrites.

(** X21.  When the paths parsed from the content are written with
    slashes only, every file that [reconstruct_from_content] writes
    lies in the output directory.  (The condition is needed: the parse
    looks for components of two dots between slashes, the writing
    splits at backslashes as well.) *)
Theorem X21_slash_paths_are_written_in_output_directory :
  forall (w : Os.world) (cwd output_root_dir content : str)
         (fs fs' : Os.files) (o : FileProcessor.outcome),
    OsPath.isabs cwd = true ->
    (forall k, In k (Dict.keys (FileProcessor.parse content)) ->
               ~ In "\"%char k) ->
    FileProcessor.reconstruct_from_content w cwd output_root_dir content fs
      = (fs', o) ->
    forall p, In p (Dict.keys fs') ->
      In p (Dict.keys fs)
      \/ Os.within (OsPath.abspath cwd output_root_dir) p = true.
Proof.
  intros w cwd root content fs fs' o Hc Hk.
  unfold FileProcessor.reconstruct_from_content.
  destruct (Os.makedirs w root) as [[|] |];
    try (intros K; injection K as <- _; intros p H; left; exact H).
  cbv zeta. fold (FileProcessor.parse content).
  destruct (is_empty_list (FileProcessor.parse content));
    [intros K; injection K as <- _; intros p H; left; exact H |].
  destruct (fold_left _ (FileProcessor.parse content) (fs, 0, 0))
    as [[fs1 c] e] eqn:F.
  intros K. injection K as <- _. intros p H.
  destruct (write_all_keys _ _ _ _ _ _ _ _ _ _ F p H) as [A | (k & I & ->)];
    [left; exact A |].
  right. apply join_all_within; [apply isabs_abspath, Hc |].
  intros x Hx. apply (path_parts_clean k x); [apply Hk, I | | exact Hx].
  destruct (parse_content_keys_safe _ k I) as [_ U].
  unfold FileProcessor.is_potentially_unsafe in U.
  apply orb_false_iff in U. destruct U as [_ U]. exact U.
Qed.

Lemma X21_slash_paths_are_written_in_output_directory_witness :
  In (of_string "/out/src/main.py") (Dict.keys (@nil (str * str)))
  \/ Os.within (OsPath.abspath "/work" "/out") "/out/src/main.py" = true.
Proof.
  refine (X21_slash_paths_are_written_in_output_directory Os.permissive
            "/work" "/out" example_document [] _ _ _ _ _ "/out/src/main.py" _).
  - reflexivity.
  - intros k H. vm_compute in H. destruct H as [<- | []].
    vm_compute. intuition discriminate.
  - vm_compute. reflexivity.
  - left. reflexivity.
Defined.

(** The condition of X21 at work: a path that climbs with backslashes
    passes the parse and the test on the prefix, and its file is
    written outside of the output directory. *)
Example reconstruct_backslash_path :
  Dict.keys (FileProcessor.parse backslash_document)
    = [of_string "a\..\..\outside\f.py"]
  /\ Dict.keys
       (fst (FileProcessor.reconstruct_from_content Os.permissive "/" "/out"
               backslash_document []))
     = [of_string "/out/a/../../outside/f.py"]
  /\ Os.within "/out" "/out/a/../../outside/f.py" = false.
Proof. repeat split; reflexivity. Qed.

(** ** Plain rules and star rules of [_is_excluded] *)
Section ShellPatterns.
Import Fnmatch MainPack.

Lemma plain_cons c lit :
  plain (c :: lit) = true ->
  Ascii.eqb c "*" = false /\ Ascii.eqb c "?" = false
  /\ Ascii.eqb c "[" = false /\ Ascii.eqb c "/" = false
  /\ plain lit = true.
Proof.
  unfold plain. cbn [forallb]. rewrite andb_true_iff, negb_true_iff.
  unfold char_in. cbn [of_string list_ascii_of_string existsb].
  rewrite !orb_false_iff. intros [(A & B & C & D & _) E]. tauto.
Qed.

Lemma translate_plain lit :
  plain lit = true -> translate lit = map Lit lit.
Proof.
  unfold translate. induction lit as [| c lit IH]; intros H; [reflexivity |].
  destruct (plain_cons c lit H) as (A & B & C & _ & P).
  cbn [tokens_from map]. rewrite A, B, C, (IH P). reflexivity.
Qed.

Lemma matches_plain lit s : matches (map Lit lit) s = str_eqb lit s.
Proof.
  revert s; induction lit as [| c lit IH]; intros s.
  - destruct s; reflexivity.
  - destruct s as [| x s]; [reflexivity |].
    cbn [map matches token_accepts str_eqb]. rewrite IH. reflexivity.
Qed.

Lemma plain_no_slash lit : plain lit = true -> char_in lit "/" = false.
Proof.
  induction lit as [| c lit IH]; intros H; [reflexivity |].
  destruct (plain_cons c lit H) as (_ & _ & _ & D & P).
  unfold char_in. cbn [existsb]. rewrite Ascii.eqb_sym, D. exact (IH P).
Qed.

Lemma startswith_app_iff s p :
  startswith s p = true <-> exists b, s = p ++ b.
Proof.
  revert s; induction p as [| x p IH]; intros s.
  - split; [intros _; exists s; reflexivity | reflexivity].
  - destruct s as [| y s]; cbn [startswith].
    + split; [discriminate | intros [b E]; discriminate E].
    + rewrite andb_true_iff, Ascii.eqb_eq, IH. split.
      * intros [-> [b ->]]. exists b. reflexivity.
      * intros [b E]. injection E as -> ->. split; [reflexivity |].
        exists b. reflexivity.
Qed.

Lemma endswith_app_iff s l : endswith s l = true <-> exists a, s = a ++ l.
Proof.
  unfold endswith. rewrite startswith_app_iff. split.
  - intros [b E]. exists (rev b).
    apply (f_equal (@rev ascii)) in E.
    rewrite rev_involutive, rev_app_distr, rev_involutive in E. exact E.
  - intros [a ->]. exists (rev a). apply rev_app_distr.
Qed.

Lemma matches_star_plain lit s :
  matches (Star :: map Lit lit) s = endswith s lit.
Proof.
  apply eq_true_iff_eq. rewrite endswith_app_iff.
  induction s as [| c s IH].
  - cbn [matches]. rewrite matches_plain, orb_false_r, str_eqb_eq. split.
    + intros ->. exists []. reflexivity.
    + intros [a E]. symmetry in E. apply app_eq_nil in E.
      destruct E as [_ ->]. reflexivity.
  - change (matches (Star :: map Lit lit) (c :: s))
      with (matches (map Lit lit) (c :: s) || matches (Star :: map Lit lit) s).
    rewrite orb_true_iff, matches_plain, str_eqb_eq, IH. split.
    + intros [-> | [a ->]]; [exists []; reflexivity |].
      exists (c :: a). reflexivity.
    + intros [[| x a] E]; [left; symmetry; exact E |].
      injection E as -> ->. right. exists a. reflexivity.
Qed.

Lemma plain_rule_reading lit :
  plain lit = true ->
  endswith lit "/" = false.
Proof.
  intros H. destruct (endswith lit "/") eqn:E; [| reflexivity].
  apply endswith_in in E. apply plain_no_slash in H.
  unfold char_in in H.
  assert (K : existsb (Ascii.eqb "/") lit = true)
    by (apply existsb_exists; exists "/"%char;
        split; [exact E | apply Ascii.eqb_refl]).
  rewrite H in K. discriminate K.
Qed.
End ShellPatterns.

(** X22.  A rule of plain characters (no star, question mark, bracket
    or slash, and no exclamation mark in front) excludes exactly the
    entries whose name is the rule, at any depth, files and directories
    alike. *)
Theorem X22_plain_rule_excludes_its_name :
  forall (rel_path lit : str) (is_dir : bool),
    plain lit = true -> rule_negate lit = false ->
    MainPack._is_excluded rel_path is_dir [lit]
    = str_eqb lit (OsPath.basename rel_path).
Proof.
  intros rel lit d P N. unfold MainPack._is_excluded. cbn [fold_left].
  rewrite rule_step_spec, rule_matches_glob, N.
  unfold dir_only_rule, rule_glob. rewrite N. cbv zeta.
  rewrite (plain_rule_reading lit P). cbn [andb].
  rewrite (plain_no_slash lit P). cbn [negb].
  unfold Fnmatch.fnmatch. rewrite (translate_plain lit P), matches_plain.
  destruct (str_eqb lit (OsPath.basename rel)); reflexivity.
Qed.

Lemma X22_plain_rule_excludes_its_name_witness :
  MainPack._is_excluded "a/b/node_modules" true (strs ["node_modules"]) = true.
Proof.
  exact (X22_plain_rule_excludes_its_name "a/b/node_modules" "node_modules"
           true eq_refl eq_refl).
Defined.

(** X23.  A rule made of a star and plain characters, such as the rule
    for an extension, excludes exactly the entries whose name ends with
    these characters, at any depth. *)
Theorem X23_star_rule_excludes_by_ending :
  forall (rel_path lit : str) (is_dir : bool),
    plain lit = true ->
    MainPack._is_excluded rel_path is_dir [("*" ++ lit)%list]
    = endswith (OsPath.basename rel_path) lit.
Proof.
  intros rel lit d P. unfold MainPack._is_excluded. cbn [fold_left].
  assert (N : rule_negate ("*" ++ lit) = false) by reflexivity.
  assert (E : endswith ("*" ++ lit) "/" = false).
  { destruct lit as [| c lit] using rev_ind; [reflexivity |].
    change (of_string "*" ++ lit ++ [c]) with ("*"%char :: (lit ++ [c])).
    rewrite app_comm_cons. change (of_string "/") with ["/"%char].
    rewrite endswith_snoc.
    pose proof (plain_rule_reading _ P) as K.
    change (of_string "/") with ["/"%char] in K.
    rewrite endswith_snoc in K. exact K. }
  assert (S : char_in ("*" ++ lit) "/" = false)
    by (unfold char_in; cbn [of_string list_ascii_of_string app existsb];
        exact (plain_no_slash lit P)).
  rewrite rule_step_spec, rule_matches_glob, N.
  unfold dir_only_rule, rule_glob. rewrite N. cbv zeta. rewrite E.
  cbn [andb]. rewrite S. cbn [negb].
  unfold Fnmatch.fnmatch, Fnmatch.translate.
  change (Fnmatch.tokens_from 0 ("*" ++ lit))
    with (Fnmatch.Star :: Fnmatch.translate lit).
  rewrite (translate_plain lit P), matches_star_plain.
  destruct (endswith (OsPath.basename rel) lit); reflexivity.
Qed.

Lemma X23_star_rule_excludes_by_ending_witness :
  MainPack._is_excluded "logs/2024/debug.log" false (strs ["*.log"]) = true.
Proof.
  exact (X23_star_rule_excludes_by_ending "logs/2024/debug.log" ".log" false
           eq_refl).
Defined.

(** ** [combine_files] *)
Section CombineWalk.
Import Tree FileProcessorPack.
Variable suffix_map : Dict.dict str.
Variable selected_suffixes : list str.
Variables excluded_patterns excluded_suffixes_no_dot : list str.
Variable P : result -> Prop.
Variable all : list (str * option str).

Hypothesis skip_entry :
  forall r x k, skipped_count r < k -> P r ->
    P (mkResult (combined r) (file_count r) k (error_count r)
         (merged_files_log r) (skipped_files_log r ++ [x]) (opened r)).
Hypothesis file_entry :
  forall r here f text, In (rel_join here f, text) all -> P r ->
    P (do_file suffix_map selected_suffixes excluded_patterns
         excluded_suffixes_no_dot here f text r).

Lemma fold_left_preserves (B : Type) (f : result -> B -> result) l :
  (forall a b, In b l -> P a -> P (f a b)) ->
  forall a, P a -> P (fold_left f l a).
Proof.
  induction l as [| b l IH]; intros H a Pa; [exact Pa |].
  cbn [fold_left]. apply IH.
  - intros a' b' I. apply H. right. exact I.
  - apply H; [left; reflexivity | exact Pa].
Qed.

Lemma walk_node_preserves n :
  forall here r,
    incl (node_files here n) all -> P r ->
    P (walk_node suffix_map selected_suffixes excluded_patterns
         excluded_suffixes_no_dot here n r).
Proof.
  induction n as [name text | name children IH] using node_induction;
    intros here r Hall Pr; cbn [walk_node]; [exact Pr |].
  cbv zeta. destruct (excl _ _ _ name).
  - apply skip_entry; [lia | exact Pr].
  - rewrite Forall_forall in IH. cbn [node_files] in Hall.
    apply fold_left_preserves.
    { intros a [f text | d ds] I Pa; [exact Pa |].
      destruct (excl _ _ _ d); [exact Pa |]. apply (IH _ I); [| exact Pa].
      intros x Hx. apply Hall, in_flat_map.
      exists (Dir d ds). split; [exact I | exact Hx]. }
    apply fold_left_preserves.
    { intros a [f text | d ds] I Pa; [| exact Pa].
      apply file_entry; [| exact Pa]. apply Hall, in_flat_map.
      exists (File f text). split; [exact I | left; reflexivity]. }
    apply fold_left_preserves; [| exact Pr].
    intros a [f text | d ds] I Pa; [exact Pa |].
    destruct (excl _ _ _ d); [| exact Pa].
    apply skip_entry; [lia | exact Pa].
Qed.
End CombineWalk.

Section CombineFacts.
Import Tree FileProcessorPack.

Lemma in_step_skip r x k :
  skipped_count r < k -> in_step r ->
  in_step (mkResult (combined r) (file_count r) k (error_count r)
             (merged_files_log r) (skipped_files_log r ++ [x]) (opened r)).
Proof.
  unfold in_step. cbn. rewrite length_app. cbn [length]. lia.
Qed.

Lemma in_step_file suffix_map selected ps ss r here f text :
  in_step r -> in_step (do_file suffix_map selected ps ss here f text r).
Proof.
  unfold in_step, do_file. cbv zeta.
  destruct (_ || _); [cbn; rewrite length_app; cbn [length]; lia |].
  destruct text as [body |]; cbn; rewrite !length_app; cbn [length]; lia.
Qed.

Lemma reads_eligible_skip suffix_map selected ps ss r x k :
  skipped_count r < k -> reads_eligible suffix_map selected ps ss r ->
  reads_eligible suffix_map selected ps ss
    (mkResult (combined r) (file_count r) k (error_count r)
       (merged_files_log r) (skipped_files_log r ++ [x]) (opened r)).
Proof. intros _ H. exact H. Qed.

Lemma reads_eligible_file suffix_map selected ps ss r here f text :
  reads_eligible suffix_map selected ps ss r ->
  reads_eligible suffix_map selected ps ss
    (do_file suffix_map selected ps ss here f text r).
Proof.
  intros [M O]. unfold do_file. cbv zeta. fold (suffix_of f).
  destruct (excl ps ss (rel_join here f) f
            || match Dict.get (suffix_of f) suffix_map with
               | Some _ => negb (existsb (str_eqb (suffix_of f)) selected)
               | None => true
               end) eqn:S; [split; assumption |].
  assert (E : eligible suffix_map selected ps ss (rel_join here f) f = true).
  { apply orb_false_iff in S. destruct S as [S1 S2]. unfold eligible.
    unfold excl in S1. rewrite S1.
    destruct (Dict.get (suffix_of f) suffix_map); [| discriminate S2].
    apply negb_false_iff in S2. rewrite S2. reflexivity. }
  assert (new : forall p, In p (opened r ++ [rel_join here f]) ->
                  exists here0 filename,
                    p = rel_join here0 filename
                    /\ eligible suffix_map selected ps ss p filename = true).
  { intros p H. apply in_app_or in H. destruct H as [H | [<- | []]];
      [exact (O p H) |]. exists here, f. split; [reflexivity | exact E]. }
  destruct text as [body |]; split; cbn [merged_files_log opened];
    try exact new.
  - intros p H. apply in_app_or in H. apply in_or_app.
    destruct H as [H | H]; [left; exact (M p H) | right; exact H].
  - intros p H. apply in_or_app. left. exact (M p H).
Qed.
End CombineFacts.

(** X24.  The results of [combine_files] are in step: the count of
    files is the number of blocks and of entries in the log of merged
    files; the files opened are the files merged and the files in
    error; a file in error is also counted as skipped; and the log of
    skipped entries has at most as many lines as the count of skipped
    entries. *)
Theorem X24_combine_files_results_are_in_step :
  forall (source_name : str) (tree : list Tree.node)
         (suffix_map : Dict.dict str) (selected_suffixes : list str)
         (exclude_str : str),
    in_step (FileProcessorPack.combine_files source_name tree suffix_map
               selected_suffixes exclude_str).
Proof.
  intros source tree suffix_map selected e.
  unfold FileProcessorPack.combine_files.
  destruct (FileProcessorPack.parse_exclusions e) as [ps ss].
  apply (walk_node_preserves suffix_map selected ps ss in_step
           (node_files [] (Tree.Dir source tree))).
  - apply in_step_skip.
  - intros r here f text _. apply in_step_file.
  - apply incl_refl.
  - unfold in_step. cbn. lia.
Qed.

(** X25.  [combine_files] opens a file only when the file is not
    excluded and its suffix, in lower case, is in the suffix map and
    among the selected suffixes; every file merged is a file opened. *)
Theorem X25_combine_files_reads_eligible_files_only :
  forall (source_name : str) (tree : list Tree.node)
         (suffix_map : Dict.dict str) (selected_suffixes : list str)
         (exclude_str : str) (p : str),
    (In p (FileProcessorPack.merged_files_log
             (FileProcessorPack.combine_files source_name tree suffix_map
                selected_suffixes exclude_str)) ->
     In p (FileProcessorPack.opened
             (FileProcessorPack.combine_files source_name tree suffix_map
                selected_suffixes exclude_str)))
    /\ (In p (FileProcessorPack.opened
                (FileProcessorPack.combine_files source_name tree suffix_map
                   selected_suffixes exclude_str)) ->
        exists here filename,
          p = Tree.rel_join here filename
          /\ eligible suffix_map selected_suffixes
               (fst (FileProcessorPack.parse_exclusions exclude_str))
               (snd (FileProcessorPack.parse_exclusions exclude_str))
               p filename = true).
Proof.
  intros source tree suffix_map selected e p.
  unfold FileProcessorPack.combine_files.
  destruct (FileProcessorPack.parse_exclusions e) as [ps ss]. cbn [fst snd].
  assert (R : reads_eligible suffix_map selected ps ss
                (FileProcessorPack.walk_node suffix_map selected ps ss []
                   (Tree.Dir source tree)
                   (FileProcessorPack.mkResult [] 0 0 0 [] [] []))).
  { apply (walk_node_preserves suffix_map selected ps ss
             (reads_eligible suffix_map selected ps ss)
             (node_files [] (Tree.Dir source tree))).
    - apply reads_eligible_skip.
    - intros r here f text _. apply reads_eligible_file.
    - apply incl_refl.
    - split; intros q []. }
  destruct R as [M O]. split; [apply M | apply O].
Qed.

Section CombineBlocks.
Import Tree FileProcessorPack.

Lemma blocks_of_files_file suffix_map selected ps ss all r here f text :
  In (rel_join here f, text) all ->
  (exists l, blocks_of_files suffix_map all r l) ->
  exists l, blocks_of_files suffix_map all
              (do_file suffix_map selected ps ss here f text r) l.
Proof.
  intros I [l (C & M & F)]. unfold do_file. cbv zeta. fold (suffix_of f).
  destruct (_ || _) eqn:S; [exists l; exact (conj C (conj M F)) |].
  apply orb_false_iff in S. destruct S as [_ S].
  destruct (Dict.get (suffix_of f) suffix_map) as [lang |] eqn:G;
    [| discriminate S].
  destruct text as [body |]; [| exists l; exact (conj C (conj M F))].
  exists (l ++ [(lang, rel_join here f, body)]).
  unfold blocks_of_files. cbn [combined merged_files_log].
  rewrite !map_app, C, M. cbn [map block_for fst snd].
  split; [reflexivity |]. split; [reflexivity |].
  intros lang' rel' content' H. apply in_app_or in H.
  destruct H as [H | [H | []]]; [exact (F _ _ _ H) |].
  injection H as <- <- <-. split; [exact I |].
  exists here, f. split; [reflexivity | exact G].
Qed.
Lemma combine_files_blocks source_name tree suffix_map selected_suffixes
    exclude_str :
  exists l : list (str * str * str),
    blocks_of_files suffix_map (tree_files tree)
      (combine_files source_name tree suffix_map selected_suffixes
         exclude_str) l.
Proof.
  unfold combine_files.
  destruct (parse_exclusions exclude_str) as [ps ss].
  apply (walk_node_preserves suffix_map selected_suffixes ps ss
           (fun r => exists l, blocks_of_files suffix_map (tree_files tree) r l)
           (tree_files tree)).
  - intros r x k _ H. exact H.
  - intros r here f text. apply blocks_of_files_file.
  - apply incl_refl.
  - exists []. split; [reflexivity |]. split; [reflexivity |].
    intros lang rel content [].
Qed.
End CombineBlocks.

(** X28.  The blocks of [combine_files] are the blocks of the files it
    merged, one for each entry of the log of merged files and in that
    order: each is the block that [build_block] makes of the text read
    from a file of the tree, under the language that the suffix map
    gives for the suffix of the file. *)
Theorem X28_combine_files_emits_the_blocks_of_merged_files :
  forall (source_name : str) (tree : list Tree.node)
         (suffix_map : Dict.dict str) (selected_suffixes : list str)
         (exclude_str : str),
    exists l : list (str * str * str),
      blocks_of_files suffix_map (tree_files tree)
        (FileProcessorPack.combine_files source_name tree suffix_map
           selected_suffixes exclude_str) l.
Proof.
  intros source tree suffix_map selected e.
  apply combine_files_blocks.
Qed.

Section BlockNames.
Import FileProcessor FileProcessorPack.

Lemma replace_absent c new s : ~ In c s -> replace [c] new s = s.
Proof.
  unfold replace. induction s as [| x s IH]; intros H; [reflexivity |].
  rewrite replace_from_one.
  destruct (Ascii.eqb c x) eqn:E.
  - apply Ascii.eqb_eq in E. subst x. exfalso. apply H. left. reflexivity.
  - rewrite IH; [reflexivity |]. intros K. apply H. right. exact K.
Qed.

Lemma nonspace_no_newline s : forallb nonspace s = true -> ~ In LF s.
Proof. intros H. apply (forallb_not_in nonspace s LF H). reflexivity. Qed.

Lemma first_line_padded content :
  fst (split1 LF (content ++ (if endswith content nl then [] else nl)))
  = fst (split1 LF content).
Proof.
  destruct (split1_spec LF content) as [A B].
  destruct (snd (split1 LF content)) as [t |] eqn:T.
  - set (h := fst (split1 LF content)) in *.
    rewrite B at 1. rewrite <- app_assoc. cbn [app].
    rewrite (split1_line h _ A). reflexivity.
  - assert (E : endswith content nl = false).
    { destruct (endswith content nl) eqn:E; [| reflexivity].
      apply endswith_in in E. rewrite B in E. contradiction. }
    rewrite E. set (h := fst (split1 LF content)) in *.
    rewrite B at 1. unfold nl. rewrite (split1_line h [] A). reflexivity.
Qed.

Lemma comment_line_read rel rest :
  rel <> [] -> forallb nonspace rel = true ->
  existing_path_in_comment ("# " ++ rel ++ nl ++ rest) = Some rel.
Proof.
  intros N S. unfold existing_path_in_comment.
  change (is_empty ("# " ++ rel ++ nl ++ rest)) with false. cbv iota.
  assert (L : ~ In LF ("# " ++ rel)).
  { apply not_in_app; [| apply nonspace_no_newline, S].
    cbv. intuition discriminate. }
  replace ("# " ++ rel ++ nl ++ rest) with (("# " ++ rel) ++ LF :: rest)
    by (rewrite <- !app_assoc; reflexivity).
  rewrite (split1_line _ rest L). cbn [fst].
  destruct (last_char rel) as (r0 & c & E);
    [destruct rel; [contradiction | reflexivity] |].
  assert (Hc : isspace c = false) by (rewrite E in S; exact (nonspace_run_last r0 c S)).
  assert (St : strip ("# " ++ rel) = "# " ++ rel).
  { apply strip_by_id; [reflexivity |].
    rewrite E, app_assoc, rev_app_distr. cbn [rev app]. exact Hc. }
  rewrite St. unfold FIRST_LINE_PATH_COMMENT_PATTERN_match.
  destruct rel as [| x u]; [contradiction |].
  assert (Hx : isspace x = false).
  { cbn [forallb] in S. apply andb_true_iff in S. destruct S as [S _].
    apply negb_true_iff in S. exact S. }
  cbn [of_string list_ascii_of_string app drop_while].
  change (isspace "#") with false. cbv iota.
  change (Ascii.eqb "#" "#") with true. cbv iota.
  cbn [drop_while]. rewrite Hx.
  change (isspace " ") with true. cbv iota. cbn [option_map].
  rewrite (take_while_all nonspace (x :: u) S), (strip_nonspace_run _ S).
  reflexivity.
Qed.
End BlockNames.

(** X26.  Every block that [combine_files] builds for a file names the
    file: for a path without white space and without backslash, the
    first line between the fence lines is a path comment whose path is
    the path of the file, whether the comment was in the file or was
    added, and the text of the file follows whole. *)
Theorem X26_every_block_names_its_file :
  forall (lang rel_path content : str),
    rel_path <> [] -> forallb nonspace rel_path = true ->
    ~ In "\"%char rel_path ->
    exists commented : bool,
      FileProcessorPack.build_block lang rel_path content
      = fence ++ lang ++ nl ++ block_payload rel_path content commented
          ++ fence ++ nl ++ nl
      /\ exists e,
           existing_path_in_comment (block_payload rel_path content commented)
             = Some e
           /\ replace "\" "/" e = rel_path.
Proof.
  intros lang rel content N S B.
  unfold FileProcessorPack.build_block. cbv zeta.
  destruct (FileProcessor.FIRST_LINE_PATH_COMMENT_PATTERN_match
              (if is_empty content then []
               else strip (fst (split1 LF content)))) as [g |] eqn:M.
  - destruct (str_eqb (replace "\" "/" (strip g)) rel) eqn:E; cbn [negb].
    + exists false. unfold block_payload. cbn [app].
      split; [rewrite <- !app_assoc; reflexivity |].
      exists (strip g). split; [| apply str_eqb_eq, E].
      unfold existing_path_in_comment.
      destruct content as [| c content]; [discriminate M |].
      change (is_empty ((c :: content) ++ _)) with false. cbv iota.
      rewrite first_line_padded.
      cbn [is_empty] in M. rewrite M. reflexivity.
    + exists true. unfold block_payload.
      split; [rewrite <- !app_assoc; reflexivity |].
      exists rel. rewrite <- !app_assoc.
      split; [apply (comment_line_read rel _ N S) |].
      change (of_string "\") with ["\"%char]. apply replace_absent, B.
  - cbn [negb]. exists true. unfold block_payload.
    split; [rewrite <- !app_assoc; reflexivity |].
    exists rel. rewrite <- !app_assoc.
    split; [apply (comment_line_read rel _ N S) |].
    change (of_string "\") with ["\"%char]. apply replace_absent, B.
Qed.

Lemma X26_every_block_names_its_file_witness :
  exists commented : bool,
    FileProcessorPack.build_block "python" "src/a.py"
      (unlines ["# src\a.py"; "x = 1"])
    = fence ++ "python" ++ nl
        ++ block_payload "src/a.py" (unlines ["# src\a.py"; "x = 1"]) commented
        ++ fence ++ nl ++ nl
    /\ exists e,
         existing_path_in_comment
           (block_payload "src/a.py" (unlines ["# src\a.py"; "x = 1"]) commented)
           = Some e
         /\ replace "\" "/" e = of_string "src/a.py".
Proof.
  apply (X26_every_block_names_its_file "python" "src/a.py"
           (unlines ["# src\a.py"; "x = 1"])).
  - discriminate.
  - reflexivity.
  - cbv. intuition discriminate.
Defined.

(** ** From the blocks of [combine_files] to the dictionary of
    [_parse_content] *)
Section PackThenParse.
Import FileProcessor FileProcessorPack.

Lemma build_block_payload lang rel content :
  build_block lang rel content
  = fence ++ lang ++ nl ++ payload_of rel content ++ fence ++ nl ++ nl.
Proof.
  unfold build_block, payload_of, block_payload, commented,
    existing_path_in_comment. cbv zeta.
  destruct (FIRST_LINE_PATH_COMMENT_PATTERN_match _) as [g |];
    cbn [option_map]; [destruct (negb _) |];
    rewrite <- ?app_assoc; reflexivity.
Qed.

Lemma payload_ends_with_newline rel content :
  endswith (payload_of rel content) nl = true.
Proof.
  unfold payload_of, block_payload.
  destruct (endswith content nl) eqn:E.
  - rewrite app_nil_r.
    destruct (endswith_last _ _ E) as [a ->].
    rewrite app_assoc. apply (endswith_snoc _ LF LF).
  - rewrite !app_assoc. apply (endswith_snoc _ LF LF).
Qed.

Lemma drop_while_all p s X :
  forallb p s = true -> drop_while p (s ++ X) = drop_while p X.
Proof.
  induction s as [| c s IH]; [reflexivity |]. cbn [forallb app drop_while].
  intros H. apply andb_true_iff in H. destruct H as [-> H]. exact (IH H).
Qed.

Lemma drop_while_some p s X :
  forallb p s = false -> drop_while p (s ++ X) = drop_while p s ++ X.
Proof.
  induction s as [| c s IH]; [discriminate |]. cbn [forallb app drop_while].
  destruct (p c); [exact IH | reflexivity].
Qed.

Lemma drop_while_nonempty p s :
  forallb p s = false -> drop_while p s <> [].
Proof.
  induction s as [| c s IH]; [discriminate |]. cbn [forallb drop_while].
  destruct (p c); [exact IH | discriminate].
Qed.

Lemma contains_tail s c sub :
  contains (c :: s) sub = false ->
  startswith (c :: s) sub = false /\ contains s sub = false.
Proof.
  cbn [contains]. intros H. apply orb_false_iff in H. exact H.
Qed.

Lemma contains_drop_while p s sub :
  contains s sub = false -> contains (drop_while p s) sub = false.
Proof.
  induction s as [| c s IH]; [intros H; exact H |].
  intros H. cbn [drop_while]. destruct (p c); [| exact H].
  apply IH. apply (contains_tail s c sub H).
Qed.

Lemma startswith_prefix a b p :
  startswith a p = true -> startswith (a ++ b) p = true.
Proof.
  rewrite !startswith_app_iff. intros [x ->]. exists (x ++ b).
  symmetry. apply app_assoc.
Qed.

Lemma endswith_drop_while p s :
  endswith s nl = true -> drop_while p s <> [] ->
  endswith (drop_while p s) nl = true.
Proof.
  induction s as [| c s IH]; [discriminate |]. cbn [drop_while].
  destruct (p c); [| intros H _; exact H].
  intros H N. apply IH; [| exact N].
  destruct s as [| d s]; [contradiction |].
  destruct (endswith_last _ _ H) as [a E].
  destruct a as [| x a]; [discriminate E |]. injection E as _ ->.
  apply (endswith_snoc a LF LF).
Qed.

(** a text that ends with a newline and holds no fence does not make a
    fence with what follows it *)
Lemma no_fence_across s F :
  s <> [] -> endswith s nl = true -> startswith s fence = false ->
  startswith (s ++ F) fence = false.
Proof.
  intros N E S. destruct (endswith_last _ _ E) as [r ->].
  rewrite <- app_assoc. cbn [app]. apply startswith_fence_line.
  destruct (startswith r fence) eqn:K; [| reflexivity].
  rewrite (startswith_prefix r [LF] fence K) in S. discriminate S.
Qed.

Lemma contains_startswith s sub :
  contains s sub = false -> startswith s sub = false.
Proof.
  destruct s as [| c s]; cbn [contains]; intros H;
    apply orb_false_iff in H; apply H.
Qed.

Lemma closing_fence_inside c p R :
  endswith (c :: p) nl = true -> contains (c :: p) fence = false ->
  closing_fence (c :: p ++ fence ++ R)
  = if Ascii.eqb c LF && forallb isspace p then Some R else None.
Proof.
  intros E C. cbn [closing_fence]. destruct (Ascii.eqb c LF) eqn:Ec;
    [| reflexivity]. cbn [andb].
  destruct (forallb isspace p) eqn:A.
  - rewrite (drop_while_all isspace p _ A). reflexivity.
  - rewrite (drop_while_some isspace p _ A).
    pose proof (drop_while_nonempty isspace p A) as N.
    assert (Ep : endswith p nl = true).
    { destruct p as [| d p]; [discriminate A |].
      destruct (endswith_last _ _ E) as [a Ea].
      destruct a as [| x a]; [discriminate Ea |]. injection Ea as _ ->.
      apply (endswith_snoc a LF LF). }
    rewrite no_fence_across; [reflexivity | exact N | |].
    + apply endswith_drop_while; assumption.
    + apply contains_startswith, contains_drop_while.
      apply (contains_tail p c fence C).
Qed.

(** the lazy body of a block stops in the white space that ends the
    text between the fences *)
Lemma lazy_body_payload p R :
  endswith p nl = true -> contains p fence = false ->
  exists body ws,
    lazy_body (p ++ fence ++ R) = Some (body, R)
    /\ p = body ++ ws /\ forallb isspace ws = true.
Proof.
  induction p as [| c p IH]; [discriminate |]. intros E C.
  rewrite lazy_body_unfold. cbn [app].
  rewrite (closing_fence_inside c p R E C).
  destruct (Ascii.eqb c LF && forallb isspace p) eqn:K.
  - exists [], (c :: p). split; [reflexivity |]. split; [reflexivity |].
    apply andb_true_iff in K. destruct K as [K1 K2].
    apply Ascii.eqb_eq in K1. subst c. cbn [forallb]. exact K2.
  - assert (Np : p <> []).
    { intros ->. destruct (endswith_last _ _ E) as [a Ea].
      destruct a as [| x [| y a]]; [| discriminate Ea | discriminate Ea].
      injection Ea as ->. rewrite Ascii.eqb_refl in K. discriminate K. }
    assert (Ep : endswith p nl = true).
    { destruct (endswith_last _ _ E) as [a Ea].
      destruct a as [| x a]; [destruct p; [contradiction | discriminate Ea] |].
      injection Ea as _ ->. apply (endswith_snoc a LF LF). }
    destruct (IH Ep (proj2 (contains_tail p c fence C)))
      as (body & ws & L & -> & W).
    rewrite L. exists (c :: body), ws.
    split; [reflexivity |]. split; [reflexivity | exact W].
Qed.

Lemma rstrip_trailing p s ws :
  forallb p ws = true -> rstrip_by p (s ++ ws) = rstrip_by p s.
Proof.
  intros W. unfold rstrip_by. rewrite rev_app_distr.
  rewrite drop_while_all; [reflexivity |].
  rewrite forallb_forall in *. intros x Hx. apply W, in_rev, Hx.
Qed.

Lemma strip_trailing s ws :
  forallb isspace ws = true -> strip (s ++ ws) = strip s.
Proof.
  intros W. unfold strip, strip_by, lstrip_by.
  destruct (forallb isspace s) eqn:A.
  - rewrite (drop_while_all isspace s ws A).
    assert (Z : forall t, forallb isspace t = true -> drop_while isspace t = []).
    { induction t as [| x t IHt]; [reflexivity |]. cbn [forallb drop_while].
      intros H. apply andb_true_iff in H. destruct H as [-> H]. exact (IHt H). }
    rewrite (Z ws W), (Z s A). reflexivity.
  - rewrite (drop_while_some isspace s ws A). apply rstrip_trailing, W.
Qed.

Lemma block_match_payload lang p R :
  is_empty lang = false -> forallb isword lang = true ->
  endswith p nl = true -> contains p fence = false ->
  exists body ws,
    block_match true (fence ++ lang ++ nl ++ p ++ fence ++ R)
      = Some (lang, body, R)
    /\ p = body ++ ws /\ forallb isspace ws = true.
Proof.
  intros N W E C. destruct (lazy_body_payload p R E C) as (body & ws & L & S).
  exists body, ws. split; [| exact S]. unfold block_match.
  change (startswith (fence ++ ?x) fence) with true.
  change (skipn 3 (fence ++ ?x)) with x. cbv iota. unfold nl. cbn [app].
  destruct (span_stop isword lang LF (p ++ fence ++ R) W eq_refl) as [-> ->].
  rewrite N. cbn [andb]. rewrite Ascii.eqb_refl, L. reflexivity.
Qed.

Lemma finditer_payload lang p X :
  is_empty lang = false -> forallb isword lang = true ->
  endswith p nl = true -> contains p fence = false ->
  exists body ws,
    finditer_from true 0 ((fence ++ lang ++ nl ++ p ++ fence ++ nl ++ nl) ++ X)
      = (lang, body) :: finditer_from true 0 X
    /\ p = body ++ ws /\ forallb isspace ws = true.
Proof.
  intros N W E C.
  destruct (block_match_payload lang p (nl ++ nl ++ X) N W E C)
    as (body & ws & M & S).
  exists body, ws. split; [| exact S].
  replace ((fence ++ lang ++ nl ++ p ++ fence ++ nl ++ nl) ++ X)
    with (fence ++ lang ++ nl ++ p ++ fence ++ nl ++ nl ++ X)
    by (rewrite <- !app_assoc; reflexivity).
  set (m0 := skipn 1 fence ++ lang ++ nl ++ p ++ fence).
  assert (Em : fence ++ lang ++ nl ++ p ++ fence ++ nl ++ nl ++ X
               = "`"%char :: m0 ++ nl ++ nl ++ X).
  { unfold m0. rewrite <- !app_assoc. reflexivity. }
  rewrite Em in M |- *. cbn [finditer_from]. rewrite M. f_equal.
  replace (length ("`"%char :: m0 ++ nl ++ nl ++ X)
           - length (nl ++ nl ++ X) - 1) with (length m0)
    by (cbn [length]; rewrite !length_app; lia).
  rewrite finditer_from_skip. reflexivity.
Qed.

(** stripping a text does not change its first line once stripped,
    when that line is not blank *)
Lemma rstrip_app_keep p a b :
  forallb p b = false -> exists b', rstrip_by p (a ++ b) = a ++ b'
                                    /\ (forall x t, b = x :: t -> exists t', b' = x :: t').
Proof.
  intros H. unfold rstrip_by. rewrite rev_app_distr.
  assert (Hr : forallb p (rev b) = false).
  { destruct (forallb p (rev b)) eqn:K; [| reflexivity].
    rewrite forallb_forall in K.
    assert (Q : forallb p b = true)
      by (apply forallb_forall; intros x Hx; apply K; apply -> in_rev; exact Hx).
    rewrite H in Q. discriminate Q. }
  rewrite (drop_while_some p (rev b) (rev a) Hr), rev_app_distr, rev_involutive.
  exists (rev (drop_while p (rev b))). split; [reflexivity |].
  intros x t ->. pose proof (drop_while_nonempty p _ Hr) as N.
  fold (rstrip_by p (x :: t)) in *.
  destruct (rstrip_prefix p (x :: t)) as [w Ew].
  destruct (rstrip_by p (x :: t)) as [| y t'] eqn:R.
  - exfalso. unfold rstrip_by in R. apply N.
    apply (f_equal (@rev ascii)) in R. rewrite rev_involutive in R. exact R.
  - cbn [app] in Ew. injection Ew as -> _. exists t'. reflexivity.
Qed.

Lemma first_line_of_stripped s :
  forallb isspace (fst (split1 LF s)) = false ->
  strip (fst (split1 LF (strip s))) = strip (fst (split1 LF s)).
Proof.
  intros H. destruct (split1_spec LF s) as [A B].
  set (h := fst (split1 LF s)) in *.
  assert (Hl : ~ In LF (drop_while isspace h))
    by (intros K; apply A; exact (in_drop_while _ _ _ K)).
  destruct (snd (split1 LF s)) as [t |].
  - rewrite B.
    change (strip (h ++ LF :: t))
      with (rstrip_by isspace (drop_while isspace (h ++ LF :: t))).
    rewrite (drop_while_some isspace h _ H).
    destruct (forallb isspace (LF :: t)) eqn:T.
    + rewrite (rstrip_trailing isspace _ _ T).
      fold (lstrip_by isspace h). fold (strip_by isspace h). fold (strip h).
      rewrite split1_no_line.
      * cbn [fst]. apply strip_idem.
      * intros K. apply A. exact (in_strip_by _ _ _ K).
    + destruct (rstrip_app_keep isspace (drop_while isspace h) (LF :: t) T)
        as (b' & -> & Hb).
      destruct (Hb LF t eq_refl) as [t' ->].
      rewrite (split1_line _ t' Hl). cbn [fst].
      unfold strip, strip_by, lstrip_by.
      f_equal. apply drop_while_id.
      pose proof (drop_while_nonempty isspace h H) as N.
      destruct (drop_while isspace h) as [| x r] eqn:D; [contradiction |].
      exact (drop_while_head isspace h x r D).
  - rewrite <- B.
    rewrite (split1_no_line (strip s));
      [cbn [fst]; apply strip_idem |].
    intros K. apply A. rewrite <- B. exact (in_strip_by _ _ _ K).
Qed.

Lemma first_line_match_not_blank line g :
  FIRST_LINE_PATH_COMMENT_PATTERN_match (strip line) = Some g ->
  forallb isspace line = false.
Proof.
  intros M. destruct (forallb isspace line) eqn:A; [| reflexivity].
  assert (Z : strip line = []).
  { unfold strip, strip_by, lstrip_by.
    rewrite <- (app_nil_r line), (drop_while_all isspace line [] A).
    reflexivity. }
  rewrite Z in M. discriminate M.
Qed.

Lemma accept_packed lang p body ws e :
  p = body ++ ws -> forallb isspace ws = true ->
  existing_path_in_comment p = Some e -> clean_path e = true ->
  accept_block (lang, body) = Some (e, strip p).
Proof.
  intros -> W X Cl. unfold accept_block. cbn [snd]. cbv zeta.
  rewrite (strip_trailing body ws W) in *.
  unfold clean_path in Cl. rewrite !andb_true_iff, !negb_true_iff in Cl.
  destruct Cl as (((((C1 & C2) & C3) & C4) & C5) & C6).
  apply str_eqb_eq in C2.
  unfold existing_path_in_comment in X.
  destruct (is_empty (body ++ ws)) eqn:Eb.
  { cbn in X. discriminate X. }
  destruct (FIRST_LINE_PATH_COMMENT_PATTERN_match
              (strip (fst (split1 LF (body ++ ws))))) as [g |] eqn:M;
    [| discriminate X].
  cbn [option_map] in X. injection X as X.
  pose proof (first_line_match_not_blank _ _ M) as NB.
  assert (F : strip (fst (split1 LF (strip body)))
              = strip (fst (split1 LF (body ++ ws)))).
  { rewrite <- (strip_trailing body ws W).
    apply first_line_of_stripped, NB. }
  assert (Ns : is_empty (strip body) = false).
  { destruct (strip body) eqn:S; [| reflexivity].
    rewrite <- (strip_trailing body ws W) in S.
    exfalso. clear - S NB M F Eb.
    assert (Q : forallb isspace (body ++ ws) = true).
    { unfold strip, strip_by, lstrip_by in S.
      destruct (forallb isspace (body ++ ws)) eqn:A; [reflexivity |].
      pose proof (drop_while_nonempty isspace _ A) as N.
      destruct (drop_while isspace (body ++ ws)) as [| x r] eqn:D;
        [contradiction |].
      pose proof (drop_while_head isspace _ x r D) as Hx.
      pose proof (rstrip_nonempty isspace x r Hx) as K.
      rewrite S in K. discriminate K. }
    destruct (split1_spec LF (body ++ ws)) as [_ B].
    rewrite forallb_forall in Q.
    assert (Q' : forallb isspace (fst (split1 LF (body ++ ws))) = true).
    { apply forallb_forall. intros x Hx. apply Q.
      destruct (snd (split1 LF (body ++ ws)));
        rewrite B; [apply in_or_app; left; exact Hx | exact Hx]. }
    rewrite NB in Q'. discriminate Q'. }
  unfold _extract_path_from_comment. rewrite Ns. cbv zeta.
  rewrite F, M, X, C3, C1. cbn [negb andb].
  rewrite C2, C3, C4. cbn [negb andb]. rewrite C3, C5, C6. reflexivity.
Qed.

Lemma parse_packed fs :
  forallb packable fs = true ->
  forall d,
    fold_left parse_step
      (finditer_from true 0 (concat (map block_for fs))) d
    = assign_all (map entry_for fs) d.
Proof.
  induction fs as [| [[lang rel] content] fs IH]; intros H d; [reflexivity |].
  cbn [forallb] in H. apply andb_true_iff in H. destruct H as [Hf Hfs].
  unfold packable in Hf. rewrite !andb_true_iff, !negb_true_iff in Hf.
  destruct Hf as (((N & W) & C) & E).
  destruct (existing_path_in_comment (payload_of rel content)) as [e |] eqn:X;
    [| discriminate E].
  cbn [map concat]. unfold block_for at 1. rewrite build_block_payload.
  destruct (finditer_payload lang (payload_of rel content)
              (concat (map block_for fs)) N W
              (payload_ends_with_newline rel content) C)
    as (body & ws & -> & S & Ws).
  cbn [fold_left]. unfold parse_step at 2.
  pose proof (accept_packed lang _ body ws e S Ws X E) as A.
  match goal with
  | |- context [accept_block ?m] =>
      replace (accept_block m)
        with (Some (e, strip (payload_of rel content)))
        by (symmetry; exact A)
  end.
  rewrite (IH Hfs). unfold assign_all. cbn [fold_left entry_for fst snd].
  rewrite X. reflexivity.
Qed.
End PackThenParse.

(** X27.  What [combine_files] packs, [_parse_content] reads back: for
    files whose blocks can be read (a language that is a word, no
    triple backquote in the text, a clean path on the first line), the
    dictionary parsed from the blocks put end to end is the one built
    by assigning, file after file, to the path named on the first line
    of the block the text between the fences, stripped: the text of the
    file after its path comment, but for white space at its ends. *)
Theorem X27_parse_reads_back_the_blocks :
  forall fs : list (str * str * str),
    forallb packable fs = true ->
    FileProcessor._parse_content (concat (map block_for fs))
    = assign_all (map entry_for fs) [].
Proof.
  intros fs H. apply (parse_packed fs H).
Qed.

Lemma X27_parse_reads_back_the_blocks_witness :
  FileProcessor._parse_content
    (concat (map block_for
               [(of_string "python", of_string "src/a.py",
                 unlines ["x = 1"; ""]);
                (of_string "text", of_string "notes.txt",
                 unlines ["# notes.txt"; "hello"])]))
  = [(of_string "src/a.py", unlines ["# src/a.py"; "x = 1"]);
     (of_string "notes.txt", unlines ["# notes.txt"; "hello"])].
Proof.
  rewrite X27_parse_reads_back_the_blocks; reflexivity.
Defined.

(** ** From [combine_files] to the reconstruction *)

(** X29.  From the source tree to the dictionary: when the files that
    [combine_files] merged have blocks that can be read back,
    [_parse_content] applied to the combined text gives, for each of
    these files in turn, the path named in its block with the text
    between the fences, stripped. *)
Theorem X29_combined_text_is_read_back :
  forall (source_name : str) (tree : list Tree.node)
         (suffix_map : Dict.dict str) (selected_suffixes : list str)
         (exclude_str : str),
    exists l : list (str * str * str),
      blocks_of_files suffix_map (tree_files tree)
        (FileProcessorPack.combine_files source_name tree suffix_map
           selected_suffixes exclude_str) l
      /\ (forallb packable l = true ->
          FileProcessor._parse_content
            (FileProcessorPack.combined_text
               (FileProcessorPack.combine_files source_name tree suffix_map
                  selected_suffixes exclude_str))
          = assign_all (map entry_for l) []).
Proof.
  intros source tree suffix_map selected e.
  destruct (combine_files_blocks source tree suffix_map selected e)
    as [l B].
  exists l. split; [exact B |]. intros H.
  unfold FileProcessorPack.combined_text. destruct B as (C & _).
  rewrite C. apply (parse_packed l H).
Qed.

(** the end-to-end example on the code of [file_processor.py]: the
    tree is packed, and the combined text parsed *)
Example combine_then_parse :
  FileProcessor._parse_content
    (FileProcessorPack.combined_text
       (FileProcessorPack.combine_files "root" example_tree
          [(of_string ".py", of_string "python")] (strs [".py"]) []))
  = [(of_string "src/main.py", unlines ["# src/main.py"; "print(1)"])].
Proof. reflexivity. Qed.

Section ReconstructTexts.
Import FileProcessor OsPath.

Lemma write_one_get w root cwd rel code fs c e fs' c' e' :
  write_one w root cwd (rel, code) (fs, c, e) = (fs', c', e') ->
  forall p v, Dict.get p fs' = Some v ->
    Dict.get p fs = Some v
    \/ (p = join_all root (path_parts rel) /\ v = code).
Proof.
  unfold write_one. cbv zeta. fold (path_parts rel).
  destruct (is_empty_list _);
    [intros K; injection K as <- _ _; intros p v H; left; exact H |].
  destruct (negb _);
    [intros K; injection K as <- _ _; intros p v H; left; exact H |].
  destruct (if is_empty _ then None else Os.makedirs w _);
    [intros K; injection K as <- _ _; intros p v H; left; exact H |].
  unfold Os.write_file. destruct (Os.has_nul _);
    [intros K; injection K as <- _ _; intros p v H; left; exact H |].
  destruct (Os.file_ok w _);
    [| intros K; injection K as <- _ _; intros p v H; left; exact H].
  intros K. injection K as <- _ _. intros p v. rewrite get_set.
  destruct (str_eqb (join_all root (path_parts rel)) p) eqn:E.
  - intros H. injection H as <-. apply str_eqb_eq in E.
    right. split; [symmetry; exact E | reflexivity].
  - intros H. left. exact H.
Qed.

Lemma write_all_get w root cwd items :
  forall fs c e fs' c' e',
    fold_left (fun acc item => write_one w root cwd item acc) items (fs, c, e)
      = (fs', c', e') ->
    forall p v, Dict.get p fs' = Some v ->
      Dict.get p fs = Some v
      \/ exists k, In (k, v) items /\ p = join_all root (path_parts k).
Proof.
  induction items as [| [rel code] items IH]; intros fs c e fs' c' e'.
  - cbn. intros K. injection K as <- _ _. intros p v H. left. exact H.
  - cbn [fold_left].
    destruct (write_one w root cwd (rel, code) (fs, c, e))
      as [[fs1 c1] e1] eqn:W.
    intros K p v H. destruct (IH _ _ _ _ _ _ K p v H) as [A | (k & I & E)].
    + destruct (write_one_get _ _ _ _ _ _ _ _ _ _ _ W p v A) as [B | [B1 B2]].
      * left. exact B.
      * right. exists rel. subst v. split; [left; reflexivity | exact B1].
    + right. exists k. split; [right; exact I | exact E].
Qed.

Lemma get_of_entry (V : Type) (d : Dict.dict V) k v :
  NoDup (Dict.keys d) -> In (k, v) d -> Dict.get k d = Some v.
Proof.
  unfold Dict.keys. induction d as [| [k' v'] d IH]; [intros _ []|].
  cbn [map fst Dict.get]. intros N [H | H].
  - injection H as -> ->. rewrite str_eqb_refl. reflexivity.
  - inversion N as [| ? ? Nk Nd]; subst.
    destruct (str_eqb k' k) eqn:E; [| exact (IH Nd H)].
    apply str_eqb_eq in E. subst k'. exfalso. apply Nk.
    apply in_map_iff. exists (k, v). split; [reflexivity | exact H].
Qed.
End ReconstructTexts.

(** X30.  What [reconstruct_from_content] writes is what it parsed:
    every file it writes holds, unchanged, the text stored in the
    dictionary under a path, and the file is at the output directory
    joined with the components of that path. *)
Theorem X30_reconstruct_writes_the_parsed_texts :
  forall (w : Os.world) (cwd output_root_dir content : str)
         (fs fs' : Os.files) (o : FileProcessor.outcome),
    FileProcessor.reconstruct_from_content w cwd output_root_dir content fs
      = (fs', o) ->
    forall p v, Dict.get p fs' = Some v ->
      Dict.get p fs = Some v
      \/ exists k,
           Dict.get k (FileProcessor.parse content) = Some v
           /\ p = OsPath.join_all (OsPath.abspath cwd output_root_dir)
                    (path_parts k).
Proof.
  intros w cwd root content fs fs' o.
  unfold FileProcessor.reconstruct_from_content.
  destruct (Os.makedirs w root) as [[|] |];
    try (intros K; injection K as <- _; intros p v H; left; exact H).
  cbv zeta. fold (FileProcessor.parse content).
  destruct (is_empty_list (FileProcessor.parse content));
    [intros K; injection K as <- _; intros p v H; left; exact H |].
  destruct (fold_left _ (FileProcessor.parse content) (fs, 0, 0))
    as [[fs1 c] e] eqn:F.
  intros K. injection K as <- _. intros p v H.
  destruct (write_all_get _ _ _ _ _ _ _ _ _ _ F p v H) as [A | (k & I & E)];
    [left; exact A |].
  right. exists k. split; [| exact E].
  apply get_of_entry; [| exact I].
  unfold FileProcessor.parse.
  destruct (parse_content_characterization
              (FileProcessor.normalize_newlines content)) as [-> _].
  apply NoDup_first_occurrences.
Qed.

Lemma X30_reconstruct_writes_the_parsed_texts_witness :
  Dict.get "/out/src/main.py" (@nil (str * str))
    = Some (unlines ["# src/main.py"; "print(1)"])
  \/ exists k,
       Dict.get k (FileProcessor.parse example_document)
         = Some (unlines ["# src/main.py"; "print(1)"])
       /\ of_string "/out/src/main.py"
          = OsPath.join_all (OsPath.abspath "/work" "/out") (path_parts k).
Proof.
  apply (X30_reconstruct_writes_the_parsed_texts Os.permissive "/work" "/out"
           example_document []
           [(of_string "/out/src/main.py",
             unlines ["# src/main.py"; "print(1)"])]
           (FileProcessor.Returned true 1 0)).
  - vm_compute. reflexivity.
  - vm_compute. reflexivity.
Defined.
